(** * Order intake pipeline of the B2B backend: quantity resolution and
      order placement

    A shallow embedding of [src/routes/orders.js] ([calculateTileQuantity],
    [validateOrder], the [POST /] handler) and of the SQL function
    [update_product_stock] of the tile-dimension migration, followed by the
    properties the specification states about them.

    Modelling decisions, each taken from the source:

    - a JavaScript number is an IEEE 754 binary64 value: Rocq's primitive
      [float], whose operations round to nearest-even exactly as the
      JavaScript operators [*] and [/] do;
    - the JSON fields [quantity], [coverage] and [totalAmount] of a request
      are JSON numbers or absent ([option float]); the product columns
      [length_mm] and [width_mm] ([numeric], nullable) are the numbers the
      handler reads from the query result; [box_moq] and [stock] are SQL
      [integer] columns, nullable ([option Z], with the 32-bit range
      checked where SQL checks it);
    - the [products] table is a finite map keyed by its primary key, the
      [orders] table a list whose positions stand for the generated ids;
    - the store answers every query; the only store errors are the ones the
      SQL text itself raises. *)

From Stdlib Require Import ZArith Lia Bool Ascii String Floats Uint63.
From stdpp Require Import base option list gmap strings.

Set Warnings "-inexact-float".
Local Open Scope Z_scope.

(** ** JavaScript numbers *)

Module JS.

Definition isNaN (x : float) : bool := negb (PrimFloat.eqb x x).

(** [ToBoolean] on a number: [0], [-0] and [NaN] are falsy. *)
Definition truthy (x : float) : bool :=
  negb (PrimFloat.eqb x 0%float || isNaN x).

(** The mathematical integer a number denotes, when it denotes one. *)
Definition integer_value (x : float) : option Z :=
  match Prim2SF x with
  | S754_zero _ => Some 0
  | S754_finite s m e =>
      let mag :=
        if 0 <=? e then Some (Z.pos m * 2 ^ e)
        else if Z.pos m mod 2 ^ (- e) =? 0 then Some (Z.pos m / 2 ^ (- e))
             else None in
      option_map (fun z => if s then - z else z) mag
  | _ => None
  end.

(** The number for an integer (exact below [2^53] in magnitude). *)
Definition of_Z (z : Z) : float :=
  match z with
  | Z0 => 0%float
  | Zpos _ => PrimFloat.of_uint63 (Uint63.of_Z z)
  | Zneg p => PrimFloat.opp (PrimFloat.of_uint63 (Uint63.of_Z (Z.pos p)))
  end.

(** [Math.ceil]: the least integer not below [x]; infinities, [NaN] and
    zeros are returned as they are, and a negative [x] above [-1] gives
    [-0]. A finite number with a negative exponent is below [2^52] in
    magnitude, so its ceiling is exact. *)
Definition Math_ceil (x : float) : float :=
  match Prim2SF x with
  | S754_finite s m e =>
      if 0 <=? e then x
      else
        let d := 2 ^ (- e) in
        if s then
          let n := Z.pos m / d in
          if n =? 0 then (-0)%float else of_Z (- n)
        else of_Z ((Z.pos m + d - 1) / d)
  | _ => x
  end.

(** [a > b] on numbers ([NaN] compares false). *)
Definition gt (a b : float) : bool := PrimFloat.ltb b a.

End JS.

(** ** Quantity resolution ([calculateTileQuantity], orders.js lines 9-15) *)

(** [tileArea]: mm² to m², then to square feet. *)
Definition tileArea (length width : float) : float :=
  (length * width / (1000 * 1000) * 10.764)%float.

Definition piecesNeeded (length width coverage : float) : float :=
  JS.Math_ceil (coverage / tileArea length width)%float.

(** [boxMoq] is [None] for [null]; the call site always passes the selected
    column, so the default parameter [boxMoq = 1] only ever stands for a
    missing value, and both [null > 1] and [1 > 1] are false. *)
Definition calculateTileQuantity
    (length width coverage : float) (boxMoq : option float) : float :=
  let pieces := piecesNeeded length width coverage in
  match boxMoq with
  | Some b =>
      if JS.gt b 1%float
      then (JS.Math_ceil (pieces / b) * b)%float
      else pieces
  | None => pieces
  end.

(** ** Tables *)

(** A row of [products] without its key: the columns the pipeline reads or
    writes. *)
Record product_row := {
  length_mm : option float;
  width_mm : option float;
  box_moq : option Z;
  stock : option Z
}.

Definition set_stock (r : product_row) (s : Z) : product_row :=
  {| length_mm := length_mm r; width_mm := width_mm r;
     box_moq := box_moq r; stock := Some s |}.

(** A cart line of the request body. *)
Record Item := {
  product_id : string;
  quantity : option float;
  coverage : option float
}.

(** [{...item, quantity: q}] *)
Definition with_quantity (it : Item) (q : float) : Item :=
  {| product_id := product_id it; quantity := Some q; coverage := coverage it |}.

Record Address := {
  street : option string;
  city : option string;
  state : option string;
  zipCode : option string
}.

Inductive order_status :=
  st_pending | st_approved | st_rejected | st_processing
| st_shipped | st_delivered | st_cancelled.

Inductive payment_status_t :=
  pay_pending | pay_paid | pay_failed | pay_refunded | pay_cancelled.

Record order_row := {
  user_id : string;
  items : list Item;
  total_amount : float;
  shipping_address : Address;
  status : order_status;
  payment_status : payment_status_t
}.

Record notification := {
  n_type : string;
  n_user_id : string;
  n_order : nat;
  n_status : string
}.

Record DB := {
  products : gmap string product_row;
  orders : list order_row;
  admin_notifications : list notification
}.

(** ** The SQL function [update_product_stock]

    From the migration "Add tile dimensions and box MOQ". *)

Definition int4_min : Z := - 2 ^ 31.
Definition int4_max : Z := 2 ^ 31 - 1.
Definition in_int4 (z : Z) : bool := (int4_min <=? z) && (z <=? int4_max).

Inductive sql_result (A : Type) :=
| SqlOk (a : A)
| SqlError (message : string).
Arguments SqlOk {A} a.
Arguments SqlError {A} message.

(** [RAISE EXCEPTION 'Insufficient stock for product %', p_product_id] *)
Definition insufficient_stock (p_product_id : string) : string :=
  String.append "Insufficient stock for product " p_product_id.

(** [UPDATE products SET stock = stock - p_quantity
     WHERE id = p_product_id AND stock >= p_quantity;
     IF NOT FOUND THEN RAISE EXCEPTION ...].
    A missing row or a [NULL] stock fails the [WHERE] clause; an [integer]
    result out of range aborts the statement. *)
Definition update_product_stock
    (ps : gmap string product_row) (p_product_id : string) (p_quantity : Z)
  : sql_result (gmap string product_row) :=
  match ps !! p_product_id with
  | Some row =>
      match stock row with
      | Some s =>
          if p_quantity <=? s then
            if in_int4 (s - p_quantity)
            then SqlOk (<[p_product_id := set_stock row (s - p_quantity)]> ps)
            else SqlError "integer out of range"
          else SqlError (insufficient_stock p_product_id)
      | None => SqlError (insufficient_stock p_product_id)
      end
  | None => SqlError (insufficient_stock p_product_id)
  end.

(** A sequence of decrement calls against the table; a failed call leaves
    the table as it was. *)
Definition decrement_step
    (ps : gmap string product_row) (op : string * Z) : gmap string product_row :=
  match update_product_stock ps op.1 op.2 with
  | SqlOk ps' => ps'
  | SqlError _ => ps
  end.

Definition decrements
    (ps : gmap string product_row) (ops : list (string * Z))
  : gmap string product_row :=
  fold_left decrement_step ops ps.

(** The remote call [supabase.rpc('update_product_stock', {p_product_id,
    p_quantity})]: the JSON number must be an [integer] argument. *)
Definition rpc_quantity (q : option float) : option Z :=
  match q with
  | Some v =>
      match JS.integer_value v with
      | Some z => if in_int4 z then Some z else None
      | None => None
      end
  | None => None
  end.

Definition rpc_update_product_stock
    (ps : gmap string product_row) (it : Item)
  : sql_result (gmap string product_row) :=
  match rpc_quantity (quantity it) with
  | Some z => update_product_stock ps (product_id it) z
  | None => SqlError "invalid input for type integer"
  end.

(** ** Request validation ([validateOrder], orders.js lines 18-29)

    The chains are express-validator's; each check below is what the chain
    decides on a JSON number, a string or a missing field. *)

Record Body := {
  b_items : list Item;
  totalAmount : option float;
  shippingAddress : option Address
}.

Module Validator.

Definition is_hex (c : ascii) : bool :=
  let n := nat_of_ascii c in
  ((48 <=? n) && (n <=? 57) || (65 <=? n) && (n <=? 70)
   || (97 <=? n) && (n <=? 102))%nat.

Definition is_hyphen (c : ascii) : bool := (nat_of_ascii c =? 45)%nat.

Fixpoint uuid_shape (pos : nat) (cs : list ascii) : bool :=
  match cs with
  | [] => (pos =? 36)%nat
  | c :: cs' =>
      (if ((pos =? 8) || (pos =? 13) || (pos =? 18) || (pos =? 23))%nat
       then is_hyphen c else is_hex c)
      && uuid_shape (S pos) cs'
  end.

(** [isUUID()]: 8-4-4-4-12 hexadecimal digits. *)
Definition isUUID (s : string) : bool :=
  uuid_shape 0 (list_ascii_of_string s).

(** [isInt({ min: 1 })] on a JSON number or a missing field: the number
    must print as a plain integer (no fraction, below [1e21]) and be at
    least 1; a missing field is validated as the empty string and
    fails. *)
Definition isInt_min1 (v : option float) : bool :=
  match v with
  | Some x =>
      match JS.integer_value x with
      | Some z => (1 <=? z) && (z <? 10 ^ 21)
      | None => false
      end
  | None => false
  end.

(** [isFloat({ min: 0 })] on a JSON number: finite and not below 0. *)
Definition isFloat_min0 (x : float) : bool :=
  PrimFloat.leb 0%float x && PrimFloat.ltb x infinity.

(** [.optional()] skips a missing field. *)
Definition optional (check : float -> bool) (v : option float) : bool :=
  match v with Some x => check x | None => true end.

Definition required (check : float -> bool) (v : option float) : bool :=
  match v with Some x => check x | None => false end.

(** [notEmpty()] on a string field. *)
Definition notEmpty (v : option string) : bool :=
  match v with
  | Some s => negb (String.eqb s EmptyString)
  | None => false
  end.

Definition check (field : string) (ok : bool) : list string :=
  if ok then [] else [field].

End Validator.

(** The validation chains, in the order of the source; the result lists the
    fields in error ([validationResult(req)]). *)
Definition validateOrder (body : Body) : list string :=
  let its := b_items body in
  let addr (f : Address -> option string) :=
    match shippingAddress body with Some a => f a | None => None end in
  Validator.check "items" (match its with [] => false | _ :: _ => true end)
  ++ concat (map (fun it =>
       Validator.check "items.*.product_id" (Validator.isUUID (product_id it))) its)
  ++ concat (map (fun it =>
       Validator.check "items.*.quantity" (Validator.isInt_min1 (quantity it))) its)
  ++ concat (map (fun it =>
       Validator.check "items.*.coverage"
         (Validator.optional Validator.isFloat_min0 (coverage it))) its)
  ++ Validator.check "totalAmount"
       (Validator.required Validator.isFloat_min0 (totalAmount body))
  ++ Validator.check "shippingAddress"
       (match shippingAddress body with Some _ => true | None => false end)
  ++ Validator.check "shippingAddress.street" (Validator.notEmpty (addr street))
  ++ Validator.check "shippingAddress.city" (Validator.notEmpty (addr city))
  ++ Validator.check "shippingAddress.state" (Validator.notEmpty (addr state))
  ++ Validator.check "shippingAddress.zipCode" (Validator.notEmpty (addr zipCode)).

(** ** The [POST /] handler (orders.js lines 32-134) *)

Inductive Response :=
| Created (order_id : nat) (order : order_row) (data_items : list Item)
| BadRequest (errors : list string)
| ServerError (details : string) (retry : bool).

(** [supabase.from('products').select(...).in('id', productIds)] *)
Definition select_in
    (ps : gmap string product_row) (productIds : list string)
  : list (string * product_row) :=
  filter (fun p => p.1 ∈ productIds) (map_to_list ps).

(** The body of [items.map(item => ...)] once [products.find] has answered:
    the truthiness guard on [product], [item.coverage], [product.length_mm]
    and [product.width_mm], then [calculateTileQuantity]. *)
Definition resolve (product : option product_row) (item : Item) : Item :=
  match product with
  | Some product =>
      match coverage item, length_mm product, width_mm product with
      | Some c, Some l, Some w =>
          if JS.truthy c && JS.truthy l && JS.truthy w
          then with_quantity item
                 (calculateTileQuantity l w c (JS.of_Z <$> box_moq product))
          else item
      | _, _, _ => item
      end
  | None => item
  end.

(** [products.find(p => p.id === item.product_id)] on the fetched rows. *)
Definition adjust
    (fetched : list (string * product_row)) (item : Item) : Item :=
  resolve
    (snd <$> List.find (fun p => String.eqb p.1 (product_id item)) fetched)
    item.

Definition adjustedItems
    (ps : gmap string product_row) (its : list Item) : list Item :=
  let productIds := map product_id its in
  let fetched := select_in ps productIds in
  map (adjust fetched) its.

Definition new_order
    (userId : string) (its : list Item) (total : float) (addr : Address)
  : order_row :=
  {| user_id := userId; items := its; total_amount := total;
     shipping_address := addr;
     status := st_pending; payment_status := pay_pending |}.

(** [.update({ status: 'cancelled', payment_status: 'cancelled' })] *)
Definition cancel (o : order_row) : order_row :=
  {| user_id := user_id o; items := items o;
     total_amount := total_amount o;
     shipping_address := shipping_address o;
     status := st_cancelled; payment_status := pay_cancelled |}.

(** The effect of the [for (const item of adjustedItems)] loop on the
    [products] table: the table after the calls made, and the first
    [stockError] if there was one. *)
Fixpoint stock_loop
    (ps : gmap string product_row) (its : list Item)
  : gmap string product_row * option string :=
  match its with
  | [] => (ps, None)
  | item :: rest =>
      match rpc_update_product_stock ps item with
      | SqlOk ps' => stock_loop ps' rest
      | SqlError e => (ps, Some e)
      end
  end.

(** *** The store as the handler sees it

    A step of the handler may change the tables and either returns a value
    or throws an error message; what it changed before throwing stays, for
    nothing in the handler rolls back. *)
Definition Store (A : Type) : Type := DB -> DB * (string + A).

#[global] Instance Store_ret : MRet Store := fun A a db => (db, inr a).

#[global] Instance Store_bind : MBind Store := fun A B k m db =>
  match m db with
  | (db', inr a) => k a db'
  | (db', inl e) => (db', inl e)
  end.

(** [throw new Error(message)] *)
Definition throw {A} (message : string) : Store A :=
  fun db => (db, inl message).

Definition set_products (db : DB) (ps : gmap string product_row) : DB :=
  {| products := ps; orders := orders db;
     admin_notifications := admin_notifications db |}.

Definition set_orders (db : DB) (os : list order_row) : DB :=
  {| products := products db; orders := os;
     admin_notifications := admin_notifications db |}.

(** [supabase.from('products').select(...).in('id', productIds)] *)
Definition select_products
    (productIds : list string) : Store (list (string * product_row)) :=
  fun db => (db, inr (select_in (products db) productIds)).

(** [supabase.from('orders').insert([...]).select().single()] followed by
    [if (orderError) throw orderError]: the columns are [NOT NULL]. The
    position of the new row stands for its generated id. *)
Definition insert_order
    (userId : string) (its : list Item)
    (total : option float) (addr : option Address)
  : Store (nat * order_row) :=
  fun db =>
    match total, addr with
    | Some total, Some addr =>
        let order := new_order userId its total addr in
        (set_orders db (orders db ++ [order]),
         inr (length (orders db), order))
    | _, _ => (db, inl "null value violates not-null constraint")
    end.

(** [const { error: stockError } = await supabase.rpc(...)]: the call
    answers with its error, it does not throw. *)
Definition rpc_stock (item : Item) : Store (option string) :=
  fun db =>
    match rpc_update_product_stock (products db) item with
    | SqlOk ps' => (set_products db ps', inr None)
    | SqlError e => (db, inr (Some e))
    end.

(** [supabase.from('orders').update({...}).eq('id', order.id)] *)
Definition cancel_order (order_id : nat) : Store unit :=
  fun db => (set_orders db (alter cancel order_id (orders db)), inr tt).

(** [supabase.from('admin_notifications').insert([...])] *)
Definition notify_admin (userId : string) (order_id : nat) : Store unit :=
  fun db =>
    ({| products := products db; orders := orders db;
        admin_notifications :=
          admin_notifications db ++
          [ {| n_type := "new_order"; n_user_id := userId;
               n_order := order_id; n_status := "unread" |} ] |},
     inr tt).

(** [for (const item of items) { ... }] *)
Fixpoint for_each (its : list Item) (body : Item -> Store unit) : Store unit :=
  match its with
  | [] => mret tt
  | item :: rest => body item ;; for_each rest body
  end.

(** The body of the stock loop: on a [stockError] the order is cancelled
    and the handler throws. *)
Definition decrement_or_cancel (order_id : nat) (item : Item) : Store unit :=
  stockError ← rpc_stock item;
  match stockError with
  | Some _ =>
      cancel_order order_id ;;
      throw "Failed to update product stock"
  | None => mret tt
  end.

(** The body of the [try] block. *)
Definition create_order (userId : string) (body : Body) : Store Response :=
  match validateOrder body with
  | (_ :: _) as errors => mret (BadRequest errors)
  | [] =>
      let items := b_items body in
      let productIds := map product_id items in
      fetched ← select_products productIds;
      let adjusted := map (adjust fetched) items in
      '(order_id, order) ←
        insert_order userId adjusted (totalAmount body) (shippingAddress body);
      for_each adjusted (decrement_or_cancel order_id) ;;
      notify_admin userId order_id ;;
      mret (Created order_id order adjusted)
  end.

(** The handler: the [try] block, and [catch (error)] answering 500 with
    [details: error.message] and [retry: true]. *)
Definition post_order (db : DB) (userId : string) (body : Body)
  : DB * Response :=
  match create_order userId body db with
  | (db', inr response) => (db', response)
  | (db', inl message) => (db', ServerError message true)
  end.

(** ** Notions the properties are stated with *)

(** No product of the table has a negative stock. *)
Definition stocks_nonneg (ps : gmap string product_row) : Prop :=
  forall pid row s, ps !! pid = Some row -> stock row = Some s -> 0 <= s.

(** The same as a check that runs on a given table. *)
Definition stock_nonneg_row (row : product_row) : bool :=
  match stock row with
  | Some s => 0 <=? s
  | None => true
  end.

Definition stocks_nonneg_b (ps : gmap string product_row) : bool :=
  forallb (fun p => stock_nonneg_row p.2) (map_to_list ps).

(** [deducts ps its ps']: going through the lines [its] in order, each
    line's product exists with a stock that covers the integer the line's
    [quantity] denotes, and exactly that integer is taken off the stock;
    [ps'] is the table at the end. *)
Inductive deducts :
    gmap string product_row -> list Item -> gmap string product_row -> Prop :=
| deducts_nil ps : deducts ps [] ps
| deducts_cons ps it its row s q z ps' :
    ps !! product_id it = Some row ->
    stock row = Some s ->
    quantity it = Some q ->
    JS.integer_value q = Some z ->
    z <= s ->
    deducts (<[product_id it := set_stock row (s - z)]> ps) its ps' ->
    deducts ps (it :: its) ps'.

(** [z] is the smallest multiple of [m] that is at least [p]. *)
Definition smallest_multiple_ge (m p z : Z) : Prop :=
  (m | z) /\ p <= z /\ forall z', (m | z') -> p <= z' -> z <= z'.

(** A response that reports an error to the caller. *)
Definition is_error (r : Response) : bool :=
  match r with Created _ _ _ => false | _ => true end.

(** A row as the catalog would store a tile. *)
Definition tile (l w : float) (moq stk : Z) : product_row :=
  {| length_mm := Some l; width_mm := Some w;
     box_moq := Some moq; stock := Some stk |}.

(** [x] reads as an absent or zero value. *)
Definition absent_or_zero (v : option float) : bool :=
  match v with
  | Some x => PrimFloat.eqb x 0%float
  | None => true
  end.

(** [x] reads as an absent or non-positive value. *)
Definition absent_or_nonpositive (v : option float) : bool :=
  match v with
  | Some x => PrimFloat.leb x 0%float
  | None => true
  end.

(** The sign of a binary64 value is not negative ([NaN] has none). *)
Definition SF_nonneg (x : spec_float) : bool :=
  match x with
  | S754_zero s | S754_infinity s | S754_finite s _ _ => negb s
  | S754_nan => true
  end.

(** The canonical binary64 form of a positive integer [p] below [2^53]:
    a 53-bit mantissa [norm_m p] and the exponent [norm_e p], with
    [norm_m p * 2 ^ norm_e p = p]. *)
Definition norm_e (p : Z) : Z := Z.log2 p - 52.
Definition norm_m (p : Z) : positive := Z.to_pos (p * 2 ^ (52 - Z.log2 p)).

(** ** Scenario data *)

Definition pidA : string := "11111111-1111-4111-8111-111111111111".
Definition pidB : string := "22222222-2222-4222-8222-222222222222".

Definition someAddress : Address :=
  {| street := Some "123 Main St"; city := Some "Mumbai";
     state := Some "Maharashtra"; zipCode := Some "400001" |}.

Definition line (pid : string) (q : float) (c : option float) : Item :=
  {| product_id := pid; quantity := Some q; coverage := c |}.

Definition cart (its : list Item) : Body :=
  {| b_items := its; totalAmount := Some 1499.95%float;
     shippingAddress := Some someAddress |}.

Definition store (ps : gmap string product_row) : DB :=
  {| products := ps; orders := []; admin_notifications := [] |}.

(** Two tiles of 300 mm x 300 mm: ten of the first in stock, none of the
    second. *)
Definition twoTiles : gmap string product_row :=
  <[pidA := tile 300 300 1 10]> (<[pidB := tile 300 300 1 0]> ∅).

(** A tile of 300 mm x 300 mm sold in boxes of ten. *)
Definition boxedTiles : gmap string product_row :=
  <[pidA := tile 300 300 10 500]> ∅.

(** The scenario of the specification: a cart of two lines whose second
    product is out of stock. *)
Definition twoLineCart : Body :=
  cart [line pidA 5 None; line pidB 1 None].

Definition afterFirstLine : gmap string product_row :=
  <[pidA := set_stock (tile 300 300 1 10) 5]> twoTiles.

Definition coverageCart : Body := cart [line pidA 1 (Some 9%float)].

Definition coverageOnlyLine : Item :=
  {| product_id := pidA; quantity := None; coverage := Some 100%float |}.

(** * The code around the order pipeline

    The definitions below embed the code the order pipeline stands in:
    the access control in front of the routes, the other expressions of
    the order routes (pagination, the caller's order list), the one-time
    passwords, the category statistics and the cart total. *)

(** The integer a line asks of the stock: the one its [quantity] denotes. *)
Definition line_quantity (it : Item) : Z :=
  default 0 (quantity it ≫= JS.integer_value).

(** The total the lines [its] ask of the product [pid]. *)
Definition ordered (pid : string) (its : list Item) : Z :=
  foldr Z.add 0
    (line_quantity <$> filter (fun it => product_id it = pid) its).

(** Every stock of the table is a value of the SQL type [integer]. *)
Definition stocks_in_int4 (ps : gmap string product_row) : Prop :=
  forall pid row s,
    ps !! pid = Some row -> stock row = Some s -> in_int4 s = true.

(** The same as a check that runs on a given table. *)
Definition stocks_in_int4_b (ps : gmap string product_row) : bool :=
  forallb (fun p => match stock p.2 with Some s => in_int4 s | None => true end)
    (map_to_list ps).

(** ** Role-based access control ([src/middleware/rbac.js])

    [ROLE_PERMISSIONS] is read at the keys of the literal: the routes pass
    literal resources and actions, and the user type is the [user_type]
    column of the caller's profile. *)

Definition ROLE_PERMISSIONS : gmap string (gmap string (list string)) :=
  list_to_map [
    ("builder", list_to_map [
       ("products", ["read"]);
       ("orders", ["create"; "read"]);
       ("cart", ["create"; "read"; "update"; "delete"]) ]);
    ("architect", list_to_map [
       ("products", ["read"]);
       ("orders", ["create"; "read"]);
       ("cart", ["create"; "read"; "update"; "delete"]) ]);
    ("dealer", list_to_map [
       ("products", ["read"]);
       ("orders", ["create"; "read"; "update"]);
       ("cart", ["create"; "read"; "update"; "delete"]) ]);
    ("salesperson", list_to_map [
       ("products", ["read"]);
       ("orders", ["read"]);
       ("cart", ["read"]) ]);
    ("admin", list_to_map [
       ("products", ["create"; "read"; "update"; "delete"]);
       ("orders", ["create"; "read"; "update"; "delete"]);
       ("cart", ["create"; "read"; "update"; "delete"]);
       ("users", ["create"; "read"; "update"; "delete"]) ])
  ].

(** What the lookup of a key gives in the map of a literal: the value of
    the first pair with that key. *)
Fixpoint assoc {A} (l : list (string * A)) (r : string) : option A :=
  match l with
  | [] => None
  | (k, v) :: l => if decide (r = k) then Some v else assoc l r
  end.

Definition hasPermission (userType resource action : string) : bool :=
  match ROLE_PERMISSIONS !! userType with
  | None => false
  | Some rolePermissions =>
      match rolePermissions !! resource with
      | None => false
      | Some resourcePermissions => bool_decide (action ∈ resourcePermissions)
      end
  end.

(** [CREATE TYPE user_type_enum AS ENUM ('builder', 'architect', 'dealer',
    'salesperson')], the type of the column [user_profiles.user_type]. *)
Inductive user_type_enum := builder | architect | dealer | salesperson.

Definition user_type_label (t : user_type_enum) : string :=
  match t with
  | builder => "builder"
  | architect => "architect"
  | dealer => "dealer"
  | salesperson => "salesperson"
  end.

(** A row of [user_profiles]: the columns the middleware reads. *)
Record profile_row := {
  profile_user_id : string;
  user_type : user_type_enum
}.

(** [.single()]: the row when the query selects exactly one row, an error
    otherwise. *)
Definition single {A} (rows : list A) : option A :=
  match rows with
  | [row] => Some row
  | _ => None
  end.

(** What the middleware does with the request: it calls [next()], having
    set [req.userType], or it answers 403 with the given details. *)
Inductive Gate :=
| Next (userType : string)
| Forbidden (details : string).

(** [checkPermission(resource, action)] for the authenticated user
    [req.user.id]. *)
Definition checkPermission (resource action : string)
    (user_profiles : list profile_row) (userId : string) : Gate :=
  match
    single (filter (fun p => profile_user_id p = userId) user_profiles)
  with
  | None => Forbidden "User profile not found"
  | Some user =>
      let userType := user_type_label (user_type user) in
      if hasPermission userType resource action
      then Next userType
      else Forbidden
             ("Insufficient permissions for " +:+ action +:+ " on " +:+ resource)
  end.

(** The route [POST /]: [checkPermission('orders', 'create')] stands before
    the validation chains and the handler. *)
Inductive RouteResponse :=
| Denied (details : string)
| Handled (response : Response).

Definition post_orders_route
    (user_profiles : list profile_row) (db : DB) (userId : string) (body : Body)
  : DB * RouteResponse :=
  match checkPermission "orders" "create" user_profiles userId with
  | Forbidden details => (db, Denied details)
  | Next _ =>
      let result := post_order db userId body in
      (result.1, Handled result.2)
  end.

(** ** Decimal numerals

    What [Number.prototype.toString] prints for a non-negative integer
    below [10^21], and the integer a string of decimal digits denotes. *)

Definition digit_char (d : Z) : ascii := ascii_of_nat (48 + Z.to_nat d).

Definition digit_value (c : ascii) : option Z :=
  let n := Z.of_nat (nat_of_ascii c) in
  if (48 <=? n) && (n <=? 57) then Some (n - 48) else None.

Fixpoint decimal_digits (fuel : nat) (z : Z) (rest : list ascii) : list ascii :=
  match fuel with
  | O => rest
  | S fuel =>
      let rest := digit_char (z mod 10) :: rest in
      if z <? 10 then rest else decimal_digits fuel (z / 10) rest
  end.

Definition decimal (z : Z) : string :=
  string_of_list_ascii (decimal_digits 21 z []).

Fixpoint digits_value (acc : Z) (cs : list ascii) : option Z :=
  match cs with
  | [] => Some acc
  | c :: cs => d ← digit_value c; digits_value (10 * acc + d) cs
  end.

(** ** One-time passwords ([generateOTP], orders.js lines 356-359)

    [crypto.randomInt(min, max)] draws an integer [n] with
    [min <= n < max]; [generateOTP] prints the draw. *)

Definition randomInt (min max : Z) (n : Z) : Prop := min <= n < max.

Definition generateOTP (draw : Z) : string := decimal draw.

(** ** Pagination of the list routes

    [GET /my-orders] and [GET /admin/orders] (orders.js), [GET /] of the
    products and [GET /:id] of the categories compute the row window of a
    page from [req.query] with the same expressions. A query parameter is
    a string when the URL gives it and [undefined], replaced by the
    default number, when it does not.

    The coercions of the operators are the language's. They are given
    here for the values these expressions meet: a string of decimal digits
    (the empty string included) read as a number, and a non-negative
    integer below [2^53] printed as a string; [None] stands for a value
    this model does not interpret. *)

Inductive value :=
| Num (x : float)
| Str (s : string).

Definition ToNumber (v : value) : option float :=
  match v with
  | Num x => Some x
  | Str s =>
      z ← digits_value 0 (list_ascii_of_string s);
      if z <? 2 ^ 53 then Some (JS.of_Z z) else None
  end.

Definition ToString (v : value) : option string :=
  match v with
  | Str s => Some s
  | Num x =>
      z ← JS.integer_value x;
      if (0 <=? z) && (z <? 2 ^ 53) then Some (decimal z) else None
  end.

(** [parseInt(v)] in radix 10; the empty string has no digits and gives
    [NaN]. *)
Definition parseInt (v : value) : option float :=
  s ← ToString v;
  match list_ascii_of_string s with
  | [] => Some nan
  | cs => z ← digits_value 0 cs;
          if z <? 2 ^ 53 then Some (JS.of_Z z) else None
  end.

(** [a - b], [a * b] and [a / b] convert both operands to numbers. *)
Definition js_sub (a b : value) : option float :=
  x ← ToNumber a; y ← ToNumber b; Some (x - y)%float.

Definition js_mul (a b : value) : option float :=
  x ← ToNumber a; y ← ToNumber b; Some (x * y)%float.

Definition js_div (a b : value) : option float :=
  x ← ToNumber a; y ← ToNumber b; Some (x / y)%float.

(** [a + b] adds two numbers and concatenates as soon as one operand is a
    string. *)
Definition js_add (a b : value) : option value :=
  match a, b with
  | Num x, Num y => Some (Num (x + y)%float)
  | _, _ => s ← ToString a; t ← ToString b; Some (Str (s +:+ t))
  end.

(** [const { page = 1, limit = 20 } = req.query] *)
Definition page_of (query_page : option string) : value :=
  match query_page with Some s => Str s | None => Num 1 end.

Definition limit_of (query_limit : option string) : value :=
  match query_limit with Some s => Str s | None => Num 20 end.

(** [const from = (page - 1) * limit; const to = from + limit - 1;], the
    arguments of [.range(from, to)]. *)
Definition range_bounds (page limit : value) : option (float * float) :=
  pageIndex ← js_sub page (Num 1);
  from ← js_mul (Num pageIndex) limit;
  sum ← js_add (Num from) limit;
  to ← js_sub sum (Num 1);
  Some (from, to).

(** The page fields of the response: [parseInt(page)], [parseInt(limit)]
    and [Math.ceil(count / limit)]. *)
Record PageInfo := {
  info_page : float;
  info_limit : float;
  total_pages : float
}.

Definition page_info (page limit : value) (count : float) : option PageInfo :=
  p ← parseInt page;
  l ← parseInt limit;
  quotient ← js_div (Num count) limit;
  Some {| info_page := p; info_limit := l;
          total_pages := JS.Math_ceil quotient |}.

(** The integer a value denotes: a number that is an integer, or a
    string of decimal digits. *)
Definition denotes (v : value) (n : Z) : Prop :=
  match v with
  | Num x => JS.integer_value x = Some n
  | Str s => digits_value 0 (list_ascii_of_string s) = Some n
  end.

(** ** Category statistics (the category routes, catalog.js lines 456-477
    and 510-535)

    [GET /:id] and [GET /:id/stats] fold the products of a category into
    statistics, the first with [reduce], [Math.min] and [Math.max], the
    second with [forEach] and comparisons. *)

(** A product as the two queries select it: [price] is [NOT NULL],
    [stock] and [is_featured] may be [null]. *)
Record stat_row := {
  p_price : float;
  p_stock : option float;
  p_is_featured : option bool
}.

Definition is_zero_of_sign (s : bool) (x : float) : bool :=
  match Prim2SF x with
  | S754_zero s' => Bool.eqb s s'
  | _ => false
  end.

(** [Math.min(a, b)]: [NaN] if either is, else the lower, [-0] counting as
    lower than [+0]. *)
Definition Math_min (a b : float) : float :=
  if JS.isNaN a || JS.isNaN b then nan
  else if PrimFloat.ltb b a || (is_zero_of_sign true b && is_zero_of_sign false a)
       then b else a.

(** [Math.max(a, b)]: [NaN] if either is, else the higher, [+0] counting
    as higher than [-0]. *)
Definition Math_max (a b : float) : float :=
  if JS.isNaN a || JS.isNaN b then nan
  else if PrimFloat.ltb a b || (is_zero_of_sign false b && is_zero_of_sign true a)
       then b else a.

(** [acc += v] for a number or [null]: [null] converts to [+0]. *)
Definition plus_nullable (acc : float) (v : option float) : float :=
  (acc + default 0%float v)%float.

(** [GET /:id]: the [reduce] and the two resets after it. *)
Module CategoryDetail.

Record stats := {
  total_products : float;
  total_stock : float;
  min_price : float;
  max_price : float;
  avg_price : float
}.

Definition initial : stats :=
  {| total_products := 0; total_stock := 0;
     min_price := infinity; max_price := neg_infinity; avg_price := 0 |}.

Definition step (acc : stats) (product : stat_row) : stats :=
  {| total_products := (total_products acc + 1)%float;
     total_stock := plus_nullable (total_stock acc) (p_stock product);
     min_price := Math_min (min_price acc) (p_price product);
     max_price := Math_max (max_price acc) (p_price product);
     avg_price := (avg_price acc + p_price product)%float |}.

Definition categoryStats (products : list stat_row) : stats :=
  let acc := fold_left step products initial in
  {| total_products := total_products acc;
     total_stock := total_stock acc;
     min_price :=
       if PrimFloat.eqb (min_price acc) infinity then 0%float
       else min_price acc;
     max_price :=
       if PrimFloat.eqb (max_price acc) neg_infinity then 0%float
       else max_price acc;
     avg_price :=
       if JS.gt (total_products acc) 0%float
       then (avg_price acc / total_products acc)%float
       else avg_price acc |}.

End CategoryDetail.

(** [GET /:id/stats]: the [forEach] and the two resets after it. *)
Module CategoryStats.

Record stats := {
  total_products : float;
  total_stock : float;
  out_of_stock : float;
  featured_products : float;
  min_price : float;
  max_price : float;
  avg_price : float
}.

(** [products.length] *)
Definition initial (products : list stat_row) : stats :=
  {| total_products := JS.of_Z (Z.of_nat (length products));
     total_stock := 0; out_of_stock := 0; featured_products := 0;
     min_price := infinity; max_price := neg_infinity; avg_price := 0 |}.

Definition step (acc : stats) (product : stat_row) : stats :=
  {| total_products := total_products acc;
     total_stock := plus_nullable (total_stock acc) (p_stock product);
     out_of_stock :=
       match p_stock product with
       | Some s =>
           if PrimFloat.eqb s 0%float then (out_of_stock acc + 1)%float
           else out_of_stock acc
       | None => out_of_stock acc
       end;
     featured_products :=
       match p_is_featured product with
       | Some true => (featured_products acc + 1)%float
       | _ => featured_products acc
       end;
     min_price :=
       if PrimFloat.ltb (p_price product) (min_price acc)
       then p_price product else min_price acc;
     max_price :=
       if PrimFloat.ltb (max_price acc) (p_price product)
       then p_price product else max_price acc;
     avg_price := (avg_price acc + p_price product)%float |}.

Definition category_stats (products : list stat_row) : stats :=
  let acc := fold_left step products (initial products) in
  {| total_products := total_products acc;
     total_stock := total_stock acc;
     out_of_stock := out_of_stock acc;
     featured_products := featured_products acc;
     min_price :=
       if PrimFloat.eqb (min_price acc) infinity then 0%float
       else min_price acc;
     max_price :=
       if PrimFloat.eqb (max_price acc) neg_infinity then 0%float
       else max_price acc;
     avg_price :=
       if JS.gt (total_products acc) 0%float
       then (avg_price acc / total_products acc)%float
       else avg_price acc |}.

End CategoryStats.

(** A number that is neither [NaN] nor an infinity. *)
Definition is_finite (x : float) : bool :=
  PrimFloat.ltb neg_infinity x && PrimFloat.ltb x infinity.

(** ** Cart totals ([calculate_cart_total], migration "Add Orders and Cart
    Management")

    [price] is [numeric(10,2)] and [quantity] an [integer]: the products
    and their sum are exact, and amounts are counted here in hundredths. *)

(** A row of [cart_items]: [user_id] and [product_id] are nullable
    references, [quantity] is [NOT NULL]. *)
Record cart_item := {
  ci_user_id : option string;
  ci_product_id : option string;
  ci_quantity : Z
}.

(** The row's term [p.price * ci.quantity] when the row is in
    [cart_items ci JOIN products p ON p.id = ci.product_id
     WHERE ci.user_id = p_user_id]; a [NULL] compares equal to nothing. *)
Definition joined_amount
    (price : gmap string Z) (p_user_id : string) (ci : cart_item) : option Z :=
  if decide (ci_user_id ci = Some p_user_id) then
    product_id ← ci_product_id ci;
    p ← price !! product_id;
    Some (p * ci_quantity ci)
  else None.

(** [SUM] is [NULL] over no row. *)
Definition SUM (terms : list Z) : option Z :=
  match terms with
  | [] => None
  | _ :: _ => Some (foldr Z.add 0 terms)
  end.

(** [SELECT COALESCE(SUM(p.price * ci.quantity), 0) INTO total ...;
    RETURN total] *)
Definition calculate_cart_total
    (price : gmap string Z) (cart_items : list cart_item) (p_user_id : string)
  : Z :=
  default 0 (SUM (omap (joined_amount price p_user_id) cart_items)).

(** ** The caller's orders ([GET /my-orders], orders.js lines 137-169)

    Rows are created in the order of their positions, so
    [.order('created_at', { ascending: false })] lists them from the last
    position to the first. *)

(** [.range(from, to)] on the rows selected: the rows at the positions
    [from] to [to]. A window that starts after the last row of a
    non-empty selection is left to the store ([None]). *)
Definition select_range {A} (rows : list A) (from to : Z) : option (list A) :=
  if (from <? 0) || (to <? from) then None
  else if (from =? 0) || (from <? Z.of_nat (length rows))
       then Some (take (Z.to_nat (to - from + 1)) (drop (Z.to_nat from) rows))
       else None.

Record OrderList := {
  data : list (nat * order_row);
  page_fields : PageInfo;
  total : Z
}.

Definition my_orders
    (db : DB) (userId : string) (query_page query_limit : option string)
  : option OrderList :=
  let page := page_of query_page in
  let limit := limit_of query_limit in
  bounds ← range_bounds page limit;
  from ← JS.integer_value bounds.1;
  to ← JS.integer_value bounds.2;
  let rows :=
    reverse (filter (fun row => user_id row.2 = userId)
               (imap pair (orders db))) in
  let count := Z.of_nat (length rows) in
  data ← select_range rows from to;
  page_fields ← page_info page limit (JS.of_Z count);
  Some {| data := data; page_fields := page_fields; total := count |}.



(** ** The model on sample values *)

Example Math_ceil_samples :
  JS.Math_ceil 103.2247%float = 104%float /\
  JS.Math_ceil (-103.2247)%float = (-103)%float /\
  JS.Math_ceil 0.5%float = 1%float /\
  Prim2SF (JS.Math_ceil (-0.5)%float) = S754_zero true /\
  JS.Math_ceil 7%float = 7%float /\
  JS.Math_ceil infinity = infinity /\
  Prim2SF (JS.Math_ceil nan) = S754_nan.
Proof. repeat split; vm_compute; reflexivity. Qed.

Example truthy_samples :
  JS.truthy 0%float = false /\ JS.truthy (-0)%float = false /\
  JS.truthy nan = false /\ JS.truthy (-300)%float = true /\
  JS.truthy 0x1p-1074%float = true.
Proof. repeat split; vm_compute; reflexivity. Qed.

Example validator_samples :
  Validator.isUUID pidA = true /\
  Validator.isUUID "uuid-string" = false /\
  Validator.isInt_min1 (Some 5%float) = true /\
  Validator.isInt_min1 (Some 5.5%float) = false /\
  Validator.isInt_min1 (Some 0%float) = false /\
  Validator.isInt_min1 (Some 1e21%float) = false /\
  Validator.isInt_min1 None = false /\
  Validator.optional Validator.isFloat_min0 None = true /\
  Validator.isFloat_min0 (-1)%float = false /\
  Validator.isFloat_min0 0x1p-1074%float = true /\
  Validator.isFloat_min0 infinity = false.
Proof. repeat split; vm_compute; reflexivity. Qed.

(** The arithmetic is binary64 throughout: the quotient of 96.876 by the
    area of a 300 x 300 tile is just above 100, so 101 pieces are
    resolved. *)
Example calculateTileQuantity_samples :
  tileArea 300 300 = 0.96876%float /\
  calculateTileQuantity 300 300 100 None = 104%float /\
  calculateTileQuantity 300 300 100 (Some 1%float) = 104%float /\
  calculateTileQuantity 300 300 100 (Some 10%float) = 110%float /\
  calculateTileQuantity 300 300 96.876 (Some 1%float) = 101%float /\
  calculateTileQuantity 600 600 100 (Some 4%float) = 28%float.
Proof. repeat split; vm_compute; reflexivity. Qed.

(** ** Lookups of the fetched products *)

Section Fetch.

Implicit Types (l : list (string * product_row)) (k : string).

Lemma find_by_key l k v :
  NoDup l.*1 -> (k, v) ∈ l ->
  List.find (fun p => String.eqb p.1 k) l = Some (k, v).
Proof.
  induction l as [|[k' v'] l IH]; intros Hnd Hin.
  - by apply elem_of_nil in Hin.
  - simpl in *. apply NoDup_cons in Hnd as [Hk' Hnd].
    destruct (String.eqb_spec k' k) as [->|Hne].
    + apply elem_of_cons in Hin as [Heq|Hin]; [congruence|].
      exfalso. apply Hk'. apply list_elem_of_fmap. by exists (k, v).
    + apply elem_of_cons in Hin as [Heq|Hin]; [congruence|]. by apply IH.
Qed.

Lemma find_by_key_None l k :
  k ∉ l.*1 -> List.find (fun p => String.eqb p.1 k) l = None.
Proof.
  induction l as [|[k' v'] l IH]; intros Hnin; [done|].
  simpl in *. apply not_elem_of_cons in Hnin as [Hne Hnin].
  destruct (String.eqb_spec k' k) as [->|_]; [done|]. by apply IH.
Qed.

Lemma elem_of_select_in ps ids k v :
  (k, v) ∈ select_in ps ids <-> k ∈ ids /\ ps !! k = Some v.
Proof.
  unfold select_in. rewrite list_elem_of_filter, elem_of_map_to_list. done.
Qed.

Lemma NoDup_select_in ps ids : NoDup (select_in ps ids).*1.
Proof.
  unfold select_in.
  apply (sublist_NoDup _ (map_to_list ps).*1).
  - apply NoDup_fst_map_to_list.
  - apply fmap_sublist, sublist_filter.
Qed.

(** The primary key makes [find] on the fetched rows a lookup. *)
Lemma find_select_in ps ids k :
  k ∈ ids ->
  snd <$> List.find (fun p => String.eqb p.1 k) (select_in ps ids) = ps !! k.
Proof.
  intros Hk. destruct (ps !! k) as [v|] eqn:Hv.
  - rewrite (find_by_key _ k v); [done|apply NoDup_select_in|].
    by apply elem_of_select_in.
  - rewrite find_by_key_None; [done|].
    intros Hin. apply list_elem_of_fmap in Hin as [[k' v] [-> Hin]].
    apply elem_of_select_in in Hin as [_ Hin]. simpl in *. congruence.
Qed.

Lemma adjustedItems_lookup ps its :
  adjustedItems ps its = map (fun it => resolve (ps !! product_id it) it) its.
Proof.
  unfold adjustedItems. apply map_ext_in. intros it Hin.
  unfold adjust. rewrite find_select_in; [done|].
  apply list_elem_of_In, in_map, Hin.
Qed.

Lemma adjustedItems_at ps its i it :
  its !! i = Some it ->
  adjustedItems ps its !! i = Some (resolve (ps !! product_id it) it).
Proof.
  intros Hi. rewrite adjustedItems_lookup.
  change (map ?f its) with (f <$> its).
  by rewrite list_lookup_fmap, Hi.
Qed.

End Fetch.

(** ** The stock decrement *)

Section Stock.

Implicit Types (ps : gmap string product_row) (its : list Item).

Lemma update_product_stock_ok ps pid q ps' :
  update_product_stock ps pid q = SqlOk ps' ->
  exists row s,
    ps !! pid = Some row /\ stock row = Some s /\ q <= s /\
    in_int4 (s - q) = true /\
    ps' = <[pid := set_stock row (s - q)]> ps.
Proof.
  unfold update_product_stock. intros H.
  destruct (ps !! pid) as [row|]; [|discriminate].
  destruct (stock row) as [s|] eqn:Hs; [|discriminate].
  destruct (Z.leb_spec q s); [|discriminate].
  destruct (in_int4 (s - q)) eqn:Hr; [|discriminate].
  injection H as <-. by exists row, s.
Qed.

Lemma stocks_nonneg_b_correct ps :
  stocks_nonneg_b ps = true -> stocks_nonneg ps.
Proof.
  unfold stocks_nonneg_b, stocks_nonneg. rewrite forallb_forall.
  intros Hall pid row s Hrow Hs.
  specialize (Hall (pid, row)). unfold stock_nonneg_row in Hall.
  simpl in Hall. rewrite Hs in Hall. apply Z.leb_le, Hall.
  apply list_elem_of_In. by apply elem_of_map_to_list.
Qed.

(** One call keeps every stock non-negative, whatever the quantity. *)
Lemma decrement_step_nonneg ps op :
  stocks_nonneg ps -> stocks_nonneg (decrement_step ps op).
Proof.
  intros Hps. unfold decrement_step.
  destruct (update_product_stock ps op.1 op.2) as [ps'|e] eqn:Hup; [|done].
  apply update_product_stock_ok in Hup
    as (row & s & Hrow & Hs & Hq & _ & ->).
  intros pid row' s' Hrow' Hs'.
  destruct (decide (pid = op.1)) as [->|Hne].
  - rewrite lookup_insert_eq in Hrow'. injection Hrow' as <-.
    simpl in Hs'. injection Hs' as <-. lia.
  - rewrite lookup_insert_ne in Hrow' by done. by eapply Hps.
Qed.

Lemma decrements_nonneg ops ps :
  stocks_nonneg ps -> stocks_nonneg (decrements ps ops).
Proof.
  unfold decrements. revert ps.
  induction ops as [|op ops IH]; intros ps Hps; simpl; [done|].
  by apply IH, decrement_step_nonneg.
Qed.

Lemma stock_loop_app its1 its2 ps ps1 :
  stock_loop ps its1 = (ps1, None) ->
  stock_loop ps (its1 ++ its2) = stock_loop ps1 its2.
Proof.
  revert ps. induction its1 as [|it its1 IH]; intros ps H; simpl in *.
  - by injection H as ->.
  - destruct (rpc_update_product_stock ps it); [by apply IH|discriminate].
Qed.

Lemma stock_loop_fails_at its1 it its2 ps ps1 e :
  stock_loop ps its1 = (ps1, None) ->
  rpc_update_product_stock ps1 it = SqlError e ->
  stock_loop ps (its1 ++ it :: its2) = (ps1, Some e).
Proof.
  intros H1 H2. rewrite (stock_loop_app _ _ _ _ H1). simpl. by rewrite H2.
Qed.

(** A loop that went through took each line's quantity off the stock. *)
Lemma stock_loop_deducts its ps ps' :
  stock_loop ps its = (ps', None) -> deducts ps its ps'.
Proof.
  revert ps. induction its as [|it its IH]; intros ps H; simpl in H.
  - injection H as ->. constructor.
  - destruct (rpc_update_product_stock ps it) as [ps1|e] eqn:Hrpc;
      [|discriminate].
    unfold rpc_update_product_stock, rpc_quantity in Hrpc.
    destruct (quantity it) as [q|] eqn:Hq; [|discriminate].
    destruct (JS.integer_value q) as [z|] eqn:Hz; [|discriminate].
    destruct (in_int4 z); [|discriminate].
    apply update_product_stock_ok in Hrpc
      as (row & s & Hrow & Hs & Hle & _ & ->).
    econstructor; eauto.
Qed.

End Stock.

(** ** What a passed validation guarantees *)

Lemma check_nil field ok : Validator.check field ok = [] -> ok = true.
Proof. by destruct ok. Qed.

Lemma concat_checks_nil (f : Item -> bool) field its :
  concat (map (fun it => Validator.check field (f it)) its) = [] ->
  forall it, it ∈ its -> f it = true.
Proof.
  induction its as [|it0 its IH]; simpl; intros H it Hin.
  - by apply elem_of_nil in Hin.
  - apply app_eq_nil in H as [H0 H]. apply check_nil in H0.
    apply elem_of_cons in Hin as [->|Hin]; [done|by apply IH].
Qed.

Lemma validateOrder_ok body :
  validateOrder body = [] ->
  b_items body <> [] /\
  (forall it, it ∈ b_items body ->
     Validator.isUUID (product_id it) = true /\
     Validator.isInt_min1 (quantity it) = true /\
     Validator.optional Validator.isFloat_min0 (coverage it) = true) /\
  (exists total, totalAmount body = Some total) /\
  (exists addr, shippingAddress body = Some addr).
Proof.
  unfold validateOrder. intros H.
  repeat (apply app_eq_nil in H as [?H H]).
  repeat match goal with
         | Hc : Validator.check _ _ = [] |- _ => apply check_nil in Hc
         end.
  split; [|split; [|split]].
  - destruct (b_items body); congruence.
  - intros it Hin. split; [|split].
    + eapply (concat_checks_nil (fun it => Validator.isUUID (product_id it)));
        eassumption.
    + eapply (concat_checks_nil (fun it => Validator.isInt_min1 (quantity it)));
        eassumption.
    + eapply (concat_checks_nil
                (fun it => Validator.optional Validator.isFloat_min0 (coverage it)));
        eassumption.
  - destruct (totalAmount body); [eauto|done].
  - destruct (shippingAddress body); [eauto|done].
Qed.

Lemma bind_run {A B} (m : Store A) (k : A -> Store B) db :
  (m ≫= k) db
  = match m db with
    | (db', inr a) => k a db'
    | (db', inl e) => (db', inl e)
    end.
Proof. reflexivity. Qed.

Lemma decrement_or_cancel_run order_id item db :
  decrement_or_cancel order_id item db
  = match rpc_update_product_stock (products db) item with
    | SqlOk ps' => (set_products db ps', inr tt)
    | SqlError _ =>
        (set_orders db (alter cancel order_id (orders db)),
         inl "Failed to update product stock")
    end.
Proof.
  unfold decrement_or_cancel. rewrite bind_run. unfold rpc_stock.
  by destruct (rpc_update_product_stock (products db) item).
Qed.

(** The loop of the handler and its effect on the [products] table. *)
Lemma for_each_stock_loop its order_id db :
  for_each its (decrement_or_cancel order_id) db
  = match stock_loop (products db) its with
    | (ps', Some _) =>
        (set_orders (set_products db ps')
           (alter cancel order_id (orders db)),
         inl "Failed to update product stock")
    | (ps', None) => (set_products db ps', inr tt)
    end.
Proof.
  revert db. induction its as [|item rest IH]; intros db.
  - by destruct db.
  - cbn [for_each stock_loop]. rewrite bind_run, decrement_or_cancel_run.
    destruct (rpc_update_product_stock (products db) item) as [ps'|e].
    + rewrite IH. cbn [products set_products orders].
      by destruct (stock_loop ps' rest) as [ps'' [e|]].
    + by destruct db.
Qed.

(** The handler after a passed validation, as one equation. *)
Lemma post_order_valid db userId body :
  validateOrder body = [] ->
  exists total addr,
    totalAmount body = Some total /\ shippingAddress body = Some addr /\
    let adjusted := adjustedItems (products db) (b_items body) in
    let order := new_order userId adjusted total addr in
    post_order db userId body =
      match stock_loop (products db) adjusted with
      | (ps', Some _) =>
          ({| products := ps';
              orders := alter cancel (length (orders db)) (orders db ++ [order]);
              admin_notifications := admin_notifications db |},
           ServerError "Failed to update product stock" true)
      | (ps', None) =>
          ({| products := ps';
              orders := orders db ++ [order];
              admin_notifications :=
                admin_notifications db ++
                [ {| n_type := "new_order"; n_user_id := userId;
                     n_order := length (orders db); n_status := "unread" |} ] |},
           Created (length (orders db)) order adjusted)
      end.
Proof.
  intros Hv. destruct (validateOrder_ok body Hv) as (_ & _ & [t Ht] & [a Ha]).
  exists t, a. repeat split; [done..|].
  unfold post_order, create_order. rewrite Hv.
  rewrite bind_run. unfold select_products.
  fold (adjustedItems (products db) (b_items body)).
  rewrite bind_run. unfold insert_order. rewrite Ht, Ha.
  rewrite bind_run, for_each_stock_loop. cbn [products set_orders].
  destruct (stock_loop (products db)
              (adjustedItems (products db) (b_items body)))
    as [ps' [e|]]; reflexivity.
Qed.

Lemma lookup_cancelled_order (os : list order_row) o :
  alter cancel (length os) (os ++ [o]) !! length os = Some (cancel o).
Proof.
  rewrite list_lookup_alter_eq, lookup_app_r by lia.
  by rewrite Nat.sub_diag.
Qed.

Lemma check_false_in field : field ∈ Validator.check field false.
Proof. apply list_elem_of_here. Qed.

Lemma quantity_error_reported its it :
  it ∈ its ->
  quantity it = None ->
  "items.*.quantity" ∈
    concat (map (fun it =>
      Validator.check "items.*.quantity" (Validator.isInt_min1 (quantity it))) its).
Proof.
  intros Hin Hq. induction its as [|it0 its IH]; simpl.
  - by apply elem_of_nil in Hin.
  - apply elem_of_app. apply elem_of_cons in Hin as [<-|Hin].
    + left. rewrite Hq. apply check_false_in.
    + right. by apply IH.
Qed.

(** ** Truthiness and comparisons of numbers *)

Section FloatBasics.

Lemma SFeqb_finite_refl s m e :
  SFeqb (S754_finite s m e) (S754_finite s m e) = true.
Proof.
  unfold SFeqb, SFcompare.
  rewrite Z.compare_refl, Pos.compare_cont_refl. by destruct s.
Qed.

(** Only zeros and [NaN] are falsy. *)
Lemma truthy_spec x :
  JS.truthy x =
    match Prim2SF x with
    | S754_zero _ | S754_nan => false
    | _ => true
    end.
Proof.
  unfold JS.truthy, JS.isNaN. rewrite !FloatAxioms.eqb_spec.
  change (Prim2SF 0%float) with (S754_zero false).
  destruct (Prim2SF x) as [s|s| |s m e].
  - by destruct s.
  - by destruct s.
  - reflexivity.
  - rewrite SFeqb_finite_refl. by destruct s.
Qed.

Lemma eqb_zero_falsy x : PrimFloat.eqb x 0%float = true -> JS.truthy x = false.
Proof. unfold JS.truthy. by intros ->. Qed.

Lemma positive_truthy x : PrimFloat.ltb 0%float x = true -> JS.truthy x = true.
Proof.
  rewrite truthy_spec, FloatAxioms.ltb_spec.
  change (Prim2SF 0%float) with (S754_zero false).
  by destruct (Prim2SF x) as [s|s| |s m e].
Qed.

End FloatBasics.

(** ** Lines the guard passes through or resolves *)

Lemma resolve_falsy_coverage product it :
  absent_or_zero (coverage it) = true -> resolve product it = it.
Proof.
  unfold resolve, absent_or_zero. intros H.
  destruct product as [row|]; [|done].
  destruct (coverage it) as [c|]; [|done].
  rewrite (eqb_zero_falsy c H).
  by destruct (length_mm row), (width_mm row).
Qed.

Lemma resolve_falsy_dimension row it :
  absent_or_zero (length_mm row) = true \/ absent_or_zero (width_mm row) = true ->
  resolve (Some row) it = it.
Proof.
  unfold resolve, absent_or_zero. intros H.
  destruct (coverage it) as [c|]; [|done].
  destruct (length_mm row) as [l|]; [|done].
  destruct (width_mm row) as [w|]; [|done].
  destruct H as [H|H]; rewrite (eqb_zero_falsy _ H);
    by rewrite ?andb_false_r.
Qed.

Lemma resolve_computes row it l w c :
  length_mm row = Some l -> width_mm row = Some w -> coverage it = Some c ->
  PrimFloat.ltb 0%float l = true ->
  PrimFloat.ltb 0%float w = true ->
  PrimFloat.ltb 0%float c = true ->
  resolve (Some row) it
  = with_quantity it (calculateTileQuantity l w c (JS.of_Z <$> box_moq row)).
Proof.
  intros Hl Hw Hc Hlpos Hwpos Hcpos. unfold resolve.
  rewrite Hc, Hl, Hw. by rewrite !positive_truthy.
Qed.

(** ** Binary64 arithmetic on integers

    What the kernel's specification of [float] ([Prim2SF] and the
    operations of [SpecFloat]) gives for the integers the pipeline computes
    with: integers below [2^53] are represented exactly, their product is
    exact while it stays below [2^53], and the ceiling of their rounded
    quotient is the ceiling of the exact quotient. *)

Section Binary64.

(** *** Bit lengths *)

Lemma digits2_pos_size m : digits2_pos m = Pos.size m.
Proof. induction m; simpl; congruence. Qed.

Lemma digits2_pos_log2 m : Z.pos (digits2_pos m) = Z.log2 (Z.pos m) + 1.
Proof. rewrite digits2_pos_size. destruct m; simpl; lia. Qed.

Lemma digits_bounds m :
  2 ^ (Z.pos (digits2_pos m) - 1) <= Z.pos m < 2 ^ Z.pos (digits2_pos m).
Proof.
  rewrite digits2_pos_log2.
  replace (Z.log2 (Z.pos m) + 1 - 1) with (Z.log2 (Z.pos m)) by lia.
  apply Z.log2_spec. lia.
Qed.

Lemma digits_unique m d :
  2 ^ (d - 1) <= Z.pos m < 2 ^ d -> Z.pos (digits2_pos m) = d.
Proof.
  intros H. rewrite digits2_pos_log2.
  assert (0 <= d - 1).
  { destruct (Z.le_gt_cases 0 (d - 1)) as [|Hneg]; [done|].
    destruct (Z.eq_dec d 0) as [->|]; [simpl in H; lia|].
    rewrite (Z.pow_neg_r 2 d) in H by lia. lia. }
  rewrite (Z.log2_unique (Z.pos m) (d - 1)); [lia|lia|].
  by replace (Z.succ (d - 1)) with d by lia.
Qed.

(** *** Rounding a value that needs none

    [shr_fexp] shifts a mantissa to 53 bits; a 53-bit mantissa is left
    alone, and a mantissa whose low bits are zero is shifted exactly. *)

Lemma fexp_eq x : fexp prec emax x = Z.max (x - 53) (-1074).
Proof. reflexivity. Qed.

Lemma iter_pos_eq {A} (f : A -> A) k x :
  SpecFloat.iter_pos f k x = Pos.iter f x k.
Proof.
  revert x. induction k as [k IH|k IH|]; intros x; simpl.
  - rewrite !IH. by rewrite <- !Pos.iter_swap.
  - by rewrite !IH.
  - done.
Qed.

Lemma shr_1_double n :
  0 < n ->
  shr_1 {| shr_m := 2 * n; shr_r := false; shr_s := false |}
  = {| shr_m := n; shr_r := false; shr_s := false |}.
Proof. by destruct n. Qed.

Lemma shr_exact k n :
  0 < n ->
  SpecFloat.iter_pos shr_1 k
    {| shr_m := n * 2 ^ Z.pos k; shr_r := false; shr_s := false |}
  = {| shr_m := n; shr_r := false; shr_s := false |}.
Proof.
  intros Hn. rewrite iter_pos_eq.
  induction k as [|k IH] using Pos.peano_ind.
  - simpl. replace (n * 2 ^ 1) with (2 * n) by lia. by apply shr_1_double.
  - rewrite Pos.iter_succ_r.
    replace (n * 2 ^ Z.pos (Pos.succ k)) with (2 * (n * 2 ^ Z.pos k)).
    + rewrite shr_1_double; [done|].
      apply Z.mul_pos_pos; [done|]. by apply Z.pow_pos_nonneg.
    + rewrite Pos2Z.inj_succ, Z.pow_succ_r by lia. lia.
Qed.

Lemma shr_fexp_0 m e l :
  Z.pos (digits2_pos m) = 53 -> -1074 <= e ->
  shr_fexp prec emax (Z.pos m) e l = (shr_record_of_loc (Z.pos m) l, e).
Proof.
  intros Hd He. unfold shr_fexp, Zdigits2. rewrite Hd, fexp_eq.
  replace (Z.max (53 + e - 53) (-1074) - e) with 0 by lia. done.
Qed.

Lemma shr_fexp_k m n k e :
  Z.pos m = Z.pos n * 2 ^ Z.pos k ->
  Z.pos (digits2_pos n) = 53 -> -1074 <= e + Z.pos k ->
  shr_fexp prec emax (Z.pos m) e loc_Exact
  = ({| shr_m := Z.pos n; shr_r := false; shr_s := false |}, e + Z.pos k).
Proof.
  intros Hm Hd He. unfold shr_fexp, Zdigits2.
  assert (Z.pos (digits2_pos m) = 53 + Z.pos k) as ->.
  { apply digits_unique. pose proof (digits_bounds n) as Hb. rewrite Hd in Hb.
    rewrite Hm. replace (53 + Z.pos k - 1) with (52 + Z.pos k) by lia.
    rewrite !Z.pow_add_r by lia. simpl (53 - 1) in Hb.
    assert (0 < 2 ^ Z.pos k) by (by apply Z.pow_pos_nonneg). nia. }
  rewrite fexp_eq.
  replace (Z.max (53 + Z.pos k + e - 53) (-1074) - e) with (Z.pos k) by lia.
  simpl. rewrite Hm, shr_exact by lia. done.
Qed.

Lemma round_aux_exact s m e :
  Z.pos (digits2_pos m) = 53 -> -1074 <= e <= 971 ->
  binary_round_aux prec emax s (Z.pos m) e loc_Exact = S754_finite s m e.
Proof.
  intros Hd He. unfold binary_round_aux.
  rewrite shr_fexp_0 by lia. simpl.
  rewrite shr_fexp_0 by lia. simpl.
  destruct (Z.leb_spec e (emax - prec)) as [|Hgt]; [done|].
  change (emax - prec) with 971 in Hgt. lia.
Qed.

Lemma round_aux_exact_shift s m n k e :
  Z.pos m = Z.pos n * 2 ^ Z.pos k ->
  Z.pos (digits2_pos n) = 53 -> -1074 <= e + Z.pos k <= 971 ->
  binary_round_aux prec emax s (Z.pos m) e loc_Exact
  = S754_finite s n (e + Z.pos k).
Proof.
  intros Hm Hd He. unfold binary_round_aux.
  rewrite (shr_fexp_k m n k) by (done || lia). simpl.
  rewrite shr_fexp_0 by lia. simpl.
  destruct (Z.leb_spec (e + Z.pos k) (emax - prec)) as [|Hgt]; [done|].
  change (emax - prec) with 971 in Hgt. lia.
Qed.


Lemma round_aux_exact_shift_Z s m n k e :
  0 < k ->
  Z.pos m = Z.pos n * 2 ^ k ->
  Z.pos (digits2_pos n) = 53 -> -1074 <= e + k <= 971 ->
  binary_round_aux prec emax s (Z.pos m) e loc_Exact = S754_finite s n (e + k).
Proof.
  intros Hk. destruct k as [|k|]; [lia| |lia]. apply round_aux_exact_shift.
Qed.

(** *** Integers as numbers *)

Lemma log2_range p : 0 < p < 2 ^ 53 -> 0 <= Z.log2 p <= 52.
Proof.
  intros Hp. split; [apply Z.log2_nonneg|].
  assert (Z.log2 p < 53); [|lia]. apply Z.log2_lt_pow2; lia.
Qed.

Lemma pow2_pos k : 0 <= k -> 0 < 2 ^ k.
Proof. intros. by apply Z.pow_pos_nonneg. Qed.

Lemma norm_m_Z p :
  0 < p < 2 ^ 53 -> Z.pos (norm_m p) = p * 2 ^ (52 - Z.log2 p).
Proof.
  intros Hp. unfold norm_m. rewrite Z2Pos.id; [done|].
  pose proof (log2_range p Hp). pose proof (pow2_pos (52 - Z.log2 p)). nia.
Qed.

Lemma norm_m_bounds p :
  0 < p < 2 ^ 53 -> 2 ^ 52 <= Z.pos (norm_m p) < 2 ^ 53.
Proof.
  intros Hp. rewrite norm_m_Z by done.
  pose proof (log2_range p Hp) as Hl.
  pose proof (Z.log2_spec p (proj1 Hp)) as Hs.
  replace (2 ^ 52) with (2 ^ Z.log2 p * 2 ^ (52 - Z.log2 p))
    by (rewrite <- Z.pow_add_r by lia; f_equal; lia).
  replace (2 ^ 53) with (2 ^ Z.succ (Z.log2 p) * 2 ^ (52 - Z.log2 p))
    by (rewrite <- Z.pow_add_r by lia; f_equal; lia).
  pose proof (pow2_pos (52 - Z.log2 p)). nia.
Qed.

Lemma norm_digits p :
  0 < p < 2 ^ 53 -> Z.pos (digits2_pos (norm_m p)) = 53.
Proof. intros Hp. apply digits_unique. by apply norm_m_bounds. Qed.

Lemma Pos_iter_xO m k : Z.pos (Pos.iter xO m k) = Z.pos m * 2 ^ Z.pos k.
Proof.
  induction k as [|k IH] using Pos.peano_ind.
  - simpl. lia.
  - rewrite Pos.iter_succ, Pos2Z.inj_xO, IH, Pos2Z.inj_succ, Z.pow_succ_r by lia.
    lia.
Qed.

(** The representation of an integer below [2^53]. *)
Lemma of_Z_spec p :
  0 < p < 2 ^ 53 ->
  Prim2SF (JS.of_Z p) = S754_finite false (norm_m p) (norm_e p).
Proof.
  intros Hp. pose proof (log2_range p Hp) as Hl.
  pose proof (norm_m_Z p Hp) as HM. pose proof (norm_digits p Hp) as HD.
  destruct p as [|pp|]; [lia| |lia]. unfold JS.of_Z.
  rewrite of_uint63_spec, Uint63.of_Z_spec.
  rewrite Z.mod_small by (change wB with (2 ^ 63); lia).
  unfold binary_normalize, binary_round.
  rewrite fexp_eq, digits2_pos_log2. unfold shl_align, norm_e.
  destruct (Z.eq_dec (Z.log2 (Z.pos pp)) 52) as [H52|H52].
  - rewrite H52 in *. simpl (Z.max _ _ - 0).
    assert (norm_m (Z.pos pp) = pp) as Hn.
    { apply Pos2Z.inj. rewrite HM. simpl. lia. }
    rewrite Hn in *. apply round_aux_exact; [done|lia].
  - destruct (Z.max (Z.log2 (Z.pos pp) + 1 + 0 - 53) (-1074) - 0) as [|d|d] eqn:Hd;
      [lia|lia|].
    assert (Pos.iter xO pp d = norm_m (Z.pos pp)) as ->.
    { apply Pos2Z.inj. rewrite Pos_iter_xO, HM. f_equal. f_equal. lia. }
    replace (Z.max (Z.log2 (Z.pos pp) + 1 + 0 - 53) (-1074))
      with (Z.log2 (Z.pos pp) - 52) by lia.
    apply round_aux_exact; [done|lia].
Qed.

Lemma integer_value_of_Z p :
  0 <= p < 2 ^ 53 -> JS.integer_value (JS.of_Z p) = Some p.
Proof.
  intros Hp. destruct (Z.eq_dec p 0) as [->|Hne]; [reflexivity|].
  assert (0 < p < 2 ^ 53) as Hp' by lia.
  unfold JS.integer_value. rewrite of_Z_spec by done.
  pose proof (log2_range p Hp') as Hl. pose proof (norm_m_Z p Hp') as HM.
  unfold norm_e. destruct (Z.leb_spec 0 (Z.log2 p - 52)) as [H0|H0].
  - replace (Z.log2 p - 52) with 0 by lia. simpl. f_equal.
    rewrite HM. replace (52 - Z.log2 p) with 0 by lia. lia.
  - rewrite HM. replace (- (Z.log2 p - 52)) with (52 - Z.log2 p) by lia.
    pose proof (pow2_pos (52 - Z.log2 p)).
    rewrite Z.mod_mul by lia. simpl. rewrite Z.div_mul by lia. done.
Qed.

(** A number that denotes a positive integer below [2^53] is that integer's
    number. *)
Lemma canonical_integer M E p :
  valid_binary (S754_finite false M E) = true ->
  0 < p < 2 ^ 53 ->
  (0 <= E /\ Z.pos M * 2 ^ E = p) \/ (E < 0 /\ Z.pos M = p * 2 ^ (- E)) ->
  M = norm_m p /\ E = norm_e p.
Proof.
  intros Hv Hp Hval.
  unfold SpecFloat.valid_binary, bounded, canonical_mantissa in Hv.
  apply andb_true_iff in Hv as [Hc _]. apply Z.eqb_eq in Hc.
  rewrite fexp_eq in Hc.
  pose proof (digits_bounds M) as HdM.
  pose proof (log2_range p Hp) as Hl.
  pose proof (Z.log2_spec p (proj1 Hp)) as Hs.
  destruct Hval as [[HE HMp]|[HE HMp]].
  - assert (Z.pos (digits2_pos M) = 53) as Hd by lia.
    rewrite Hd in HdM. simpl (53 - 1) in HdM.
    assert (E = 0) as ->.
    { destruct (Z.eq_dec E 0); [done|]. exfalso.
      assert (2 ^ 1 <= 2 ^ E) by (apply Z.pow_le_mono_r; lia).
      change (2 ^ 1) with 2 in *. nia. }
    rewrite Z.pow_0_r, Z.mul_1_r in HMp. subst p.
    assert (Z.log2 (Z.pos M) = 52) as H52.
    { apply Z.log2_unique; [lia|]. exact HdM. }
    split; [|unfold norm_e; lia].
    apply Pos2Z.inj. rewrite norm_m_Z by done. rewrite H52. simpl. lia.
  - assert (0 < 2 ^ (- E)) as Hpow by (apply pow2_pos; lia).
    assert (Z.pos (digits2_pos M) = 53) as Hd.
    { destruct (Z.max_spec (Z.pos (digits2_pos M) + E - 53) (-1074))
        as [[Hlt Hmax]|[Hlt Hmax]]; [|lia].
      exfalso. rewrite Hmax in Hc. subst E.
      assert (2 ^ 53 <= 2 ^ 1074) by (apply Z.pow_le_mono_r; lia).
      assert (Z.pos M < 2 ^ 53).
      { eapply Z.lt_le_trans; [apply HdM|]. apply Z.pow_le_mono_r; lia. }
      simpl (- -1074) in *. nia. }
    rewrite Hd in HdM. simpl (53 - 1) in HdM.
    assert (- E <= 52) as HEl.
    { destruct (Z.le_gt_cases (- E) 52); [done|]. exfalso.
      assert (2 ^ 53 <= 2 ^ (- E)) by (apply Z.pow_le_mono_r; lia). nia. }
    assert (Z.log2 p = 52 + E) as Hlog.
    { apply Z.log2_unique; [lia|].
      replace (Z.succ (52 + E)) with (53 + E) by lia.
      assert (2 ^ 52 = 2 ^ (52 + E) * 2 ^ (- E)) as H52
        by (rewrite <- Z.pow_add_r by lia; f_equal; lia).
      assert (2 ^ 53 = 2 ^ (53 + E) * 2 ^ (- E)) as H53
        by (rewrite <- Z.pow_add_r by lia; f_equal; lia).
      split.
      - apply (Z.mul_le_mono_pos_r _ _ (2 ^ (- E))); lia.
      - apply (Z.mul_lt_mono_pos_r (2 ^ (- E))); lia. }
    split; [|unfold norm_e; lia].
    apply Pos2Z.inj. rewrite norm_m_Z by done. rewrite HMp. f_equal. f_equal. lia.
Qed.

Lemma integer_value_inv x p :
  JS.integer_value x = Some p -> 0 < p < 2 ^ 53 -> x = JS.of_Z p.
Proof.
  intros Hx Hp. apply Prim2SF_inj. rewrite of_Z_spec by done.
  pose proof (Prim2SF_valid x) as Hv.
  unfold JS.integer_value in Hx.
  destruct (Prim2SF x) as [s|s| |s M E]; try discriminate.
  - injection Hx as <-. lia.
  - assert (0 < 2 ^ E \/ E < 0) as Hpow
      by (destruct (Z.le_gt_cases 0 E); [left; by apply pow2_pos|by right]).
    destruct (Z.leb_spec 0 E) as [HE|HE].
    + simpl in Hx. destruct s; injection Hx as <-; [nia|].
      destruct (canonical_integer M E (Z.pos M * 2 ^ E) Hv Hp) as [HM' HE'];
        [by left|congruence].
    + destruct (Z.eqb_spec (Z.pos M mod 2 ^ (- E)) 0) as [Hmod|];
        [|discriminate].
      pose proof (pow2_pos (- E)).
      assert (Z.pos M = Z.pos M / 2 ^ (- E) * 2 ^ (- E)) as HM.
      { rewrite (Z.div_mod (Z.pos M) (2 ^ (- E))) at 1 by lia. lia. }
      simpl in Hx. destruct s; injection Hx as <-; [nia|].
      destruct (canonical_integer M E (Z.pos M / 2 ^ (- E)) Hv Hp) as [HM' HE'];
        [right; split; [lia|exact HM]|congruence].
Qed.


(** *** Products of integers *)

(** The product of two integers is exact while it stays below [2^53]. *)
Lemma mul_of_Z a b :
  0 < a -> 0 < b -> a * b < 2 ^ 53 ->
  (JS.of_Z a * JS.of_Z b)%float = JS.of_Z (a * b).
Proof.
  intros Ha Hb Hab.
  assert (0 < a < 2 ^ 53) as Ha' by nia.
  assert (0 < b < 2 ^ 53) as Hb' by nia.
  assert (0 < a * b < 2 ^ 53) as Hab' by nia.
  apply Prim2SF_inj. rewrite FloatAxioms.mul_spec, !of_Z_spec by done.
  unfold SF64mul, SFmul. simpl xorb.
  pose proof (log2_range a Ha'). pose proof (log2_range b Hb').
  pose proof (log2_range (a * b) Hab').
  pose proof (Z.log2_mul_below a b Ha Hb) as Hbelow.
  set (k := 52 + Z.log2 (a * b) - Z.log2 a - Z.log2 b).
  replace (norm_e (a * b)) with (norm_e a + norm_e b + k)
    by (unfold norm_e, k; lia).
  apply round_aux_exact_shift_Z.
  - unfold k. lia.
  - rewrite Pos2Z.inj_mul, !norm_m_Z by done. unfold k.
    rewrite <- (Z.mul_assoc (a * b)), <- Z.pow_add_r by lia.
    replace (52 - Z.log2 (a * b) + (52 + Z.log2 (a * b) - Z.log2 a - Z.log2 b))
      with (52 - Z.log2 a + (52 - Z.log2 b)) by lia.
    rewrite Z.pow_add_r by lia. ring.
  - by apply norm_digits.
  - unfold norm_e, k. lia.
Qed.

(** *** Quotients of integers

    [SFdiv] on two 53-bit mantissas divides [mx * 2^53] by [my]: the
    truncated quotient has 53 or 54 bits and is rounded to nearest-even on
    the remainder. *)

Lemma div_eucl_eq a b : Z.div_eucl a b = (a / b, a mod b).
Proof. unfold Z.div, Z.modulo. by destruct (Z.div_eucl a b). Qed.

Lemma SFdiv_finite_eq sx mx ex sy my ey :
  Z.pos (digits2_pos mx) = 53 -> Z.pos (digits2_pos my) = 53 ->
  -1021 <= ex - ey ->
  SFdiv prec emax (S754_finite sx mx ex) (S754_finite sy my ey)
  = binary_round_aux prec emax (xorb sx sy)
      (Z.pos mx * 2 ^ 53 / Z.pos my) (ex - ey - 53)
      (new_location (Z.pos my) ((Z.pos mx * 2 ^ 53) mod Z.pos my)).
Proof.
  intros Hx Hy He. unfold SFdiv, SFdiv_core_binary, Zdigits2.
  rewrite Hx, Hy, fexp_eq.
  replace (Z.min (Z.max (53 + ex - (53 + ey) - 53) (-1074)) (ex - ey))
    with (ex - ey - 53) by lia.
  replace (ex - ey - (ex - ey - 53)) with 53 by lia.
  rewrite Z.shiftl_mul_pow2 by lia. by rewrite div_eucl_eq.
Qed.

Lemma new_location_cases n r :
  (r = 0 /\ new_location n r = loc_Exact) \/
  (r <> 0 /\ exists c, new_location n r = loc_Inexact c).
Proof.
  unfold new_location, new_location_even, new_location_odd.
  destruct (Z.eq_dec r 0) as [->|Hr].
  - left. split; [done|]. by destruct (Z.even n).
  - right. split; [done|]. apply Z.eqb_neq in Hr.
    destruct (Z.even n); cbv beta; rewrite Hr; eexists; reflexivity.
Qed.

Lemma shr_m_of_loc m l : shr_m (shr_record_of_loc m l) = m.
Proof. by destruct l as [|[]]. Qed.

Lemma loc_of_shr_record_of_loc m l :
  loc_of_shr_record (shr_record_of_loc m l) = l.
Proof. by destruct l as [|[]]. Qed.

Lemma shr_fexp_1 m e l :
  Z.pos (digits2_pos m) = 54 -> -1075 <= e ->
  shr_fexp prec emax (Z.pos m) e l
  = (shr_1 (shr_record_of_loc (Z.pos m) l), e + 1).
Proof.
  intros Hd He. unfold shr_fexp, Zdigits2. rewrite Hd, fexp_eq.
  replace (Z.max (54 + e - 53) (-1074) - e) with 1 by lia. done.
Qed.

(** Renormalisation after rounding a 53-bit mantissa: the rounded mantissa
    [R] is kept, or it reached [2^53] and is halved. *)
Lemma renormalise s R e :
  2 ^ 52 <= R <= 2 ^ 53 -> -1074 <= e -> e + 1 <= 971 ->
  exists M E,
    (let '(mrs, e') := shr_fexp prec emax R e loc_Exact in
     match shr_m mrs with
     | Z0 => S754_zero s
     | Z.pos m => if e' <=? emax - prec then S754_finite s m e' else S754_infinity s
     | Z.neg _ => S754_nan
     end) = S754_finite s M E /\
    ((E = e /\ Z.pos M = R) \/ (E = e + 1 /\ 2 * Z.pos M = R)).
Proof.
  intros HR He He'. destruct R as [|R|R]; [lia| |lia].
  destruct (Z.eq_dec (Z.pos R) (2 ^ 53)) as [Heq|Hne].
  - exists (Z.to_pos (2 ^ 52)), (e + 1).
    rewrite (shr_fexp_k R (Z.to_pos (2 ^ 52)) 1) by (done || lia). simpl shr_m.
    destruct (Z.leb_spec (e + 1) (emax - prec)) as [|Hgt];
      [|change (emax - prec) with 971 in Hgt; lia].
    split; [done|]. right. split; [done|]. rewrite Heq. done.
  - exists R, e. rewrite shr_fexp_0; [|apply digits_unique; simpl (53 - 1); lia|lia].
    simpl shr_m.
    destruct (Z.leb_spec e (emax - prec)) as [|Hgt];
      [|change (emax - prec) with 971 in Hgt; lia].
    split; [done|]. by left.
Qed.

(** A 53-bit truncated quotient: rounded in place. *)
Lemma round_aux_53 s q e l :
  Z.pos (digits2_pos q) = 53 -> -1074 <= e -> e + 1 <= 971 ->
  exists M E,
    binary_round_aux prec emax s (Z.pos q) e l = S754_finite s M E /\
    ((E = e /\ Z.pos M = round_nearest_even (Z.pos q) l) \/
     (E = e + 1 /\ 2 * Z.pos M = round_nearest_even (Z.pos q) l)).
Proof.
  intros Hd He He'. unfold binary_round_aux.
  rewrite shr_fexp_0 by lia.
  rewrite shr_m_of_loc, loc_of_shr_record_of_loc.
  apply renormalise; [|lia|lia].
  pose proof (digits_bounds q) as Hb. rewrite Hd in Hb. simpl (53 - 1) in Hb.
  unfold round_nearest_even.
  destruct l as [|[]]; try destruct (Z.even (Z.pos q)); lia.
Qed.

Lemma shr_1_of_loc q l :
  shr_1 (shr_record_of_loc (Z.pos q) l)
  = {| shr_m := Z.div2 (Z.pos q); shr_r := Z.odd (Z.pos q);
       shr_s := match l with loc_Exact => false | _ => true end |}.
Proof. by destruct q, l as [|[]]. Qed.

(** A 54-bit truncated quotient: one bit is shifted out before rounding. *)
Lemma round_aux_54 s q e l :
  Z.pos (digits2_pos q) = 54 -> -1075 <= e -> e + 2 <= 971 ->
  let mrs := shr_1 (shr_record_of_loc (Z.pos q) l) in
  let R := round_nearest_even (shr_m mrs) (loc_of_shr_record mrs) in
  exists M E,
    binary_round_aux prec emax s (Z.pos q) e l = S754_finite s M E /\
    ((E = e + 1 /\ Z.pos M = R) \/ (E = e + 1 + 1 /\ 2 * Z.pos M = R)).
Proof.
  intros Hd He He' mrs R. unfold binary_round_aux.
  rewrite shr_fexp_1 by lia. fold mrs. fold R.
  destruct (renormalise s R (e + 1)) as (M & E & Heq & Hcases); [|lia|lia|].
  - pose proof (digits_bounds q) as Hb. rewrite Hd in Hb. simpl (54 - 1) in Hb.
    unfold R, mrs. rewrite shr_1_of_loc. cbn [shr_m shr_r shr_s].
    rewrite Z.div2_div.
    assert (2 ^ 52 <= Z.pos q / 2 < 2 ^ 53) as Hq2.
    { change (2 ^ (54 - 1)) with (2 ^ 53) in Hb.
      split; [apply Z.div_le_lower_bound; lia|apply Z.div_lt_upper_bound; lia]. }
    unfold loc_of_shr_record, round_nearest_even.
    destruct (Z.odd (Z.pos q)), l as [|[]];
      try destruct (Z.even (Z.pos q / 2)); lia.
  - exists M, E. split; [exact Heq|].
    destruct Hcases as [[-> HM]|[-> HM]]; [left|right]; split; (done || lia).
Qed.


(** The integer arithmetic behind the rounded quotient: [q] is the
    truncated quotient scaled by [D], [K] the ceiling of [p / m]. *)
Lemma scaled_quotient_bounds p m D :
  0 < p -> 0 < m -> m < D ->
  let q := p * D / m in
  let K := (p + m - 1) / m in
  (K - 1) * D + 1 <= q <= K * D /\
  (q = K * D -> (p * D) mod m = 0) /\
  (q = (K - 1) * D + 1 -> (p * D) mod m <> 0) /\
  1 <= K <= p.
Proof.
  intros Hp Hm HD q K.
  pose proof (Z.div_mod (p * D) m ltac:(lia)) as Hq.
  pose proof (Z.mod_pos_bound (p * D) m Hm) as Hr.
  pose proof (Z.div_mod (p + m - 1) m ltac:(lia)) as HK.
  pose proof (Z.mod_pos_bound (p + m - 1) m Hm) as Ht.
  fold q in Hq. fold K in HK.
  set (r := (p * D) mod m) in *. set (t := (p + m - 1) mod m) in *.
  assert (1 <= K <= p) as HKp by nia.
  assert (p * D = m * K * D + (1 - m + t) * D) as HpD by nia.
  repeat split; try lia.
  - assert (m * ((K - 1) * D) < m * q); [nia|]. nia.
  - assert (m * q <= m * (K * D)); [nia|]. nia.
  - intros Heq. nia.
  - intros Heq. nia.
Qed.

(** A finite number whose mantissa [R] at exponent [e] lies in
    [((K - 1) * 2^-e, K * 2^-e]] has ceiling [K]. *)
Lemma Math_ceil_of_bounds x M E K e R :
  Prim2SF x = S754_finite false M E ->
  e <= 0 ->
  (E = e /\ Z.pos M = R) \/ (E = e + 1 /\ 2 * Z.pos M = R) ->
  (K - 1) * 2 ^ (- e) < R <= K * 2 ^ (- e) ->
  0 < K < 2 ^ 53 ->
  JS.Math_ceil x = JS.of_Z K.
Proof.
  intros Hx He Hcases HR HK. unfold JS.Math_ceil. rewrite Hx.
  pose proof (Prim2SF_valid x) as Hv. rewrite Hx in Hv.
  destruct (Z.leb_spec 0 E) as [HE|HE].
  - apply Prim2SF_inj. rewrite Hx, of_Z_spec by done.
    destruct (canonical_integer M E K Hv HK) as [-> ->]; [|done].
    left. split; [done|].
    destruct Hcases as [[-> HM]|[-> HM]].
    + replace e with 0 in * by lia. simpl in HR. simpl. lia.
    + destruct (Z.eq_dec e 0) as [->| ].
      * simpl in HR. simpl. lia.
      * replace e with (-1) in * by lia. simpl in HR. simpl. lia.
  - f_equal. pose proof (pow2_pos (- E) ltac:(lia)) as Hd.
    assert ((K - 1) * 2 ^ (- E) < Z.pos M <= K * 2 ^ (- E)) as HM.
    { destruct Hcases as [[-> HM]|[-> HM]]; [lia|].
      replace (- e) with (Z.succ (- (e + 1))) in HR by lia.
      rewrite Z.pow_succ_r in HR by lia. nia. }
    symmetry.
    apply (Z.div_unique_pos _ _ _ (Z.pos M + 2 ^ (- E) - 1 - K * 2 ^ (- E)));
      lia.
Qed.


(** Dividing two integers below [2^53] and taking the ceiling gives the
    ceiling of the exact quotient. *)
Lemma Math_ceil_div_of_Z p m :
  0 < p < 2 ^ 53 -> 1 < m < 2 ^ 53 ->
  JS.Math_ceil (JS.of_Z p / JS.of_Z m)%float = JS.of_Z ((p + m - 1) / m).
Proof.
  intros Hp Hm.
  assert (0 < m < 2 ^ 53) as Hm' by lia.
  pose proof (log2_range p Hp) as Hlp. pose proof (log2_range m Hm') as Hlm.
  pose proof (norm_m_Z p Hp) as HMp. pose proof (norm_m_Z m Hm') as HMm.
  pose proof (norm_m_bounds p Hp) as HBp.
  pose proof (norm_m_bounds m Hm') as HBm.
  pose proof (Z.log2_spec m ltac:(lia)) as Hsm.
  set (e := Z.log2 p - Z.log2 m - 53).
  set (D := 2 ^ (- e)).
  set (c := 2 ^ (52 - Z.log2 m)).
  assert (0 < c) as Hc by (apply pow2_pos; lia).
  assert (0 < D) as HDpos by (apply pow2_pos; unfold e; lia).
  assert (m < D) as HD.
  { unfold D, e. eapply Z.lt_le_trans; [apply Hsm|].
    apply Z.pow_le_mono_r; lia. }
  assert (Z.pos (norm_m p) * 2 ^ 53 = p * D * c) as HN.
  { rewrite HMp. unfold D, c, e.
    rewrite <- !Z.mul_assoc, <- !Z.pow_add_r by lia. do 2 f_equal. lia. }
  assert (Prim2SF (JS.of_Z p / JS.of_Z m)%float
          = binary_round_aux prec emax false (p * D / m) e
              (new_location (Z.pos (norm_m m)) ((p * D) mod m * c))) as Hx.
  { rewrite FloatAxioms.div_spec, !of_Z_spec by done. unfold SF64div.
    rewrite SFdiv_finite_eq;
      [|by apply norm_digits|by apply norm_digits|unfold norm_e; lia].
    simpl xorb. rewrite HN, HMm. fold c.
    rewrite Z.div_mul_cancel_r, Z.mul_mod_distr_r by lia.
    unfold norm_e, e. f_equal. lia. }
  destruct (scaled_quotient_bounds p m D) as (Hq & Hq0 & Hq1 & HK);
    [lia|lia|lia|].
  set (K := (p + m - 1) / m) in *.
  set (r := (p * D) mod m) in *.
  assert (2 ^ 52 <= p * D / m < 2 ^ 54) as Hqr.
  { assert (2 ^ 105 = 2 ^ 52 * 2 ^ 53) as H105 by (by rewrite <- Z.pow_add_r).
    assert (2 ^ 106 = 2 ^ 52 * 2 ^ 54) as H106 by (by rewrite <- Z.pow_add_r).
    split.
    - apply Z.div_le_lower_bound; [lia|].
      apply (Z.mul_le_mono_pos_r _ _ c); [done|]. nia.
    - apply Z.div_lt_upper_bound; [lia|].
      apply (Z.mul_lt_mono_pos_r c); [done|]. nia. }
  set (q := p * D / m) in *.
  assert (r * c = 0 <-> r = 0) as Hrc by nia.
  destruct q as [|qq|qq] eqn:Hqq; [lia| |lia].
  destruct (Z.lt_ge_cases (Z.pos qq) (2 ^ 53)) as [H53|H54].
  - (* a 53-bit quotient *)
    destruct (round_aux_53 false qq e
                (new_location (Z.pos (norm_m m)) (r * c)))
      as (M & E & Hround & Hcases);
      [apply digits_unique; change (2 ^ (53 - 1)) with (2 ^ 52); lia
      |unfold e; lia|unfold e; lia|].
    rewrite Hround in Hx.
    eapply (Math_ceil_of_bounds _ M E K e);
      [exact Hx|unfold e; lia|exact Hcases| |lia].
    fold D.
    destruct (new_location_cases (Z.pos (norm_m m)) (r * c))
      as [[Hr0 ->]|[Hr0 [cmp ->]]]; unfold round_nearest_even.
    + lia.
    + assert (Z.pos qq <> K * D) by (intros Heq; apply Hr0, Hrc, Hq0, Heq).
      destruct cmp; try destruct (Z.even (Z.pos qq)); lia.
  - (* a 54-bit quotient *)
    destruct (round_aux_54 false qq e
                (new_location (Z.pos (norm_m m)) (r * c)))
      as (M & E & Hround & Hcases);
      [apply digits_unique; change (2 ^ (54 - 1)) with (2 ^ 53); lia
      |unfold e; lia|unfold e; lia|].
    rewrite Hround in Hx.
    eapply (Math_ceil_of_bounds _ M E K (e + 1));
      [exact Hx|unfold e; lia|exact Hcases| |lia].
    assert (D = 2 * 2 ^ (- (e + 1))) as HD2.
    { unfold D. replace (- e) with (Z.succ (- (e + 1))) by lia.
      rewrite Z.pow_succ_r; [done|unfold e; lia]. }
    set (D2 := 2 ^ (- (e + 1))) in *.
    rewrite shr_1_of_loc. cbn [shr_m shr_r shr_s].
    pose proof (Z.div2_odd (Z.pos qq)) as Hodd.
    set (q2 := Z.div2 (Z.pos qq)) in *.
    unfold loc_of_shr_record, round_nearest_even.
    destruct (new_location_cases (Z.pos (norm_m m)) (r * c))
      as [[Hr0 ->]|[Hr0 [cmp ->]]].
    + assert (Z.pos qq <> (K - 1) * D + 1)
        by (intros Heq; apply (Hq1 Heq), Hrc, Hr0).
      destruct (Z.odd (Z.pos qq)); simpl Z.b2z in Hodd;
        try destruct (Z.even q2); lia.
    + assert (Z.pos qq <> K * D) by (intros Heq; apply Hr0, Hrc, Hq0, Heq).
      destruct (Z.odd (Z.pos qq)), cmp; simpl Z.b2z in Hodd; lia.
Qed.


(** *** [Math.ceil(pieces / boxMoq) * boxMoq] *)

Lemma moq_round_of_Z p m :
  0 < p -> 1 < m -> p + m <= 2 ^ 53 ->
  (JS.Math_ceil (JS.of_Z p / JS.of_Z m) * JS.of_Z m)%float
  = JS.of_Z ((p + m - 1) / m * m).
Proof.
  intros Hp Hm Hpm.
  rewrite Math_ceil_div_of_Z by lia.
  pose proof (Z.div_mod (p + m - 1) m ltac:(lia)) as HK.
  pose proof (Z.mod_pos_bound (p + m - 1) m ltac:(lia)) as Ht.
  apply mul_of_Z; [|lia|nia].
  apply Z.div_str_pos. lia.
Qed.

(** No pieces, no boxes: a zero divided and multiplied stays zero. *)
Lemma moq_round_zero x b :
  JS.integer_value x = Some 0 ->
  (exists M E, Prim2SF b = S754_finite false M E) ->
  JS.integer_value (JS.Math_ceil (x / b) * b)%float = Some 0.
Proof.
  intros Hx (M & E & Hb). unfold JS.integer_value in Hx.
  destruct (Prim2SF x) as [s|s| |s Mx Ex] eqn:HPx; try discriminate.
  - assert (Prim2SF (x / b)%float = S754_zero s) as Hdiv.
    { rewrite FloatAxioms.div_spec, HPx, Hb. simpl. by destruct s. }
    assert (JS.Math_ceil (x / b)%float = (x / b)%float) as ->
      by (unfold JS.Math_ceil; by rewrite Hdiv).
    unfold JS.integer_value.
    rewrite FloatAxioms.mul_spec, Hdiv, Hb. done.
  - exfalso. pose proof (pow2_pos Ex). pose proof (pow2_pos (- Ex)).
    destruct (Z.leb_spec 0 Ex).
    + simpl in Hx. destruct s; injection Hx as Hx; nia.
    + destruct (Z.eqb_spec (Z.pos Mx mod 2 ^ (- Ex)) 0) as [Hmod|];
        [|discriminate].
      pose proof (Z.div_mod (Z.pos Mx) (2 ^ (- Ex)) ltac:(lia)).
      simpl in Hx. destruct s; injection Hx as Hx; nia.
Qed.

(** [ceil(p / m) * m] is the smallest multiple of [m] from [p] on. *)
Lemma smallest_multiple_round_up m p :
  0 < m -> smallest_multiple_ge m p ((p + m - 1) / m * m).
Proof.
  intros Hm.
  pose proof (Z.div_mod (p + m - 1) m ltac:(lia)) as HK.
  pose proof (Z.mod_pos_bound (p + m - 1) m ltac:(lia)) as Ht.
  split; [apply Z.divide_factor_r|]. split; [lia|].
  intros z' [k ->] Hz'.
  assert ((p + m - 1) / m <= k); [|nia].
  destruct (Z.le_gt_cases ((p + m - 1) / m) k); [done|]. nia.
Qed.

Lemma gt_of_Z_1 m : 1 < m < 2 ^ 53 -> JS.gt (JS.of_Z m) 1%float = true.
Proof.
  intros Hm. unfold JS.gt.
  rewrite FloatAxioms.ltb_spec, of_Z_spec by lia.
  change (Prim2SF 1%float) with (S754_finite false 4503599627370496 (-52)).
  unfold SFltb, SFcompare, norm_e.
  assert (1 <= Z.log2 m) by (apply Z.log2_le_pow2; simpl; lia).
  destruct (Z.compare_spec (-52) (Z.log2 m - 52)); (done || lia).
Qed.

Lemma finite_of_Z m :
  0 < m < 2 ^ 53 -> exists M E, Prim2SF (JS.of_Z m) = S754_finite false M E.
Proof. intros Hm. rewrite of_Z_spec by done. eauto. Qed.

(** Rounding pieces up to the box quantity, for integers that binary64
    holds exactly. *)
Lemma moq_round_exact pieces p m :
  JS.integer_value pieces = Some p ->
  0 <= p -> 1 < m < 2 ^ 53 -> p + m <= 2 ^ 53 ->
  JS.integer_value (JS.Math_ceil (pieces / JS.of_Z m) * JS.of_Z m)%float
  = Some ((p + m - 1) / m * m).
Proof.
  intros Hpieces Hp Hm Hpm.
  destruct (Z.eq_dec p 0) as [->|Hne].
  - rewrite moq_round_zero; [|done|apply finite_of_Z; lia].
    f_equal. rewrite Z.div_small; lia.
  - rewrite (integer_value_inv pieces p Hpieces) by lia.
    rewrite moq_round_of_Z by lia.
    pose proof (Z.div_mod (p + m - 1) m ltac:(lia)) as HK.
    pose proof (Z.mod_pos_bound (p + m - 1) m ltac:(lia)) as Ht.
    apply integer_value_of_Z. nia.
Qed.

(** The ceiling of a positive number up to [2^52] is an integer between 1
    and [2^52]. *)
Lemma Math_ceil_positive x :
  PrimFloat.ltb 0%float x = true ->
  PrimFloat.leb x 4503599627370496%float = true ->
  exists P, 1 <= P <= 2 ^ 52 /\ JS.Math_ceil x = JS.of_Z P.
Proof.
  rewrite FloatAxioms.ltb_spec, FloatAxioms.leb_spec.
  change (Prim2SF 0%float) with (S754_zero false).
  change (Prim2SF 4503599627370496%float)
    with (S754_finite false 4503599627370496 0).
  intros Hpos Hle. pose proof (Prim2SF_valid x) as Hv.
  unfold JS.Math_ceil.
  destruct (Prim2SF x) as [s|s| |s M E] eqn:HPx; try discriminate.
  - by destruct s.
  - destruct s; [discriminate|]. clear Hpos.
    unfold SpecFloat.valid_binary, bounded, canonical_mantissa in Hv.
    apply andb_true_iff in Hv as [Hc _]. apply Z.eqb_eq in Hc.
    rewrite fexp_eq in Hc. pose proof (digits_bounds M) as HdM.
    assert (Z.pos M < 2 ^ 53) as HM53.
    { eapply Z.lt_le_trans; [apply HdM|]. apply Z.pow_le_mono_r; lia. }
    unfold SFleb, SFcompare in Hle.
    destruct (Z.compare_spec E 0) as [->|HE|HE]; [| |discriminate].
    + assert (Z.pos (digits2_pos M) = 53) as Hd by lia.
      rewrite Hd in HdM. change (2 ^ (53 - 1)) with (2 ^ 52) in HdM.
      assert ((M <= 4503599627370496)%positive) as HMle.
      { unfold Pos.le.
        change (Pos.compare M 4503599627370496%positive)
          with (PosDef.Pos.compare_cont Eq M 4503599627370496%positive).
        destruct (PosDef.Pos.compare_cont Eq M 4503599627370496%positive);
          congruence. }
      apply Pos2Z.pos_le_pos in HMle.
      assert (M = 4503599627370496%positive) as ->.
      { apply Pos2Z.inj. change (2 ^ 52) with 4503599627370496 in HdM. lia. }
      exists (2 ^ 52). split; [lia|].
      destruct (Z.leb_spec 0 0); [|lia].
      apply Prim2SF_inj. rewrite HPx. vm_compute. reflexivity.
    + destruct (Z.leb_spec 0 E); [lia|].
      pose proof (pow2_pos (- E) ltac:(lia)) as Hd.
      assert (2 <= 2 ^ (- E)) as Hd2.
      { change 2 with (2 ^ 1) at 1. apply Z.pow_le_mono_r; lia. }
      eexists. split; [|reflexivity]. split.
      * apply Z.div_le_lower_bound; lia.
      * assert ((Z.pos M + 2 ^ (- E) - 1) / 2 ^ (- E) < 2 ^ 52 + 1); [|lia].
        apply Z.div_lt_upper_bound; [lia|]. nia.
Qed.

(** The ceiling of a positive finite number is an integer of at least 1. *)
Lemma Math_ceil_positive_finite x :
  PrimFloat.ltb 0%float x = true ->
  PrimFloat.ltb x infinity = true ->
  exists P, 1 <= P /\ JS.integer_value (JS.Math_ceil x) = Some P.
Proof.
  rewrite !FloatAxioms.ltb_spec.
  change (Prim2SF 0%float) with (S754_zero false).
  change (Prim2SF infinity) with (S754_infinity false).
  intros Hpos Hfin. pose proof (Prim2SF_valid x) as Hv.
  unfold JS.Math_ceil.
  destruct (Prim2SF x) as [s|s| |s M E] eqn:HPx; try discriminate.
  - by destruct s.
  - destruct s; [discriminate|]. clear Hpos Hfin.
    unfold SpecFloat.valid_binary, bounded, canonical_mantissa in Hv.
    apply andb_true_iff in Hv as [Hc _]. apply Z.eqb_eq in Hc.
    rewrite fexp_eq in Hc. pose proof (digits_bounds M) as HdM.
    assert (Z.pos M < 2 ^ 53) as HM53.
    { eapply Z.lt_le_trans; [apply HdM|]. apply Z.pow_le_mono_r; lia. }
    destruct (Z.leb_spec 0 E) as [HE|HE].
    + exists (Z.pos M * 2 ^ E). pose proof (pow2_pos E HE). split; [nia|].
      unfold JS.integer_value. rewrite HPx.
      destruct (Z.leb_spec 0 E); [done|lia].
    + pose proof (pow2_pos (- E) ltac:(lia)) as Hd.
      assert (2 <= 2 ^ (- E)) as Hd2.
      { change 2 with (2 ^ 1) at 1. apply Z.pow_le_mono_r; lia. }
      exists ((Z.pos M + 2 ^ (- E) - 1) / 2 ^ (- E)).
      assert (1 <= (Z.pos M + 2 ^ (- E) - 1) / 2 ^ (- E)) as H1
        by (apply Z.div_le_lower_bound; lia).
      split; [done|]. apply integer_value_of_Z. split; [lia|].
      apply Z.div_lt_upper_bound; [lia|]. nia.
Qed.

Lemma integer_value_of_Z_neg p :
  0 < p < 2 ^ 53 -> JS.integer_value (JS.of_Z (- p)) = Some (- p).
Proof.
  intros Hp. pose proof (integer_value_of_Z p ltac:(lia)) as Hpos.
  destruct p as [|pp|]; [lia| |lia].
  unfold JS.integer_value in *.
  change (JS.of_Z (- Z.pos pp)) with (- JS.of_Z (Z.pos pp))%float.
  rewrite FloatAxioms.opp_spec.
  rewrite of_Z_spec in * by done. cbn [SFopp negb].
  destruct (if 0 <=? norm_e (Z.pos pp)
            then Some (Z.pos (norm_m (Z.pos pp)) * 2 ^ norm_e (Z.pos pp))
            else if Z.pos (norm_m (Z.pos pp)) mod 2 ^ (- norm_e (Z.pos pp)) =? 0
                 then Some (Z.pos (norm_m (Z.pos pp))
                            / 2 ^ (- norm_e (Z.pos pp)))
                 else None) as [z|];
    [|discriminate].
  cbn [option_map] in *. by injection Hpos as ->.
Qed.

(** [Math_ceil] is the ceiling: on a finite number of value
    [v = ± M * 2^E] it returns the integer [I] with [I - 1 < v <= I]. *)
Lemma Math_ceil_spec x s M E :
  Prim2SF x = S754_finite s M E ->
  exists I,
    JS.integer_value (JS.Math_ceil x) = Some I /\
    let v := if s then - Z.pos M else Z.pos M in
    if 0 <=? E then I = v * 2 ^ E
    else (I - 1) * 2 ^ (- E) < v <= I * 2 ^ (- E).
Proof.
  intros Hx. pose proof (Prim2SF_valid x) as Hv. rewrite Hx in Hv.
  unfold SpecFloat.valid_binary, bounded, canonical_mantissa in Hv.
  apply andb_true_iff in Hv as [Hc _]. apply Z.eqb_eq in Hc.
  rewrite fexp_eq in Hc. pose proof (digits_bounds M) as HdM.
  assert (Z.pos M < 2 ^ 53) as HM53.
  { eapply Z.lt_le_trans; [apply HdM|]. apply Z.pow_le_mono_r; lia. }
  assert (2 ^ 53 = 2 * 2 ^ 52) as H53 by done.
  unfold JS.Math_ceil. rewrite Hx.
  destruct (Z.leb_spec 0 E) as [HE|HE].
  - exists ((if s then - Z.pos M else Z.pos M) * 2 ^ E). split; [|done].
    unfold JS.integer_value. rewrite Hx.
    destruct (Z.leb_spec 0 E); [|lia]. simpl. by destruct s; f_equal; lia.
  - pose proof (pow2_pos (- E) ltac:(lia)) as Hd.
    assert (2 <= 2 ^ (- E)) as Hd2.
    { change 2 with (2 ^ 1) at 1. apply Z.pow_le_mono_r; lia. }
    pose proof (Z.div_mod (Z.pos M) (2 ^ (- E)) ltac:(lia)) as Hdm.
    pose proof (Z.mod_pos_bound (Z.pos M) (2 ^ (- E)) Hd) as Hmod.
    destruct s.
    + destruct (Z.eqb_spec (Z.pos M / 2 ^ (- E)) 0) as [H0|H0].
      * exists 0. split; [reflexivity|]. cbv zeta. nia.
      * exists (- (Z.pos M / 2 ^ (- E))).
        assert (0 < Z.pos M / 2 ^ (- E) < 2 ^ 53) as Hn.
        { split; [pose proof (Z.div_pos (Z.pos M) (2 ^ (- E))); lia|].
          apply Z.div_lt_upper_bound; [lia|]. nia. }
        split; [by apply integer_value_of_Z_neg|]. cbv zeta. nia.
    + exists ((Z.pos M + 2 ^ (- E) - 1) / 2 ^ (- E)).
      pose proof (Z.div_mod (Z.pos M + 2 ^ (- E) - 1) (2 ^ (- E)) ltac:(lia))
        as Hdm'.
      pose proof (Z.mod_pos_bound (Z.pos M + 2 ^ (- E) - 1) (2 ^ (- E)) Hd)
        as Hmod'.
      split; [|cbv zeta; nia].
      apply integer_value_of_Z. split.
      * apply Z.div_pos; lia.
      * apply Z.div_lt_upper_bound; [lia|]. nia.
Qed.

(** *** Signs

    Products and quotients of numbers that are not negative are not
    negative, so the pieces needed for a positive coverage of a tile with
    positive dimensions are not negative. *)

Lemma round_aux_sign s m e l :
  match binary_round_aux prec emax s m e l with
  | S754_zero s' | S754_infinity s' | S754_finite s' _ _ => s' = s
  | S754_nan => True
  end.
Proof.
  unfold binary_round_aux.
  destruct (shr_fexp prec emax m e l) as [mrs' e'].
  destruct (shr_fexp prec emax _ e' loc_Exact) as [mrs'' e''].
  destruct (shr_m mrs''); [done| |done].
  by destruct (e'' <=? emax - prec).
Qed.

Lemma round_aux_nonneg m e l :
  SF_nonneg (binary_round_aux prec emax false m e l) = true.
Proof.
  pose proof (round_aux_sign false m e l) as H.
  by destruct (binary_round_aux prec emax false m e l); simpl; subst.
Qed.

Lemma SFmul_nonneg x y :
  SF_nonneg x = true -> SF_nonneg y = true ->
  SF_nonneg (SFmul prec emax x y) = true.
Proof.
  destruct x as [[]|[]| |[] mx ex], y as [[]|[]| |[] my ey];
    try discriminate; try reflexivity.
  intros _ _. apply round_aux_nonneg.
Qed.

Lemma SFdiv_nonneg x y :
  SF_nonneg x = true -> SF_nonneg y = true ->
  SF_nonneg (SFdiv prec emax x y) = true.
Proof.
  destruct x as [[]|[]| |[] mx ex], y as [[]|[]| |[] my ey];
    try discriminate; try reflexivity.
  intros _ _. unfold SFdiv.
  destruct (SFdiv_core_binary prec emax (Z.pos mx) ex (Z.pos my) ey)
    as [[mz ez] lz].
  apply round_aux_nonneg.
Qed.

Lemma positive_nonneg x :
  PrimFloat.ltb 0%float x = true -> SF_nonneg (Prim2SF x) = true.
Proof.
  rewrite FloatAxioms.ltb_spec.
  change (Prim2SF 0%float) with (S754_zero false).
  by destruct (Prim2SF x) as [[]|[]| |[] m e].
Qed.

Lemma quotient_nonneg l w c :
  PrimFloat.ltb 0%float l = true ->
  PrimFloat.ltb 0%float w = true ->
  PrimFloat.ltb 0%float c = true ->
  SF_nonneg (Prim2SF (c / tileArea l w)%float) = true.
Proof.
  intros Hl Hw Hc. unfold tileArea.
  rewrite FloatAxioms.div_spec. apply SFdiv_nonneg; [by apply positive_nonneg|].
  rewrite FloatAxioms.mul_spec. apply SFmul_nonneg; [|reflexivity].
  rewrite FloatAxioms.div_spec. apply SFdiv_nonneg; [|reflexivity].
  rewrite FloatAxioms.mul_spec. by apply SFmul_nonneg; apply positive_nonneg.
Qed.

(** The ceiling of a number that is not negative is not negative. *)
Lemma Math_ceil_nonneg x p :
  SF_nonneg (Prim2SF x) = true ->
  JS.integer_value (JS.Math_ceil x) = Some p ->
  0 <= p.
Proof.
  intros Hsign Hp.
  destruct (Prim2SF x) as [s|s| |s M E] eqn:HPx.
  - unfold JS.Math_ceil, JS.integer_value in Hp. rewrite HPx in Hp.
    rewrite HPx in Hp. injection Hp as <-. lia.
  - unfold JS.Math_ceil, JS.integer_value in Hp. rewrite HPx in Hp.
    by rewrite HPx in Hp.
  - unfold JS.Math_ceil, JS.integer_value in Hp. rewrite HPx in Hp.
    by rewrite HPx in Hp.
  - destruct s; [discriminate|].
    destruct (Math_ceil_spec x false M E HPx) as (I & HI & Hbounds).
    rewrite HI in Hp. injection Hp as <-. cbv zeta in Hbounds.
    destruct (Z.leb_spec 0 E) as [HE|HE].
    + pose proof (pow2_pos E HE). nia.
    + pose proof (pow2_pos (- E) ltac:(lia)). nia.
Qed.

End Binary64.

(** ** Stock never goes negative (C1) *)

(** C1. For a product row whose stock [s] is a non-negative SQL integer and
    a requested quantity [q >= 1], one call of [update_product_stock] either
    (when [s >= q]) replaces the stock by [s - q], which is still
    non-negative, or (when [s < q]) signals failure and leaves the table as
    it was; hence a table without negative stock has none after any
    sequence [ops] of decrement calls. *)
Theorem C1_stock_never_negative
    (ps : gmap string product_row) pid row s q (ops : list (string * Z)) :
  ps !! pid = Some row ->
  stock row = Some s ->
  0 <= s <= int4_max ->
  1 <= q ->
  stocks_nonneg ps ->
  (q <= s ->
     update_product_stock ps pid q
       = SqlOk (<[pid := set_stock row (s - q)]> ps)
     /\ 0 <= s - q) /\
  (s < q ->
     update_product_stock ps pid q = SqlError (insufficient_stock pid)
     /\ decrement_step ps (pid, q) = ps) /\
  stocks_nonneg (decrements ps ops).
Proof.
  intros Hrow Hs Hrange Hq Hps. split; [|split].
  - intros Hle. unfold update_product_stock. rewrite Hrow, Hs.
    destruct (Z.leb_spec q s); [|lia].
    assert (in_int4 (s - q) = true) as ->.
    { unfold in_int4, int4_min, int4_max in *.
      apply andb_true_intro; split; apply Z.leb_le; lia. }
    split; [done|lia].
  - intros Hlt. unfold decrement_step, update_product_stock. simpl.
    rewrite Hrow, Hs. by destruct (Z.leb_spec q s); [lia|].
  - by apply decrements_nonneg.
Qed.

Lemma C1_witness :
  (3 <= 10 ->
     update_product_stock twoTiles pidA 3
       = SqlOk (<[pidA := set_stock (tile 300 300 1 10) (10 - 3)]> twoTiles)
     /\ 0 <= 10 - 3) /\
  (10 < 3 ->
     update_product_stock twoTiles pidA 3 = SqlError (insufficient_stock pidA)
     /\ decrement_step twoTiles (pidA, 3) = twoTiles) /\
  stocks_nonneg (decrements twoTiles [(pidA, 3); (pidB, 1); (pidA, 8)]).
Proof.
  apply (C1_stock_never_negative twoTiles pidA (tile 300 300 1 10) 10 3).
  - reflexivity.
  - reflexivity.
  - unfold int4_max. lia.
  - lia.
  - apply stocks_nonneg_b_correct. vm_compute. reflexivity.
Defined.

(** ** A failed decrement cancels the order (C2) *)

(** C2. When a validated order placement meets a line [it] whose stock
    decrement fails (the lines [done] before it went through, leaving the
    table [ps1]), the order inserted for the request is updated to status
    [cancelled] and payment status [cancelled], and the caller receives the
    failure response with [retry: true]. *)
Theorem C2_failed_decrement_cancels_order
    db userId body (done : list Item) it rest ps1 e :
  validateOrder body = [] ->
  adjustedItems (products db) (b_items body) = done ++ it :: rest ->
  stock_loop (products db) done = (ps1, None) ->
  rpc_update_product_stock ps1 it = SqlError e ->
  exists o,
    orders (post_order db userId body).1 !! length (orders db) = Some o /\
    user_id o = userId /\
    items o = done ++ it :: rest /\
    status o = st_cancelled /\
    payment_status o = pay_cancelled /\
    (post_order db userId body).2
      = ServerError "Failed to update product stock" true.
Proof.
  intros Hv Hadj Hdone Hfail.
  destruct (post_order_valid db userId body Hv)
    as (total & addr & _ & _ & Hpost).
  cbv zeta in Hpost. rewrite Hadj in Hpost.
  rewrite (stock_loop_fails_at _ _ _ _ _ _ Hdone Hfail) in Hpost.
  rewrite Hpost. simpl. eexists. split; [apply lookup_cancelled_order|].
  by simpl.
Qed.

Lemma C2_witness :
  exists o,
    orders (post_order (store twoTiles) "user" twoLineCart).1 !! 0%nat = Some o /\
    user_id o = "user" /\
    items o = [line pidA 5 None] ++ line pidB 1 None :: [] /\
    status o = st_cancelled /\
    payment_status o = pay_cancelled /\
    (post_order (store twoTiles) "user" twoLineCart).2
      = ServerError "Failed to update product stock" true.
Proof.
  apply (C2_failed_decrement_cancels_order
           (store twoTiles) "user" twoLineCart
           [line pidA 5 None] (line pidB 1 None) [] afterFirstLine
           (insufficient_stock pidB)).
  - vm_compute. reflexivity.
  - vm_compute. reflexivity.
  - vm_compute. reflexivity.
  - vm_compute. reflexivity.
Defined.

(** ** Pieces for a coverage (C3) *)



(** ** Rounding up to the box quantity (C4) *)

(** C4, as the code has it. For every product with [length_mm > 0],
    [width_mm > 0] and [box_moq = m > 1] and every requested coverage
    [> 0]: when the pieces needed, [ceil(coverage / area_sqft)], are an
    integer [p] with [p + m <= 2^53] (so that binary64 holds every integer
    involved exactly), quantity resolution returns the smallest multiple of
    [m] that is at least [p]; in particular the 300 x 300 product with
    coverage 100 and [box_moq = 10] yields 110. *)
Theorem C4_rounds_up_to_box_moq
    (ps : gmap string product_row) (its : list Item) i it row l w c m p :
  its !! i = Some it ->
  ps !! product_id it = Some row ->
  length_mm row = Some l ->
  width_mm row = Some w ->
  box_moq row = Some m ->
  coverage it = Some c ->
  PrimFloat.ltb 0%float l = true ->
  PrimFloat.ltb 0%float w = true ->
  PrimFloat.ltb 0%float c = true ->
  1 < m <= int4_max ->
  JS.integer_value (JS.Math_ceil (c / (l * w / 1000000 * 10.764))%float)
    = Some p ->
  p + m <= 2 ^ 53 ->
  (exists Q z,
     adjustedItems ps its !! i = Some (with_quantity it Q) /\
     Q = calculateTileQuantity l w c (Some (JS.of_Z m)) /\
     JS.integer_value Q = Some z /\
     smallest_multiple_ge m p z) /\
  calculateTileQuantity 300 300 100 (Some 10%float) = 110%float.
Proof.
  intros Hi Hrow Hl Hw Hmoq Hc Hlpos Hwpos Hcpos Hm Hp Hpm.
  split; [|reflexivity].
  assert (0 <= p) as Hp0.
  { apply (Math_ceil_nonneg (c / tileArea l w)%float); [|exact Hp].
    by apply quotient_nonneg. }
  assert (m < 2 ^ 53) as Hm53.
  { unfold int4_max in Hm.
    assert (2 ^ 31 <= 2 ^ 53) by (apply Z.pow_le_mono_r; lia). lia. }
  exists (calculateTileQuantity l w c (Some (JS.of_Z m))),
         ((p + m - 1) / m * m).
  split; [|split; [done|split]].
  - rewrite (adjustedItems_at _ _ _ _ Hi), Hrow.
    rewrite (resolve_computes row it l w c) by done. by rewrite Hmoq.
  - unfold calculateTileQuantity. rewrite gt_of_Z_1 by lia.
    apply moq_round_exact; [exact Hp|lia|lia|lia].
  - apply smallest_multiple_round_up. lia.
Qed.

Lemma C4_witness :
  (exists Q z,
     adjustedItems boxedTiles [line pidA 1 (Some 100%float)] !! 0%nat
       = Some (with_quantity (line pidA 1 (Some 100%float)) Q) /\
     Q = calculateTileQuantity 300 300 100 (Some (JS.of_Z 10)) /\
     JS.integer_value Q = Some z /\
     smallest_multiple_ge 10 104 z) /\
  calculateTileQuantity 300 300 100 (Some 10%float) = 110%float.
Proof.
  apply (C4_rounds_up_to_box_moq boxedTiles _ _ _ (tile 300 300 10 500)).
  - reflexivity.
  - vm_compute. reflexivity.
  - reflexivity.
  - reflexivity.
  - reflexivity.
  - reflexivity.
  - vm_compute. reflexivity.
  - vm_compute. reflexivity.
  - vm_compute. reflexivity.
  - unfold int4_max. lia.
  - vm_compute. reflexivity.
  - lia.
Defined.

(** The specification's sentence does not hold beyond [2^53]: for the
    300 x 300 product, coverage [1e16] and [box_moq = 3] the pieces needed
    are 10322474090590034 and the result is 10322474090590036, which is not
    a multiple of 3. *)
Lemma C4_counterexample :
  ~ (forall l w c m p,
       PrimFloat.ltb 0%float l = true ->
       PrimFloat.ltb 0%float w = true ->
       PrimFloat.ltb 0%float c = true ->
       1 < m <= int4_max ->
       JS.integer_value (piecesNeeded l w c) = Some p ->
       exists z,
         JS.integer_value (calculateTileQuantity l w c (Some (JS.of_Z m)))
           = Some z /\
         smallest_multiple_ge m p z).
Proof.
  intros H.
  destruct (H 300%float 300%float 1e16%float 3 10322474090590034)
    as (z & Hz & Hdiv & _); try (vm_compute; reflexivity).
  - unfold int4_max. lia.
  - assert (JS.integer_value
              (calculateTileQuantity 300 300 1e16 (Some (JS.of_Z 3)))
            = Some 10322474090590036) as Hv by (vm_compute; reflexivity).
    rewrite Hv in Hz. injection Hz as <-.
    apply Z.mod_divide in Hdiv; [|lia]. vm_compute in Hdiv. discriminate.
Qed.

(** ** Pass-through lines (C5, C6) *)

(** C5, as the code has it. For every cart line, if the requested coverage
    is absent (or zero), or the product is unknown, or the product's
    [length_mm] or [width_mm] is absent or zero, the resolved line is the
    requested line unchanged: its quantity is the requested quantity and no
    area computation is applied. (A negative dimension is not covered: the
    guard tests truthiness.) *)
Theorem C5_pass_through_when_absent_or_zero
    (ps : gmap string product_row) (its : list Item) i it :
  its !! i = Some it ->
  absent_or_zero (coverage it) = true \/
  (forall row, ps !! product_id it = Some row ->
     absent_or_zero (length_mm row) = true \/
     absent_or_zero (width_mm row) = true) ->
  adjustedItems ps its !! i = Some it.
Proof.
  intros Hi Hcase. rewrite (adjustedItems_at _ _ _ _ Hi). f_equal.
  destruct Hcase as [Hc|Hrow]; [by apply resolve_falsy_coverage|].
  destruct (ps !! product_id it) as [row|]; [|done].
  by apply resolve_falsy_dimension, Hrow.
Qed.

Lemma C5_witness :
  adjustedItems (<[pidA := tile 0 300 1 10]> ∅)
      [line pidA 5 (Some 100%float)] !! 0%nat
    = Some (line pidA 5 (Some 100%float)).
Proof.
  apply C5_pass_through_when_absent_or_zero.
  - reflexivity.
  - right. intros row Hrow. rewrite lookup_insert_eq in Hrow.
    injection Hrow as <-. left. vm_compute. reflexivity.
Defined.

(** The specification's sentence does not hold for a negative dimension:
    a product of -300 mm x 300 mm with coverage 100 resolves a requested
    quantity of 5 to -103. *)
Lemma C5_counterexample :
  ~ (forall (ps : gmap string product_row) (its : list Item) i it row,
       its !! i = Some it ->
       ps !! product_id it = Some row ->
       coverage it = None \/
       absent_or_nonpositive (length_mm row) = true \/
       absent_or_nonpositive (width_mm row) = true ->
       quantity <$> adjustedItems ps its !! i = Some (quantity it)).
Proof.
  intros H.
  specialize (H (<[pidA := tile (-300) 300 1 10]> ∅)
                [line pidA 5 (Some 100%float)] 0%nat
                (line pidA 5 (Some 100%float)) (tile (-300) 300 1 10)).
  assert (quantity <$>
            adjustedItems (<[pidA := tile (-300) 300 1 10]> ∅)
              [line pidA 5 (Some 100%float)] !! 0%nat
          = Some (Some (-103)%float)) as Hq by (vm_compute; reflexivity).
  rewrite Hq in H.
  assert (Some (Some (-103)%float) = Some (Some 5%float)) as Habs.
  { apply H; [reflexivity|reflexivity|]. right. left. vm_compute. reflexivity. }
  apply (f_equal (fun o => match o with
                          | Some (Some x) => Prim2SF x
                          | _ => S754_nan
                          end)) in Habs.
  vm_compute in Habs. discriminate.
Qed.




(** ** Earlier decrements stay (C7) *)

(** C7. In a cart of two or more lines where the lines [done] (at least
    one) had their stock decremented and a later line [it] fails, the order
    ends persisted with status [cancelled], and the table keeps the
    decrements of the earlier lines: it is the table [ps1] they produced,
    in which each of them took its quantity off its product's stock. *)
Theorem C7_earlier_decrements_not_reverted
    db userId body (done : list Item) it rest ps1 e :
  validateOrder body = [] ->
  adjustedItems (products db) (b_items body) = done ++ it :: rest ->
  done <> [] ->
  stock_loop (products db) done = (ps1, None) ->
  rpc_update_product_stock ps1 it = SqlError e ->
  products (post_order db userId body).1 = ps1 /\
  deducts (products db) done ps1 /\
  exists o,
    orders (post_order db userId body).1 !! length (orders db) = Some o /\
    status o = st_cancelled.
Proof.
  intros Hv Hadj _ Hdone Hfail.
  destruct (post_order_valid db userId body Hv)
    as (total & addr & _ & _ & Hpost).
  cbv zeta in Hpost. rewrite Hadj in Hpost.
  rewrite (stock_loop_fails_at _ _ _ _ _ _ Hdone Hfail) in Hpost.
  rewrite Hpost. simpl. split; [done|]. split.
  - by apply stock_loop_deducts.
  - eexists. split; [apply lookup_cancelled_order|done].
Qed.

Lemma C7_witness :
  products (post_order (store twoTiles) "user" twoLineCart).1 = afterFirstLine /\
  deducts twoTiles [line pidA 5 None] afterFirstLine /\
  exists o,
    orders (post_order (store twoTiles) "user" twoLineCart).1 !! 0%nat = Some o /\
    status o = st_cancelled.
Proof.
  apply (C7_earlier_decrements_not_reverted
           (store twoTiles) "user" twoLineCart
           [line pidA 5 None] (line pidB 1 None) [] afterFirstLine
           (insufficient_stock pidB)).
  - vm_compute. reflexivity.
  - vm_compute. reflexivity.
  - discriminate.
  - vm_compute. reflexivity.
  - vm_compute. reflexivity.
Defined.

(** ** The quantity field is required (C8) *)

(** C8, as the code has it. A [POST /orders] request with a line that omits
    the [quantity] field is rejected by request validation with a 400
    response naming the field, whether or not the line supplies a coverage;
    nothing is stored. The [quantity] chain has no [optional()]. *)
Theorem C8_missing_quantity_rejected db userId body it :
  it ∈ b_items body ->
  quantity it = None ->
  exists errors,
    post_order db userId body = (db, BadRequest errors) /\
    "items.*.quantity" ∈ errors.
Proof.
  intros Hin Hq.
  assert ("items.*.quantity" ∈ validateOrder body) as Herr.
  { unfold validateOrder.
    apply elem_of_app; right. apply elem_of_app; right.
    apply elem_of_app; left. by apply quantity_error_reported with it. }
  unfold post_order, create_order.
  destruct (validateOrder body) as [|e errors].
  - by apply elem_of_nil in Herr.
  - by exists (e :: errors).
Qed.

Lemma C8_witness :
  exists errors,
    post_order (store twoTiles) "user" (cart [coverageOnlyLine])
      = (store twoTiles, BadRequest errors) /\
    "items.*.quantity" ∈ errors.
Proof.
  apply (C8_missing_quantity_rejected _ _ _ coverageOnlyLine).
  - apply list_elem_of_here.
  - reflexivity.
Defined.

(** The specification's sentence does not hold: a request that is valid
    in every other field and whose single line supplies a coverage of 100
    but no quantity is answered 400, with the quantity field as the only
    error. *)
Lemma C8_counterexample :
  coverage coverageOnlyLine = Some 100%float /\
  quantity coverageOnlyLine = None /\
  validateOrder (cart [coverageOnlyLine]) = ["items.*.quantity"] /\
  validateOrder (cart [line pidA 1 (Some 100%float)]) = [] /\
  post_order (store twoTiles) "user" (cart [coverageOnlyLine])
    = (store twoTiles, BadRequest ["items.*.quantity"]).
Proof. repeat split; vm_compute; reflexivity. Qed.

(** ** Resolved quantities are at least one (C9) *)

(** C9, as the code has it. Whenever quantity resolution applies (coverage
    present and positive, both dimensions present and positive,
    [box_moq = m >= 1]) and the computed quotient [coverage / area_sqft] is
    a positive finite binary64 number (it neither underflows to 0 nor
    overflows), at most [2^52] when [m > 1], the resolved quantity is an
    integer that is at least 1. *)
Theorem C9_resolved_quantity_at_least_one
    (ps : gmap string product_row) (its : list Item) i it row l w c m :
  its !! i = Some it ->
  ps !! product_id it = Some row ->
  length_mm row = Some l ->
  width_mm row = Some w ->
  box_moq row = Some m ->
  coverage it = Some c ->
  PrimFloat.ltb 0%float l = true ->
  PrimFloat.ltb 0%float w = true ->
  PrimFloat.ltb 0%float c = true ->
  1 <= m <= int4_max ->
  PrimFloat.ltb 0%float (c / tileArea l w)%float = true ->
  PrimFloat.ltb (c / tileArea l w)%float infinity = true ->
  m = 1 \/
  PrimFloat.leb (c / tileArea l w)%float 4503599627370496%float = true ->
  exists Q z,
    adjustedItems ps its !! i = Some (with_quantity it Q) /\
    JS.integer_value Q = Some z /\
    1 <= z.
Proof.
  intros Hi Hrow Hl Hw Hmoq Hc Hlpos Hwpos Hcpos Hm Hq0 Hqfin Hq52.
  assert (2 ^ 31 <= 2 ^ 52) as H31 by (apply Z.pow_le_mono_r; lia).
  assert (2 ^ 53 = 2 * 2 ^ 52) as H53 by done.
  unfold int4_max in Hm.
  exists (calculateTileQuantity l w c (Some (JS.of_Z m))).
  assert (adjustedItems ps its !! i
          = Some (with_quantity it
                    (calculateTileQuantity l w c (Some (JS.of_Z m))))) as Hadj.
  { rewrite (adjustedItems_at _ _ _ _ Hi), Hrow.
    rewrite (resolve_computes row it l w c) by done. by rewrite Hmoq. }
  unfold calculateTileQuantity, piecesNeeded in *.
  destruct (Z.eq_dec m 1) as [->|Hne].
  - destruct (Math_ceil_positive_finite _ Hq0 Hqfin) as (P & HP & Hceil).
    exists P. split; [exact Hadj|]. split; [|lia].
    change (JS.gt (JS.of_Z 1) 1%float) with false. cbv iota. exact Hceil.
  - destruct Hq52 as [->|Hq52]; [done|].
    destruct (Math_ceil_positive _ Hq0 Hq52) as (P & HP & Hceil).
    rewrite Hceil in *.
    exists ((P + m - 1) / m * m). split; [exact Hadj|].
    rewrite gt_of_Z_1 by lia. split.
    + apply moq_round_exact; [apply integer_value_of_Z; lia|lia|lia|lia].
    + destruct (smallest_multiple_round_up m P ltac:(lia)) as (_ & Hge & _).
      lia.
Qed.

Lemma C9_witness :
  exists Q z,
    adjustedItems boxedTiles [line pidA 1 (Some 100%float)] !! 0%nat
      = Some (with_quantity (line pidA 1 (Some 100%float)) Q) /\
    JS.integer_value Q = Some z /\
    1 <= z.
Proof.
  apply (C9_resolved_quantity_at_least_one
           boxedTiles _ _ _ (tile 300 300 10 500) 300%float 300%float
           100%float 10).
  - reflexivity.
  - vm_compute. reflexivity.
  - reflexivity.
  - reflexivity.
  - reflexivity.
  - reflexivity.
  - vm_compute. reflexivity.
  - vm_compute. reflexivity.
  - vm_compute. reflexivity.
  - unfold int4_max. lia.
  - vm_compute. reflexivity.
  - vm_compute. reflexivity.
  - right. vm_compute. reflexivity.
Defined.

(** The specification's sentence does not hold when the quotient
    underflows: for a product of 1000 mm x 1000 mm with [box_moq = 1] and
    the smallest positive coverage, [2^-1074] (the JSON number [5e-324]),
    the quotient rounds to 0 and the resolved quantity is 0. *)
Lemma C9_counterexample :
  ~ (forall l w c m,
       PrimFloat.ltb 0%float l = true ->
       PrimFloat.ltb 0%float w = true ->
       PrimFloat.ltb 0%float c = true ->
       1 <= m <= int4_max ->
       exists z,
         JS.integer_value (calculateTileQuantity l w c (Some (JS.of_Z m)))
           = Some z /\
         1 <= z).
Proof.
  intros H.
  destruct (H 1000%float 1000%float 0x1p-1074%float 1)
    as (z & Hz & Hge); try (vm_compute; reflexivity).
  - unfold int4_max. lia.
  - assert (JS.integer_value
              (calculateTileQuantity 1000 1000 0x1p-1074 (Some (JS.of_Z 1)))
            = Some 0) as Hv by (vm_compute; reflexivity).
    rewrite Hv in Hz. injection Hz as <-. lia.
Qed.

(** The same line goes through the whole handler: the request is valid and
    the order is created with quantity 0. *)
Example zero_quantity_order_created :
  (post_order (store (<[pidA := tile 1000 1000 1 10]> ∅)) "user"
     (cart [line pidA 1 (Some 0x1p-1074%float)])).2
  = Created 0
      (new_order "user" [line pidA 0 (Some 0x1p-1074%float)]
         1499.95%float someAddress)
      [line pidA 0 (Some 0x1p-1074%float)].
Proof. vm_compute. reflexivity. Qed.

(** ** The order record and the stock deductions agree (C10) *)

(** C10. When order placement answers 201, the items it returns are the
    items of the persisted order row, these are the resolved lines
    ([adjustedItems]), and going through them in order the stock table was
    decremented, line by line, by exactly the integer each stored quantity
    denotes. *)
Theorem C10_order_and_stock_agree db userId body db' order_id order its :
  post_order db userId body = (db', Created order_id order its) ->
  its = items order /\
  items order = adjustedItems (products db) (b_items body) /\
  orders db' !! order_id = Some order /\
  status order = st_pending /\
  deducts (products db) (items order) (products db').
Proof.
  intros Hpost.
  destruct (validateOrder body) as [|err errs] eqn:Hv.
  - destruct (post_order_valid db userId body Hv)
      as (total & addr & _ & _ & Heq).
    cbv zeta in Heq. rewrite Heq in Hpost. clear Heq.
    destruct (stock_loop (products db)
                (adjustedItems (products db) (b_items body)))
      as [ps' [e|]] eqn:Hloop; [discriminate|].
    injection Hpost as <- <- <- <-. simpl.
    repeat split; [|by apply stock_loop_deducts].
    rewrite lookup_app_r by lia. by rewrite Nat.sub_diag.
  - unfold post_order, create_order in Hpost. rewrite Hv in Hpost.
    discriminate.
Qed.

Lemma C10_witness :
  let r := post_order (store twoTiles) "user" coverageCart in
  exists order,
    r.2 = Created 0 order [line pidA 10 (Some 9%float)] /\
    items order = [line pidA 10 (Some 9%float)] /\
    deducts twoTiles (items order) (products r.1) /\
    stock <$> products r.1 !! pidA = Some (Some 0).
Proof.
  pose proof (C10_order_and_stock_agree
                (store twoTiles) "user" coverageCart
                (post_order (store twoTiles) "user" coverageCart).1
                0%nat
                (new_order "user" [line pidA 10 (Some 9%float)]
                   1499.95%float someAddress)
                [line pidA 10 (Some 9%float)]) as H.
  destruct H as (_ & _ & _ & _ & Hded); [vm_compute; reflexivity|].
  eexists. split; [vm_compute; reflexivity|].
  split; [reflexivity|]. split; [exact Hded|vm_compute; reflexivity].
Defined.

(** * Further properties of the code *)

(** ** The models on sample values *)

Example hasPermission_samples :
  hasPermission "dealer" "orders" "update" = true /\
  hasPermission "builder" "orders" "update" = false /\
  hasPermission "salesperson" "cart" "create" = false /\
  hasPermission "admin" "users" "delete" = true /\
  hasPermission "manager" "orders" "read" = false /\
  hasPermission "builder" "invoices" "read" = false /\
  hasPermission "builder" "orders" "cancel" = false.
Proof. repeat split; vm_compute; reflexivity. Qed.

Example checkPermission_samples :
  let profiles :=
    [ {| profile_user_id := "u1"; user_type := salesperson |};
      {| profile_user_id := "u2"; user_type := builder |};
      {| profile_user_id := "u3"; user_type := dealer |};
      {| profile_user_id := "u3"; user_type := dealer |} ] in
  checkPermission "orders" "create" profiles "u2" = Next "builder" /\
  checkPermission "orders" "create" profiles "u1"
    = Forbidden "Insufficient permissions for create on orders" /\
  checkPermission "orders" "read" profiles "u0"
    = Forbidden "User profile not found" /\
  checkPermission "orders" "read" profiles "u3"
    = Forbidden "User profile not found".
Proof. repeat split; vm_compute; reflexivity. Qed.

Example decimal_samples :
  decimal 0 = "0" /\ decimal 7 = "7" /\ decimal 1010 = "1010" /\
  decimal 9007199254740991 = "9007199254740991" /\
  digits_value 0 (list_ascii_of_string "007") = Some 7 /\
  digits_value 0 (list_ascii_of_string "") = Some 0 /\
  digits_value 0 (list_ascii_of_string "12a") = None /\
  generateOTP 123456 = "123456".
Proof. repeat split; vm_compute; reflexivity. Qed.

(** [(2 - 1) * "10"] is 10 and [10 + "10" - 1] is ["1010" - 1]. *)
Example coercion_samples :
  ToNumber (Str "10") = Some 10%float /\
  ToNumber (Str "") = Some 0%float /\
  ToNumber (Str "1e3") = None /\
  ToString (Num 1010) = Some "1010" /\
  ToString (Num 0.5) = None /\
  js_add (Num 10) (Num 20) = Some (Num 30) /\
  js_add (Num 10) (Str "10") = Some (Str "1010") /\
  parseInt (Str "20") = Some 20%float /\
  parseInt (Num 1) = Some 1%float /\
  range_bounds (page_of None) (limit_of None) = Some (0%float, 19%float) /\
  range_bounds (page_of (Some "2")) (limit_of None)
    = Some (20%float, 39%float) /\
  range_bounds (page_of (Some "1")) (limit_of (Some "10"))
    = Some (0%float, 9%float) /\
  range_bounds (page_of (Some "2")) (limit_of (Some "10"))
    = Some (10%float, 1009%float).
Proof. repeat split; vm_compute; reflexivity. Qed.

Example category_stats_samples :
  let products :=
    [ {| p_price := 12.5; p_stock := Some 3%float; p_is_featured := None |};
      {| p_price := 7.25; p_stock := None; p_is_featured := Some true |};
      {| p_price := 10; p_stock := Some 0%float; p_is_featured := Some false |} ] in
  CategoryStats.category_stats products
    = {| CategoryStats.total_products := 3;
         CategoryStats.total_stock := 3;
         CategoryStats.out_of_stock := 1;
         CategoryStats.featured_products := 1;
         CategoryStats.min_price := 7.25;
         CategoryStats.max_price := 12.5;
         CategoryStats.avg_price := 9.916666666666666 |} /\
  CategoryDetail.categoryStats []
    = {| CategoryDetail.total_products := 0;
         CategoryDetail.total_stock := 0;
         CategoryDetail.min_price := 0;
         CategoryDetail.max_price := 0;
         CategoryDetail.avg_price := 0 |} /\
  Math_min 0 (-0) = (-0)%float /\
  Math_max (-0) 0 = 0%float /\
  Prim2SF (Math_min 1 nan) = S754_nan.
Proof. repeat split; vm_compute; reflexivity. Qed.

(** Two rows of one user, one of another, one whose product is gone:
    prices in hundredths, 12.50 * 2 + 3.99 * 3 = 36.97. *)
Example calculate_cart_total_samples :
  let price : gmap string Z := <[pidA := 1250]> (<[pidB := 399]> ∅) in
  let rows :=
    [ {| ci_user_id := Some "u1"; ci_product_id := Some pidA; ci_quantity := 2 |};
      {| ci_user_id := Some "u2"; ci_product_id := Some pidA; ci_quantity := 9 |};
      {| ci_user_id := Some "u1"; ci_product_id := Some pidB; ci_quantity := 3 |};
      {| ci_user_id := Some "u1"; ci_product_id := None; ci_quantity := 5 |} ] in
  calculate_cart_total price rows "u1" = 3697 /\
  calculate_cart_total price rows "u2" = 11250 /\
  calculate_cart_total price rows "u3" = 0.
Proof. repeat split; vm_compute; reflexivity. Qed.

(** ** The stock decrement as an operation *)

Section StockAlgebra.

Implicit Types (ps : gmap string product_row) (its : list Item).

Lemma set_stock_set_stock row s1 s2 :
  set_stock (set_stock row s1) s2 = set_stock row s2.
Proof. reflexivity. Qed.

Lemma update_product_stock_run ps pid q row s :
  ps !! pid = Some row -> stock row = Some s ->
  update_product_stock ps pid q
  = if q <=? s then
      if in_int4 (s - q)
      then SqlOk (<[pid := set_stock row (s - q)]> ps)
      else SqlError "integer out of range"
    else SqlError (insufficient_stock pid).
Proof. intros Hrow Hs. unfold update_product_stock. by rewrite Hrow, Hs. Qed.

Lemma in_int4_spec z : in_int4 z = true <-> int4_min <= z <= int4_max.
Proof. unfold in_int4. rewrite andb_true_iff, !Z.leb_le. done. Qed.

Lemma update_product_stock_in_int4 ps pid q ps' :
  stocks_in_int4 ps ->
  update_product_stock ps pid q = SqlOk ps' ->
  stocks_in_int4 ps'.
Proof.
  intros Hps Hup.
  apply update_product_stock_ok in Hup as (row & s & Hrow & Hs & _ & Hr & ->).
  intros pid' row' s' Hrow' Hs'.
  destruct (decide (pid' = pid)) as [->|Hne].
  - rewrite lookup_insert_eq in Hrow'. injection Hrow' as <-.
    simpl in Hs'. by injection Hs' as <-.
  - rewrite lookup_insert_ne in Hrow' by done. by eapply Hps.
Qed.


Lemma update_product_stock_swap ps p1 q1 p2 q2 ps1 ps2 :
  stocks_in_int4 ps -> 0 <= q1 -> 0 <= q2 ->
  update_product_stock ps p1 q1 = SqlOk ps1 ->
  update_product_stock ps1 p2 q2 = SqlOk ps2 ->
  exists ps1',
    update_product_stock ps p2 q2 = SqlOk ps1' /\
    update_product_stock ps1' p1 q1 = SqlOk ps2.
Proof.
  intros Hps Hq1 Hq2 H1 H2.
  apply update_product_stock_ok in H1
    as (row1 & s1 & Hrow1 & Hs1 & Hle1 & Hr1 & ->).
  apply update_product_stock_ok in H2
    as (row2 & s2 & Hrow2 & Hs2 & Hle2 & Hr2 & ->).
  pose proof (Hps _ _ _ Hrow1 Hs1) as Hin1.
  apply in_int4_spec in Hin1, Hr1, Hr2.
  destruct (decide (p2 = p1)) as [->|Hne].
  - rewrite lookup_insert_eq in Hrow2. injection Hrow2 as <-.
    simpl in Hs2. injection Hs2 as <-.
    eexists. split.
    + rewrite (update_product_stock_run _ _ _ _ _ Hrow1 Hs1).
      destruct (Z.leb_spec q2 s1); [|lia].
      assert (in_int4 (s1 - q2) = true) as -> by (apply in_int4_spec; lia).
      reflexivity.
    + erewrite update_product_stock_run;
        [|apply lookup_insert_eq|reflexivity].
      destruct (Z.leb_spec q1 (s1 - q2)); [|lia].
      assert (in_int4 (s1 - q2 - q1) = true) as ->
        by (apply in_int4_spec; lia).
      rewrite !insert_insert_eq, !set_stock_set_stock.
      by replace (s1 - q2 - q1) with (s1 - q1 - q2) by lia.
  - rewrite lookup_insert_ne in Hrow2 by done.
    pose proof (Hps _ _ _ Hrow2 Hs2) as Hin2. apply in_int4_spec in Hin2.
    eexists. split.
    + rewrite (update_product_stock_run _ _ _ _ _ Hrow2 Hs2).
      destruct (Z.leb_spec q2 s2); [|lia].
      assert (in_int4 (s2 - q2) = true) as -> by (apply in_int4_spec; lia).
      reflexivity.
    + erewrite update_product_stock_run;
        [|by rewrite lookup_insert_ne|exact Hs1].
      destruct (Z.leb_spec q1 s1); [|lia].
      assert (in_int4 (s1 - q1) = true) as -> by (apply in_int4_spec; lia).
      by rewrite insert_insert_ne.
Qed.

(** What a successful remote call did, in terms of the line. *)
Lemma rpc_update_product_stock_ok ps it ps' :
  rpc_update_product_stock ps it = SqlOk ps' ->
  exists q,
    quantity it = Some q /\
    JS.integer_value q = Some (line_quantity it) /\
    update_product_stock ps (product_id it) (line_quantity it) = SqlOk ps'.
Proof.
  unfold rpc_update_product_stock, rpc_quantity, line_quantity. intros H.
  destruct (quantity it) as [q|]; [|discriminate]. simpl.
  destruct (JS.integer_value q) as [z|] eqn:Hq; [|discriminate]. simpl.
  destruct (in_int4 z) eqn:Hz; [|discriminate].
  exists q. by rewrite Hq.
Qed.

Lemma rpc_update_product_stock_of_update ps it ps' q :
  quantity it = Some q ->
  JS.integer_value q = Some (line_quantity it) ->
  stocks_in_int4 ps ->
  0 <= line_quantity it ->
  update_product_stock ps (product_id it) (line_quantity it) = SqlOk ps' ->
  rpc_update_product_stock ps it = SqlOk ps'.
Proof.
  intros Hq Hz Hps Hnn Hup.
  unfold rpc_update_product_stock, rpc_quantity. rewrite Hq, Hz.
  apply update_product_stock_ok in Hup as Hok.
  destruct Hok as (row & s & Hrow & Hs & Hle & _ & _).
  pose proof (Hps _ _ _ Hrow Hs) as Hin. apply in_int4_spec in Hin.
  assert (in_int4 (line_quantity it) = true) as ->; [|done].
  apply in_int4_spec. unfold int4_min, int4_max in *. lia.
Qed.

Lemma stock_loop_swap ps x y its ps' :
  stocks_in_int4 ps ->
  0 <= line_quantity x -> 0 <= line_quantity y ->
  stock_loop ps (y :: x :: its) = (ps', None) ->
  stock_loop ps (x :: y :: its) = (ps', None).
Proof.
  intros Hps Hx Hy. cbn [stock_loop].
  destruct (rpc_update_product_stock ps y) as [ps1|] eqn:H1; [|discriminate].
  destruct (rpc_update_product_stock ps1 x) as [ps2|] eqn:H2; [|discriminate].
  intros Hrest.
  apply rpc_update_product_stock_ok in H1 as (qy & Hqy & Hzy & H1).
  apply rpc_update_product_stock_ok in H2 as (qx & Hqx & Hzx & H2).
  destruct (update_product_stock_swap _ _ _ _ _ _ _ Hps Hy Hx H1 H2)
    as (ps1' & H1' & H2').
  rewrite (rpc_update_product_stock_of_update _ _ _ _ Hqx Hzx Hps Hx H1').
  rewrite (rpc_update_product_stock_of_update _ _ _ _ Hqy Hzy
             (update_product_stock_in_int4 _ _ _ _ Hps H1') Hy H2').
  exact Hrest.
Qed.

Lemma ordered_cons pid it its :
  ordered pid (it :: its)
  = (if decide (product_id it = pid) then line_quantity it else 0)
    + ordered pid its.
Proof.
  unfold ordered. rewrite filter_cons.
  by destruct (decide (product_id it = pid)).
Qed.

Lemma stock_loop_balance its ps ps' pid row :
  stock_loop ps its = (ps', None) ->
  ps !! pid = Some row ->
  exists row',
    ps' !! pid = Some row' /\
    stock row' = (fun s => s - ordered pid its) <$> stock row.
Proof.
  revert ps row. induction its as [|it its IH]; intros ps row Hloop Hrow.
  - injection Hloop as <-. exists row. split; [done|].
    destruct (stock row); simpl; [f_equal; unfold ordered; simpl; lia|done].
  - cbn [stock_loop] in Hloop.
    destruct (rpc_update_product_stock ps it) as [ps1|] eqn:H1; [|discriminate].
    apply rpc_update_product_stock_ok in H1 as (q & Hq & Hz & H1).
    apply update_product_stock_ok in H1
      as (row0 & s0 & Hrow0 & Hs0 & _ & _ & ->).
    rewrite ordered_cons.
    destruct (decide (product_id it = pid)) as [Heq|Hne].
    + subst pid. rewrite Hrow in Hrow0. injection Hrow0 as <-.
      destruct (IH _ (set_stock row (s0 - line_quantity it)) Hloop)
        as (row' & Hrow' & Hs'); [apply lookup_insert_eq|].
      exists row'. split; [done|]. rewrite Hs', Hs0. simpl.
      f_equal. lia.
    + destruct (IH _ row Hloop) as (row' & Hrow' & Hs');
        [by rewrite lookup_insert_ne|].
      exists row'. split; [done|]. rewrite Hs'.
      destruct (stock row); simpl; [f_equal; lia|done].
Qed.


Lemma stocks_in_int4_b_correct ps :
  stocks_in_int4_b ps = true -> stocks_in_int4 ps.
Proof.
  unfold stocks_in_int4_b, stocks_in_int4. rewrite forallb_forall.
  intros Hall pid row s Hrow Hs.
  specialize (Hall (pid, row)). simpl in Hall. rewrite Hs in Hall.
  apply Hall, list_elem_of_In. by apply elem_of_map_to_list.
Qed.

(** The loop writes the [stock] column only, and adds or removes no row. *)
Lemma stock_loop_frame its ps pid :
  length_mm <$> (stock_loop ps its).1 !! pid = length_mm <$> ps !! pid /\
  width_mm <$> (stock_loop ps its).1 !! pid = width_mm <$> ps !! pid /\
  box_moq <$> (stock_loop ps its).1 !! pid = box_moq <$> ps !! pid.
Proof.
  revert ps. induction its as [|it its IH]; intros ps; [done|].
  cbn [stock_loop].
  destruct (rpc_update_product_stock ps it) as [ps1|] eqn:H1; [|done].
  apply rpc_update_product_stock_ok in H1 as (q & _ & _ & H1).
  apply update_product_stock_ok in H1 as (row & s & Hrow & _ & _ & _ & ->).
  destruct (IH (<[product_id it := set_stock row (s - line_quantity it)]> ps))
    as (Hl & Hw & Hm).
  rewrite Hl, Hw, Hm.
  destruct (decide (pid = product_id it)) as [->|Hne].
  - by rewrite lookup_insert_eq, Hrow.
  - by rewrite lookup_insert_ne.
Qed.



End StockAlgebra.

(** ** What the guard keeps of a line *)





(** ** The outcomes of the handler *)

(** The three outcomes of the handler, each with the store it leaves. *)
Lemma post_order_cases db userId body :
  let adjusted := adjustedItems (products db) (b_items body) in
  (validateOrder body <> [] /\
   post_order db userId body = (db, BadRequest (validateOrder body))) \/
  (validateOrder body = [] /\
   exists total addr,
     totalAmount body = Some total /\ shippingAddress body = Some addr /\
     let order := new_order userId adjusted total addr in
     ((exists e, (stock_loop (products db) adjusted).2 = Some e) /\
      post_order db userId body =
        ({| products := (stock_loop (products db) adjusted).1;
            orders := orders db ++ [cancel order];
            admin_notifications := admin_notifications db |},
         ServerError "Failed to update product stock" true)) \/
     ((stock_loop (products db) adjusted).2 = None /\
      post_order db userId body =
        ({| products := (stock_loop (products db) adjusted).1;
            orders := orders db ++ [order];
            admin_notifications :=
              admin_notifications db ++
              [ {| n_type := "new_order"; n_user_id := userId;
                   n_order := length (orders db); n_status := "unread" |} ] |},
         Created (length (orders db)) order adjusted))).
Proof.
  intros adjusted. destruct (validateOrder body) as [|err errs] eqn:Hv.
  - right. split; [done|].
    destruct (post_order_valid db userId body Hv)
      as (total & addr & Ht & Ha & Hpost).
    exists total, addr. split; [done|]. split; [done|].
    cbv zeta in Hpost. fold adjusted in Hpost. rewrite Hpost. cbv zeta.
    destruct (stock_loop (products db) adjusted) as [ps' [e|]]; simpl.
    + left. split; [eauto|]. do 2 f_equal.
      rewrite alter_app_r_alt by done. by rewrite Nat.sub_diag.
    + right. done.
  - left. split; [done|].
    unfold post_order, create_order. by rewrite Hv.
Qed.

(** X1. Two decrements of the same product in a row act as one decrement by
    the sum: for a stock within the range of [integer] and quantities that
    are not negative, the two calls both succeed exactly when the single
    call by [q1 + q2] does, and they leave the same table. *)
Theorem successive_decrements_add
    (ps : gmap string product_row) pid q1 q2 row s ps2 :
  ps !! pid = Some row ->
  stock row = Some s ->
  in_int4 s = true ->
  0 <= q1 -> 0 <= q2 ->
  (exists ps1,
     update_product_stock ps pid q1 = SqlOk ps1 /\
     update_product_stock ps1 pid q2 = SqlOk ps2)
  <-> update_product_stock ps pid (q1 + q2) = SqlOk ps2.
Proof.
  intros Hrow Hs Hin Hq1 Hq2. apply in_int4_spec in Hin.
  rewrite (update_product_stock_run _ _ (q1 + q2) _ _ Hrow Hs).
  split.
  - intros (ps1 & H1 & H2).
    rewrite (update_product_stock_run _ _ _ _ _ Hrow Hs) in H1.
    destruct (Z.leb_spec q1 s); [|discriminate].
    destruct (in_int4 (s - q1)) eqn:Hr1; [|discriminate].
    injection H1 as <-.
    erewrite update_product_stock_run in H2;
      [|apply lookup_insert_eq|reflexivity].
    destruct (Z.leb_spec q2 (s - q1)); [|discriminate].
    destruct (in_int4 (s - q1 - q2)) eqn:Hr2; [|discriminate].
    injection H2 as <-.
    destruct (Z.leb_spec (q1 + q2) s); [|lia].
    replace (s - (q1 + q2)) with (s - q1 - q2) by lia. rewrite Hr2.
    by rewrite insert_insert_eq.
  - destruct (Z.leb_spec (q1 + q2) s); [|discriminate].
    destruct (in_int4 (s - (q1 + q2))) eqn:Hr; [|discriminate].
    intros [= <-]. apply in_int4_spec in Hr.
    exists (<[pid := set_stock row (s - q1)]> ps). split.
    + rewrite (update_product_stock_run _ _ _ _ _ Hrow Hs).
      destruct (Z.leb_spec q1 s); [|lia].
      by assert (in_int4 (s - q1) = true) as -> by (apply in_int4_spec; lia).
    + erewrite update_product_stock_run;
        [|apply lookup_insert_eq|reflexivity].
      destruct (Z.leb_spec q2 (s - q1)); [|lia].
      assert (in_int4 (s - q1 - q2) = true) as ->
        by (apply in_int4_spec; lia).
      rewrite insert_insert_eq, set_stock_set_stock.
      by replace (s - (q1 + q2)) with (s - q1 - q2) by lia.
Qed.

Lemma successive_decrements_add_witness :
  (exists ps1,
     update_product_stock twoTiles pidA 3 = SqlOk ps1 /\
     update_product_stock ps1 pidA 2 = SqlOk afterFirstLine)
  <-> update_product_stock twoTiles pidA (3 + 2) = SqlOk afterFirstLine.
Proof.
  apply (successive_decrements_add twoTiles pidA 3 2 (tile 300 300 1 10) 10).
  - reflexivity.
  - reflexivity.
  - reflexivity.
  - lia.
  - lia.
Defined.

(** X2. The outcome of a stock loop that goes through does not depend on
    the order of the lines: when every stock is within the range of
    [integer] and no line asks for a negative quantity, the loop over any
    reordering of the lines goes through as well and leaves the same
    table. *)
Theorem stock_loop_order_irrelevant
    (ps : gmap string product_row) (its its' : list Item) ps' :
  stocks_in_int4 ps ->
  (forall it, it ∈ its -> 0 <= line_quantity it) ->
  its ≡ₚ its' ->
  stock_loop ps its = (ps', None) ->
  stock_loop ps its' = (ps', None).
Proof.
  intros Hps Hnn Hperm. revert ps Hps Hnn.
  induction Hperm as [|x l l' Hperm IH|x y l|l l' l'' H1 IH1 H2 IH2];
    intros ps Hps Hnn Hloop.
  - done.
  - cbn [stock_loop] in *.
    destruct (rpc_update_product_stock ps x) as [ps1|] eqn:Hx; [|discriminate].
    apply IH; [|by intros it Hit; apply Hnn; right|done].
    apply rpc_update_product_stock_ok in Hx as (q & _ & _ & Hx).
    by eapply update_product_stock_in_int4.
  - apply stock_loop_swap; [done| | |done]; apply Hnn.
    + right; left.
    + left.
  - apply IH2; [done| |by apply IH1].
    intros it Hit. apply Hnn. by rewrite H1.
Qed.

Lemma stock_loop_order_irrelevant_witness :
  stock_loop twoTiles [line pidA 2 None; line pidA 3 None]
  = (afterFirstLine, None).
Proof.
  apply (stock_loop_order_irrelevant
           twoTiles [line pidA 3 None; line pidA 2 None]).
  - apply stocks_in_int4_b_correct. vm_compute. reflexivity.
  - intros it Hit.
    repeat (apply elem_of_cons in Hit as [->|Hit]); [by vm_compute..|].
    by apply elem_of_nil in Hit.
  - apply perm_swap.
  - vm_compute. reflexivity.
Defined.

(** X3. When order placement answers 201, the stock of every product is
    its stock before the request less the total its lines ask of that
    product, the quantities being the resolved ones the response returns;
    a product no line names keeps its stock. *)
Theorem created_order_stock_balance
    db userId body db' order_id order its pid row :
  post_order db userId body = (db', Created order_id order its) ->
  products db !! pid = Some row ->
  exists row',
    products db' !! pid = Some row' /\
    stock row' = (fun s => s - ordered pid its) <$> stock row /\
    (pid ∉ product_id <$> its -> stock row' = stock row).
Proof.
  intros Hpost Hrow.
  destruct (post_order_cases db userId body)
    as [[_ H]|(_ & total & addr & _ & _ & [[_ H]|[Hok H]])];
    rewrite H in Hpost; try discriminate.
  injection Hpost as <- _ _ <-. cbn [products].
  destruct (stock_loop (products db)
              (adjustedItems (products db) (b_items body)))
    as [ps' e] eqn:Hloop.
  simpl in Hok. subst e. cbn [fst].
  destruct (stock_loop_balance _ _ _ pid row Hloop Hrow) as (row' & Hrow' & Hs).
  exists row'. split; [done|]. split; [done|].
  intros Hnot. rewrite Hs.
  assert (ordered pid (adjustedItems (products db) (b_items body)) = 0) as ->.
  { clear -Hnot.
    induction (adjustedItems (products db) (b_items body)) as [|it l IH];
      [done|].
    rewrite fmap_cons in Hnot. apply not_elem_of_cons in Hnot as [Hne Hnot].
    rewrite ordered_cons, IH by done.
    by destruct (decide (product_id it = pid)). }
  destruct (stock row); simpl; [f_equal; lia|done].
Qed.

Lemma created_order_stock_balance_witness :
  exists row',
    products (post_order (store twoTiles) "user" coverageCart).1 !! pidA
      = Some row' /\
    stock row'
      = (fun s => s - ordered pidA [line pidA 10 (Some 9%float)])
          <$> stock (tile 300 300 1 10) /\
    (pidA ∉ product_id <$> [line pidA 10 (Some 9%float)] ->
     stock row' = stock (tile 300 300 1 10)).
Proof.
  apply (created_order_stock_balance
           (store twoTiles) "user" coverageCart _ 0%nat
           (new_order "user" [line pidA 10 (Some 9%float)]
              1499.95%float someAddress)).
  - vm_compute. reflexivity.
  - reflexivity.
Defined.

(** X4. Order placement never adds or removes a product and never writes
    the catalogue columns it reads: whatever the request and its outcome,
    every product keeps its [length_mm], [width_mm] and [box_moq]. *)
Theorem post_order_keeps_catalog db userId body pid :
  let db' := (post_order db userId body).1 in
  length_mm <$> products db' !! pid = length_mm <$> products db !! pid /\
  width_mm <$> products db' !! pid = width_mm <$> products db !! pid /\
  box_moq <$> products db' !! pid = box_moq <$> products db !! pid.
Proof.
  cbv zeta.
  destruct (post_order_cases db userId body)
    as [[_ H]|(_ & total & addr & _ & _ & [[_ H]|[_ H]])];
    rewrite H; cbn [fst products]; [done|apply stock_loop_frame..].
Qed.

(** X5. Order placement only appends: the orders and the admin
    notifications already stored stay as they are, at most one order is
    added and it belongs to the caller, and one notification is added
    exactly when the answer is 201; an error answer adds none. *)
Theorem post_order_appends db userId body :
  let db' := (post_order db userId body).1 in
  let response := (post_order db userId body).2 in
  exists new_orders new_notifications,
    orders db' = orders db ++ new_orders /\
    admin_notifications db' = admin_notifications db ++ new_notifications /\
    (length new_orders <= 1)%nat /\
    (forall o, o ∈ new_orders -> user_id o = userId) /\
    length new_notifications = (if is_error response then 0 else 1)%nat.
Proof.
  cbv zeta.
  destruct (post_order_cases db userId body)
    as [[_ H]|(_ & total & addr & _ & _ & [[_ H]|[_ H]])];
    rewrite H; cbn [fst snd orders admin_notifications is_error].
  - exists [], []. rewrite !app_nil_r. repeat split; [simpl; lia|].
    intros o Ho. by apply elem_of_nil in Ho.
  - eexists [_], []. rewrite !app_nil_r. repeat split; [simpl; lia|].
    intros o Ho. apply list_elem_of_singleton in Ho. by subst o.
  - eexists [_], [_]. repeat split; [simpl; lia|].
    intros o Ho. apply list_elem_of_singleton in Ho. by subst o.
Qed.






(** ** What validation accepts *)









(** ** Role-based access control *)

Section Rbac.

Lemma lookup_list_to_map_assoc {A} (l : list (string * A)) r :
  (list_to_map l : gmap string A) !! r = assoc l r.
Proof.
  induction l as [|[k v] l IH]; [apply lookup_empty|].
  cbn [list_to_map foldr assoc]. simpl. destruct (decide (r = k)) as [->|Hne].
  - by rewrite lookup_insert_eq.
  - by rewrite lookup_insert_ne.
Qed.

(** The permissions of the five roles, resource by resource. *)
Lemma hasPermission_table userType resource action :
  userType ∈ ["builder"; "architect"; "dealer"; "salesperson"; "admin"] ->
  hasPermission userType resource action = true <->
  (resource = "products" /\
     (action = "read" \/
      userType = "admin" /\ action ∈ ["create"; "update"; "delete"])) \/
  (resource = "orders" /\
     (action = "read" \/
      userType <> "salesperson" /\ action = "create" \/
      (userType = "dealer" \/ userType = "admin") /\ action = "update" \/
      userType = "admin" /\ action = "delete")) \/
  (resource = "cart" /\
     (action = "read" \/
      userType <> "salesperson" /\ action ∈ ["create"; "update"; "delete"])) \/
  (resource = "users" /\ userType = "admin" /\
     action ∈ ["create"; "read"; "update"; "delete"]).
Proof.
  intros Hu. unfold hasPermission, ROLE_PERMISSIONS.
  repeat (apply elem_of_cons in Hu as [->|Hu]);
    [..|by apply elem_of_nil in Hu];
    rewrite lookup_list_to_map_assoc; cbn [assoc];
    rewrite ?decide_False by done; rewrite decide_True by done;
    rewrite lookup_list_to_map_assoc; cbn [assoc];
    repeat (destruct (decide (resource = _)) as [->|?]; simpl);
    rewrite ?bool_decide_eq_true, ?elem_of_cons, ?elem_of_nil;
    intuition congruence.
Qed.

Lemma user_type_label_role t :
  user_type_label t ∈ ["builder"; "architect"; "dealer"; "salesperson"; "admin"].
Proof. apply list_elem_of_In. destruct t; simpl; tauto. Qed.

Lemma single_Some {A} (rows : list A) row :
  single rows = Some row <-> rows = [row].
Proof.
  destruct rows as [|r [|r' rows]]; simpl; split; intros H;
    try discriminate; congruence.
Qed.

(** When the middleware lets a request through. *)
Lemma checkPermission_Next resource action user_profiles userId userType :
  checkPermission resource action user_profiles userId = Next userType <->
  exists user,
    filter (fun p => profile_user_id p = userId) user_profiles = [user] /\
    userType = user_type_label (user_type user) /\
    hasPermission userType resource action = true.
Proof.
  unfold checkPermission. split.
  - destruct (single _) as [user|] eqn:Hs; [|discriminate].
    apply single_Some in Hs. cbv zeta.
    destruct (hasPermission _ resource action) eqn:Hp; [|discriminate].
    intros [= <-]. by exists user.
  - intros (user & Hf & -> & Hp). rewrite Hf. simpl. by rewrite Hp.
Qed.

End Rbac.

(** X11. The roles are nested: whatever a salesperson may do a builder may
    do, builders and architects may do exactly the same, whatever a builder
    may do a dealer may do, and whatever a dealer may do an admin may
    do. *)
Theorem role_permissions_nest resource action :
  (hasPermission "salesperson" resource action = true ->
   hasPermission "builder" resource action = true) /\
  hasPermission "architect" resource action
    = hasPermission "builder" resource action /\
  (hasPermission "builder" resource action = true ->
   hasPermission "dealer" resource action = true) /\
  (hasPermission "dealer" resource action = true ->
   hasPermission "admin" resource action = true).
Proof.
  assert (forall u,
            In u ["builder"; "architect"; "dealer"; "salesperson"; "admin"] ->
            u ∈ ["builder"; "architect"; "dealer"; "salesperson"; "admin"])
    as Hin by (intros u; apply list_elem_of_In).
  rewrite Bool.eq_iff_eq_true.
  rewrite !hasPermission_table by (apply Hin; simpl; tauto).
  rewrite ?elem_of_cons, ?elem_of_nil.
  repeat split; intros H; intuition congruence.
Qed.

(** X12. No caller passes the check of an admin action. The user type the
    middleware reads is a value of [user_type_enum], which has no admin:
    whoever the caller and whatever the profiles, a request that
    [checkPermission] lets through is not on [users], reads when it is on
    [products], does not delete when it is on [orders], and comes from a
    dealer when it updates an order. The routes that create, update and
    delete products therefore answer 403 to every caller. *)
Theorem no_profile_passes_admin_checks
    resource action user_profiles userId userType :
  checkPermission resource action user_profiles userId = Next userType ->
  resource <> "users" /\
  (resource = "products" -> action = "read") /\
  (resource = "orders" -> action <> "delete") /\
  (resource = "orders" -> action = "update" -> userType = "dealer").
Proof.
  intros H. apply checkPermission_Next in H as (user & _ & -> & Hp).
  apply hasPermission_table in Hp; [|apply user_type_label_role].
  rewrite ?elem_of_cons, ?elem_of_nil in Hp.
  destruct (user_type user); simpl in *; intuition congruence.
Qed.

Lemma no_profile_passes_admin_checks_witness :
  "products" <> "users" /\
  ("products" = "products" -> "read" = "read") /\
  ("products" = "orders" -> "read" <> "delete") /\
  ("products" = "orders" -> "read" = "update" -> "builder" = "dealer").
Proof.
  apply (no_profile_passes_admin_checks "products" "read"
           [ {| profile_user_id := "user"; user_type := builder |} ] "user").
  vm_compute. reflexivity.
Defined.

(** X13. The route [POST /] changes the store only for an authorised
    caller with a valid request: when the store after the request differs
    from the store before it, the caller has exactly one profile, its user
    type is builder, architect or dealer, and the request body passed
    validation. A salesperson, a caller without a profile and a caller
    with several profiles leave the store as it was. *)
Theorem post_orders_route_access_control user_profiles db userId body :
  (post_orders_route user_profiles db userId body).1 <> db ->
  validateOrder body = [] /\
  exists user,
    filter (fun p => profile_user_id p = userId) user_profiles = [user] /\
    user_type user <> salesperson.
Proof.
  unfold post_orders_route.
  destruct (checkPermission "orders" "create" user_profiles userId)
    as [userType|details] eqn:Hgate; [|done].
  cbn [fst]. intros Hchanged. split.
  - destruct (validateOrder body) as [|err errs] eqn:Hv; [done|].
    destruct (post_order_cases db userId body) as [[_ H]|[Hv' _]];
      [|congruence].
    by rewrite H in Hchanged.
  - apply checkPermission_Next in Hgate as (user & Hf & -> & Hp).
    exists user. split; [done|]. intros Hs. rewrite Hs in Hp. done.
Qed.

Lemma post_orders_route_access_control_witness :
  validateOrder twoLineCart = [] /\
  exists user,
    filter (fun p => profile_user_id p = "user")
      [ {| profile_user_id := "user"; user_type := dealer |} ] = [user] /\
    user_type user <> salesperson.
Proof.
  apply (post_orders_route_access_control
           [ {| profile_user_id := "user"; user_type := dealer |} ]
           (store twoTiles) "user" twoLineCart).
  intros H. apply (f_equal orders) in H. vm_compute in H. discriminate.
Defined.

(** X14. What a profile opens. A caller with exactly one profile passes
    the [read] checks on [orders] and on [products] whatever the user
    type, so the routes guarded by [checkPermission('orders', 'read')]
    alone, the list of all orders ([GET /admin/orders]) and the status of
    any order ([GET /:orderId/status]) among them, are open to every
    role; the [create] check on [orders] is passed by every user type but
    salesperson. *)
Theorem every_profile_reads_orders user_profiles userId user :
  filter (fun p => profile_user_id p = userId) user_profiles = [user] ->
  let userType := user_type_label (user_type user) in
  checkPermission "orders" "read" user_profiles userId = Next userType /\
  checkPermission "products" "read" user_profiles userId = Next userType /\
  (checkPermission "orders" "create" user_profiles userId = Next userType
   <-> user_type user <> salesperson).
Proof.
  intros Hf userType. unfold checkPermission. rewrite Hf. cbn [single].
  unfold userType.
  destruct (user_type user); cbn [user_type_label];
    (split; [reflexivity|split; [reflexivity|]]);
    vm_compute; split; intros H; try done; by exfalso; apply H.
Qed.

Lemma every_profile_reads_orders_witness :
  let user := {| profile_user_id := "user"; user_type := salesperson |} in
  let userType := user_type_label (user_type user) in
  checkPermission "orders" "read" [user] "user" = Next userType /\
  checkPermission "products" "read" [user] "user" = Next userType /\
  (checkPermission "orders" "create" [user] "user" = Next userType
   <-> user_type user <> salesperson).
Proof.
  apply (every_profile_reads_orders
           [ {| profile_user_id := "user"; user_type := salesperson |} ]).
  reflexivity.
Defined.

(** ** Decimal numerals *)

Section Decimal.

Lemma digit_value_char d : 0 <= d < 10 -> digit_value (digit_char d) = Some d.
Proof.
  intros Hd. unfold digit_value, digit_char.
  rewrite nat_ascii_embedding by lia.
  destruct (Z.leb_spec 48 (Z.of_nat (48 + Z.to_nat d))); [|lia].
  destruct (Z.leb_spec (Z.of_nat (48 + Z.to_nat d)) 57); [|lia].
  simpl. f_equal. lia.
Qed.

Lemma digits_value_app acc l1 l2 :
  digits_value acc (l1 ++ l2) = digits_value acc l1 ≫= fun a => digits_value a l2.
Proof.
  revert acc. induction l1 as [|c l1 IH]; intros acc; [done|].
  cbn [app digits_value]. destruct (digit_value c) as [d|]; [apply IH|done].
Qed.

(** The digits printed for [z], most significant first: there are [k + 1]
    of them when [10^k <= z < 10^(k+1)], they are put before [rest], and
    read back they give [z]. *)
Lemma decimal_digits_spec fuel z rest :
  0 <= z < 10 ^ Z.of_nat fuel -> (0 < fuel)%nat ->
  exists pre,
    decimal_digits fuel z rest = pre ++ rest /\
    (forall acc,
       digits_value acc pre = Some (acc * 10 ^ Z.of_nat (length pre) + z)) /\
    (0 < length pre)%nat /\
    z < 10 ^ Z.of_nat (length pre) /\
    (0 < z -> 10 ^ (Z.of_nat (length pre) - 1) <= z).
Proof.
  revert z rest. induction fuel as [|fuel IH]; intros z rest Hz Hf; [lia|].
  cbn [decimal_digits].
  destruct (Z.ltb_spec z 10) as [Hlt|Hge].
  - exists [digit_char (z mod 10)]. rewrite Z.mod_small by lia.
    split; [done|]. split; [|simpl; lia].
    intros acc. cbn [digits_value length].
    rewrite digit_value_char by lia. cbn [mbind option_bind]. f_equal. lia.
  - assert (0 < fuel)%nat as Hf'.
    { destruct fuel; [|lia]. simpl in Hz. lia. }
    assert (0 <= z / 10 < 10 ^ Z.of_nat fuel) as Hz'.
    { split; [apply Z.div_pos; lia|].
      apply Z.div_lt_upper_bound; [lia|].
      rewrite Nat2Z.inj_succ, Z.pow_succ_r in Hz by lia. lia. }
    destruct (IH (z / 10) (digit_char (z mod 10) :: rest) Hz' Hf')
      as (pre & Heq & Hval & Hlen & Hub & Hlb).
    exists (pre ++ [digit_char (z mod 10)]).
    pose proof (Z.mod_pos_bound z 10 ltac:(lia)) as Hm.
    pose proof (Z.div_mod z 10 ltac:(lia)) as Hdm.
    split; [by rewrite Heq, <- app_assoc|].
    rewrite length_app. simpl length.
    replace (Z.of_nat (length pre + 1)) with (Z.succ (Z.of_nat (length pre)))
      by lia.
    rewrite Z.pow_succ_r by lia.
    split; [|split; [lia|split]].
    + intros acc. rewrite digits_value_app, Hval.
      cbn [mbind option_bind digits_value].
      rewrite digit_value_char by lia. cbn [mbind option_bind]. f_equal. lia.
    + lia.
    + intros _. replace (Z.succ (Z.of_nat (length pre)) - 1)
        with (Z.succ (Z.of_nat (length pre) - 1)) by lia.
      rewrite Z.pow_succ_r by lia.
      assert (0 < z / 10) as Hpos by (apply Z.div_str_pos; lia).
      specialize (Hlb Hpos). lia.
Qed.

Lemma length_string_of_list_ascii cs :
  String.length (string_of_list_ascii cs) = length cs.
Proof. induction cs as [|c cs IH]; simpl; congruence. Qed.

Lemma pow10_lt_inv a b : 0 <= a -> 0 <= b -> 10 ^ a < 10 ^ b -> a < b.
Proof.
  intros Ha Hb H. destruct (Z.lt_ge_cases a b) as [|Hge]; [done|].
  pose proof (Z.pow_le_mono_r 10 b a ltac:(lia) Hge). lia.
Qed.

(** The numeral of [z] has [k + 1] digits when [10^k <= z < 10^(k+1)]. *)
Lemma length_decimal z k :
  0 <= k < 21 -> 10 ^ k <= z < 10 ^ (k + 1) ->
  String.length (decimal z) = Z.to_nat (k + 1).
Proof.
  intros Hk Hz. unfold decimal. rewrite length_string_of_list_ascii.
  assert (0 < 10 ^ k) as Hpos by (apply Z.pow_pos_nonneg; lia).
  assert (10 ^ (k + 1) <= 10 ^ 21) as Hle by (apply Z.pow_le_mono_r; lia).
  destruct (decimal_digits_spec 21 z []) as (pre & -> & _ & Hlen & Hub & Hlb);
    [change (Z.of_nat 21) with 21; lia|lia|].
  rewrite app_nil_r. specialize (Hlb ltac:(lia)).
  assert (k < Z.of_nat (length pre)) by (apply pow10_lt_inv; lia).
  assert (Z.of_nat (length pre) - 1 < k + 1) by (apply pow10_lt_inv; lia).
  lia.
Qed.

Lemma digits_value_decimal z acc :
  0 <= z < 10 ^ 21 ->
  exists n,
    String.length (decimal z) = n /\
    digits_value acc (list_ascii_of_string (decimal z))
    = Some (acc * 10 ^ Z.of_nat n + z).
Proof.
  intros Hz. unfold decimal.
  rewrite length_string_of_list_ascii, list_ascii_of_string_of_list_ascii.
  destruct (decimal_digits_spec 21 z []) as (pre & -> & Hval & _);
    [change (Z.of_nat 21) with 21; lia|lia|].
  rewrite app_nil_r. eauto.
Qed.

End Decimal.

(** X15. A one-time password always has six characters, which are the
    decimal digits of the number drawn, from 100000 on; the password
    999999 is never issued, because the upper bound of [crypto.randomInt]
    is exclusive. *)
Theorem generateOTP_six_digits n :
  randomInt 100000 999999 n ->
  String.length (generateOTP n) = 6%nat /\
  digits_value 0 (list_ascii_of_string (generateOTP n)) = Some n /\
  generateOTP n <> "999999".
Proof.
  unfold randomInt, generateOTP. intros Hn.
  assert (String.length (decimal n) = 6%nat) as Hlen.
  { apply (length_decimal n 5); [lia|]. change (10 ^ 5) with 100000.
    change (10 ^ (5 + 1)) with 1000000. lia. }
  destruct (digits_value_decimal n 0) as (k & Hk & Hval);
    [change (10 ^ 21) with 1000000000000000000000; lia|].
  split; [done|]. split; [by rewrite Hval|].
  intros Heq. rewrite Heq in Hval. vm_compute in Hval.
  injection Hval as Hval. rewrite Heq in Hk. simpl in Hk. subst k.
  simpl in Hval. lia.
Qed.

Lemma generateOTP_six_digits_witness :
  String.length (generateOTP 100000) = 6%nat /\
  digits_value 0 (list_ascii_of_string (generateOTP 100000)) = Some 100000 /\
  generateOTP 100000 <> "999999".
Proof. apply generateOTP_six_digits. unfold randomInt. lia. Defined.

(** ** Sums and differences of integers in binary64 *)

Section Binary64Sums.

Lemma norm_m_scaled p :
  0 < p < 2 ^ 53 -> Z.pos (norm_m p) = p * 2 ^ (- norm_e p).
Proof.
  intros Hp. rewrite norm_m_Z by done. unfold norm_e. do 2 f_equal. lia.
Qed.

Lemma norm_e_range p : 0 < p < 2 ^ 53 -> -52 <= norm_e p <= 0.
Proof. intros Hp. pose proof (log2_range p Hp). unfold norm_e. lia. Qed.

(** An integer [p] given as [S * 2^e] normalises to its canonical form. *)
Lemma normalize_integer S e p :
  0 < p < 2 ^ 53 -> -1074 <= e <= 0 ->
  Z.pos S = p * 2 ^ (- e) ->
  binary_normalize prec emax (Z.pos S) e false
  = S754_finite false (norm_m p) (norm_e p).
Proof.
  intros Hp He HS.
  pose proof (log2_range p Hp) as Hl.
  pose proof (norm_m_scaled p Hp) as HM.
  pose proof (norm_digits p Hp) as HD.
  unfold binary_normalize, binary_round.
  rewrite fexp_eq, digits2_pos_log2, HS, Z.log2_mul_pow2 by lia.
  replace (Z.max (- e + Z.log2 p + 1 + e - 53) (-1074)) with (norm_e p)
    by (unfold norm_e; lia).
  unfold shl_align.
  destruct (norm_e p - e) as [|k|d] eqn:Hk.
  - assert (S = norm_m p) as ->.
    { apply Pos2Z.inj. rewrite HS, HM. do 2 f_equal. lia. }
    replace e with (norm_e p) by lia.
    apply round_aux_exact; [done|unfold norm_e; lia].
  - replace (norm_e p) with (e + Z.pos k) by lia.
    apply round_aux_exact_shift_Z; [lia| |done|unfold norm_e in *; lia].
    rewrite HS, HM, <- Z.mul_assoc, <- Z.pow_add_r by (unfold norm_e in *; lia).
    do 2 f_equal. lia.
  - assert (Pos.iter xO S d = norm_m p) as ->.
    { apply Pos2Z.inj. rewrite Pos_iter_xO, HS, HM.
      rewrite <- Z.mul_assoc, <- Z.pow_add_r by (unfold norm_e in *; lia).
      do 2 f_equal. lia. }
    apply round_aux_exact; [done|unfold norm_e; lia].
Qed.

Lemma shl_align_fst m e ez :
  ez <= e -> Z.pos (fst (shl_align m e ez)) = Z.pos m * 2 ^ (e - ez).
Proof.
  intros Hle. unfold shl_align.
  destruct (ez - e) as [|k|d] eqn:Hd; [|lia|].
  - replace (e - ez) with 0 by lia. simpl. lia.
  - simpl. rewrite Pos_iter_xO. do 2 f_equal. lia.
Qed.

Lemma aligned_integer p ez :
  0 < p < 2 ^ 53 -> ez <= norm_e p ->
  Z.pos (fst (shl_align (norm_m p) (norm_e p) ez)) = p * 2 ^ (- ez).
Proof.
  intros Hp Hle. pose proof (norm_e_range p Hp).
  rewrite shl_align_fst, norm_m_scaled by done.
  rewrite <- Z.mul_assoc, <- Z.pow_add_r by lia. do 2 f_equal. lia.
Qed.

Lemma add_of_Z a b :
  0 <= a -> 0 <= b -> a + b < 2 ^ 53 ->
  (JS.of_Z a + JS.of_Z b)%float = JS.of_Z (a + b).
Proof.
  intros Ha Hb Hab. apply Prim2SF_inj. rewrite FloatAxioms.add_spec.
  destruct (Z.eq_dec a 0) as [->|Ha0]; destruct (Z.eq_dec b 0) as [->|Hb0].
  - reflexivity.
  - rewrite Z.add_0_l. change (Prim2SF (JS.of_Z 0)) with (S754_zero false).
    rewrite of_Z_spec by lia. reflexivity.
  - rewrite Z.add_0_r. change (Prim2SF (JS.of_Z 0)) with (S754_zero false).
    rewrite of_Z_spec by lia. reflexivity.
  - assert (0 < a < 2 ^ 53) as Ha' by lia.
    assert (0 < b < 2 ^ 53) as Hb' by lia.
    pose proof (norm_e_range a Ha'). pose proof (norm_e_range b Hb').
    rewrite !of_Z_spec by lia. unfold SF64add, SFadd. cbv zeta.
    cbn [cond_Zopp].
    set (ez := Z.min (norm_e a) (norm_e b)).
    assert (0 < 2 ^ (- ez)) as Hpow by (apply pow2_pos; lia).
    pose proof (aligned_integer a ez Ha' ltac:(lia)) as HA.
    pose proof (aligned_integer b ez Hb' ltac:(lia)) as HB.
    rewrite <- Pos2Z.inj_add.
    apply normalize_integer; [lia|lia|].
    rewrite Pos2Z.inj_add, HA, HB. ring.
Qed.

Lemma sub_of_Z a b :
  0 <= b -> b <= a -> a < 2 ^ 53 ->
  (JS.of_Z a - JS.of_Z b)%float = JS.of_Z (a - b).
Proof.
  intros Hb Hba Ha. apply Prim2SF_inj. rewrite FloatAxioms.sub_spec.
  destruct (Z.eq_dec b 0) as [->|Hb0].
  - rewrite Z.sub_0_r. change (Prim2SF (JS.of_Z 0)) with (S754_zero false).
    destruct (Z.eq_dec a 0) as [->|Ha0]; [reflexivity|].
    rewrite of_Z_spec by lia. reflexivity.
  - assert (0 < a < 2 ^ 53) as Ha' by lia.
    assert (0 < b < 2 ^ 53) as Hb' by lia.
    pose proof (norm_e_range a Ha'). pose proof (norm_e_range b Hb').
    rewrite (of_Z_spec a), (of_Z_spec b) by lia.
    unfold SF64sub, SFsub. cbv zeta. cbn [cond_Zopp].
    set (ez := Z.min (norm_e a) (norm_e b)).
    assert (0 < 2 ^ (- ez)) as Hpow by (apply pow2_pos; lia).
    pose proof (aligned_integer a ez Ha' ltac:(lia)) as HA.
    pose proof (aligned_integer b ez Hb' ltac:(lia)) as HB.
    destruct (Z.eq_dec a b) as [->|Hne].
    + rewrite !Z.sub_diag. reflexivity.
    + destruct (Z.pos (fst (shl_align (norm_m a) (norm_e a) ez))
                - Z.pos (fst (shl_align (norm_m b) (norm_e b) ez)))
        as [|S|S] eqn:HS.
      * nia.
      * rewrite of_Z_spec by lia. apply normalize_integer; [lia|lia|].
        rewrite <- HS, HA, HB. ring.
      * pose proof (Pos2Z.neg_is_neg S). nia.
Qed.

Lemma mul_of_Z_nonneg a b :
  0 <= a < 2 ^ 53 -> 0 <= b < 2 ^ 53 -> a * b < 2 ^ 53 ->
  (JS.of_Z a * JS.of_Z b)%float = JS.of_Z (a * b).
Proof.
  intros Ha Hb Hab.
  destruct (Z.eq_dec a 0) as [->|Ha0]; destruct (Z.eq_dec b 0) as [->|Hb0].
  - reflexivity.
  - apply Prim2SF_inj. rewrite FloatAxioms.mul_spec, Z.mul_0_l.
    rewrite (of_Z_spec b) by lia. reflexivity.
  - apply Prim2SF_inj. rewrite FloatAxioms.mul_spec, Z.mul_0_r.
    rewrite (of_Z_spec a) by lia. reflexivity.
  - apply mul_of_Z; lia.
Qed.

(** The ceiling of a quotient of integers, the divisor 1 included. *)
Lemma Math_ceil_div_of_Z_pos p m :
  0 < p < 2 ^ 53 -> 0 < m < 2 ^ 53 ->
  JS.Math_ceil (JS.of_Z p / JS.of_Z m)%float = JS.of_Z ((p + m - 1) / m).
Proof.
  intros Hp Hm.
  assert (0 < m < 2 ^ 53) as Hm' by lia.
  pose proof (log2_range p Hp) as Hlp. pose proof (log2_range m Hm') as Hlm.
  pose proof (norm_m_Z p Hp) as HMp. pose proof (norm_m_Z m Hm') as HMm.
  pose proof (norm_m_bounds p Hp) as HBp.
  pose proof (norm_m_bounds m Hm') as HBm.
  pose proof (Z.log2_spec m ltac:(lia)) as Hsm.
  set (e := Z.log2 p - Z.log2 m - 53).
  set (D := 2 ^ (- e)).
  set (c := 2 ^ (52 - Z.log2 m)).
  assert (0 < c) as Hc by (apply pow2_pos; lia).
  assert (0 < D) as HDpos by (apply pow2_pos; unfold e; lia).
  assert (m < D) as HD.
  { unfold D, e. eapply Z.lt_le_trans; [apply Hsm|].
    apply Z.pow_le_mono_r; lia. }
  assert (Z.pos (norm_m p) * 2 ^ 53 = p * D * c) as HN.
  { rewrite HMp. unfold D, c, e.
    rewrite <- !Z.mul_assoc, <- !Z.pow_add_r by lia. do 2 f_equal. lia. }
  assert (Prim2SF (JS.of_Z p / JS.of_Z m)%float
          = binary_round_aux prec emax false (p * D / m) e
              (new_location (Z.pos (norm_m m)) ((p * D) mod m * c))) as Hx.
  { rewrite FloatAxioms.div_spec, !of_Z_spec by done. unfold SF64div.
    rewrite SFdiv_finite_eq;
      [|by apply norm_digits|by apply norm_digits|unfold norm_e; lia].
    simpl xorb. rewrite HN, HMm. fold c.
    rewrite Z.div_mul_cancel_r, Z.mul_mod_distr_r by lia.
    unfold norm_e, e. f_equal. lia. }
  destruct (scaled_quotient_bounds p m D) as (Hq & Hq0 & Hq1 & HK);
    [lia|lia|lia|].
  set (K := (p + m - 1) / m) in *.
  set (r := (p * D) mod m) in *.
  assert (2 ^ 52 <= p * D / m < 2 ^ 54) as Hqr.
  { assert (2 ^ 105 = 2 ^ 52 * 2 ^ 53) as H105 by (by rewrite <- Z.pow_add_r).
    assert (2 ^ 106 = 2 ^ 52 * 2 ^ 54) as H106 by (by rewrite <- Z.pow_add_r).
    split.
    - apply Z.div_le_lower_bound; [lia|].
      apply (Z.mul_le_mono_pos_r _ _ c); [done|]. nia.
    - apply Z.div_lt_upper_bound; [lia|].
      apply (Z.mul_lt_mono_pos_r c); [done|]. nia. }
  set (q := p * D / m) in *.
  assert (r * c = 0 <-> r = 0) as Hrc by nia.
  destruct q as [|qq|qq] eqn:Hqq; [lia| |lia].
  destruct (Z.lt_ge_cases (Z.pos qq) (2 ^ 53)) as [H53|H54].
  - (* a 53-bit quotient *)
    destruct (round_aux_53 false qq e
                (new_location (Z.pos (norm_m m)) (r * c)))
      as (M & E & Hround & Hcases);
      [apply digits_unique; change (2 ^ (53 - 1)) with (2 ^ 52); lia
      |unfold e; lia|unfold e; lia|].
    rewrite Hround in Hx.
    eapply (Math_ceil_of_bounds _ M E K e);
      [exact Hx|unfold e; lia|exact Hcases| |lia].
    fold D.
    destruct (new_location_cases (Z.pos (norm_m m)) (r * c))
      as [[Hr0 ->]|[Hr0 [cmp ->]]]; unfold round_nearest_even.
    + lia.
    + assert (Z.pos qq <> K * D) by (intros Heq; apply Hr0, Hrc, Hq0, Heq).
      destruct cmp; try destruct (Z.even (Z.pos qq)); lia.
  - (* a 54-bit quotient *)
    destruct (round_aux_54 false qq e
                (new_location (Z.pos (norm_m m)) (r * c)))
      as (M & E & Hround & Hcases);
      [apply digits_unique; change (2 ^ (54 - 1)) with (2 ^ 53); lia
      |unfold e; lia|unfold e; lia|].
    rewrite Hround in Hx.
    eapply (Math_ceil_of_bounds _ M E K (e + 1));
      [exact Hx|unfold e; lia|exact Hcases| |lia].
    assert (D = 2 * 2 ^ (- (e + 1))) as HD2.
    { unfold D. replace (- e) with (Z.succ (- (e + 1))) by lia.
      rewrite Z.pow_succ_r; [done|unfold e; lia]. }
    set (D2 := 2 ^ (- (e + 1))) in *.
    rewrite shr_1_of_loc. cbn [shr_m shr_r shr_s].
    pose proof (Z.div2_odd (Z.pos qq)) as Hodd.
    set (q2 := Z.div2 (Z.pos qq)) in *.
    unfold loc_of_shr_record, round_nearest_even.
    destruct (new_location_cases (Z.pos (norm_m m)) (r * c))
      as [[Hr0 ->]|[Hr0 [cmp ->]]].
    + assert (Z.pos qq <> (K - 1) * D + 1)
        by (intros Heq; apply (Hq1 Heq), Hrc, Hr0).
      destruct (Z.odd (Z.pos qq)); simpl Z.b2z in Hodd;
        try destruct (Z.even q2); lia.
    + assert (Z.pos qq <> K * D) by (intros Heq; apply Hr0, Hrc, Hq0, Heq).
      destruct (Z.odd (Z.pos qq)), cmp; simpl Z.b2z in Hodd; lia.
Qed.

End Binary64Sums.

(** ** Pagination *)

Section Pagination.

Lemma list_ascii_of_string_app s t :
  list_ascii_of_string (s +:+ t)
  = list_ascii_of_string s ++ list_ascii_of_string t.
Proof. induction s as [|c s IH]; simpl; [done|by f_equal]. Qed.

Lemma length_list_ascii_of_string s :
  length (list_ascii_of_string s) = String.length s.
Proof. induction s as [|c s IH]; simpl; congruence. Qed.

Lemma digits_value_acc cs acc :
  digits_value acc cs
  = (fun v => acc * 10 ^ Z.of_nat (length cs) + v) <$> digits_value 0 cs.
Proof.
  revert acc. induction cs as [|c cs IH]; intros acc.
  - cbn [digits_value length fmap option_fmap option_map]. f_equal.
    simpl. lia.
  - cbn [digits_value length].
    destruct (digit_value c) as [d|]; [|done].
    cbn [mbind option_bind]. rewrite (IH (10 * acc + d)), (IH (10 * 0 + d)).
    destruct (digits_value 0 cs) as [v|]; [|done].
    cbn [fmap option_fmap option_map]. f_equal.
    rewrite Nat2Z.inj_succ, Z.pow_succ_r by lia. lia.
Qed.

(** A value that denotes a positive integer below [2^53] converts to that
    integer's number. *)
Lemma ToNumber_denotes v n :
  denotes v n -> 0 < n < 2 ^ 53 -> ToNumber v = Some (JS.of_Z n).
Proof.
  intros Hv Hn. destruct v as [x|s]; simpl in *.
  - f_equal. by apply integer_value_inv.
  - rewrite Hv. cbn [mbind option_bind].
    by destruct (Z.ltb_spec n (2 ^ 53)); [|lia].
Qed.

Lemma decimal_nonempty z :
  0 <= z < 2 ^ 53 -> list_ascii_of_string (decimal z) <> [].
Proof.
  intros Hz. unfold decimal. rewrite list_ascii_of_string_of_list_ascii.
  destruct (decimal_digits_spec 21 z []) as (pre & -> & _ & Hlen & _);
    [change (Z.of_nat 21) with 21; lia|lia|].
  destruct pre; [simpl in Hlen; lia|done].
Qed.

Lemma parseInt_denotes v n :
  denotes v n -> 0 < n < 2 ^ 53 -> parseInt v = Some (JS.of_Z n).
Proof.
  intros Hv Hn. unfold parseInt. destruct v as [x|s]; simpl in Hv.
  - cbn [ToString]. rewrite Hv. cbn [mbind option_bind].
    destruct (Z.leb_spec 0 n); [|lia].
    destruct (Z.ltb_spec n (2 ^ 53)); [|lia]. cbn [andb mbind option_bind].
    pose proof (decimal_nonempty n ltac:(lia)) as Hne.
    destruct (digits_value_decimal n 0) as (k & _ & Hval);
      [change (10 ^ 21) with 1000000000000000000000; lia|].
    destruct (list_ascii_of_string (decimal n)) as [|c cs]; [done|].
    rewrite Hval. cbn [mbind option_bind]. rewrite Z.mul_0_l, Z.add_0_l.
    by destruct (Z.ltb_spec n (2 ^ 53)); [|lia].
  - cbn [ToString mbind option_bind].
    destruct (list_ascii_of_string s) as [|c cs].
    + simpl in Hv. injection Hv as <-. lia.
    + rewrite Hv. cbn [mbind option_bind].
      by destruct (Z.ltb_spec n (2 ^ 53)); [|lia].
Qed.

End Pagination.

(** X16. Without a [limit] parameter the pages are consecutive windows of
    twenty rows: for page [P >= 1], given in the URL or left to its
    default 1, [.range] is called with [from = 20 * (P - 1)] and
    [to = from + 19]. *)
Theorem default_limit_windows page P :
  denotes page P ->
  1 <= P -> 20 * P < 2 ^ 53 ->
  range_bounds page (limit_of None)
  = Some (JS.of_Z (20 * (P - 1)), JS.of_Z (20 * (P - 1) + 19)).
Proof.
  intros Hpage HP Hbound. unfold range_bounds, js_sub, js_mul, js_add.
  rewrite (ToNumber_denotes page P Hpage) by lia.
  cbn [limit_of ToNumber mbind option_bind].
  change 1%float with (JS.of_Z 1). change 20%float with (JS.of_Z 20).
  rewrite sub_of_Z by lia. cbn [mbind option_bind].
  rewrite mul_of_Z_nonneg by lia. cbn [mbind option_bind].
  rewrite add_of_Z by lia. cbn [mbind option_bind ToNumber].
  rewrite sub_of_Z by lia. cbn [mbind option_bind].
  do 3 f_equal; lia.
Qed.

Lemma default_limit_windows_witness :
  range_bounds (page_of (Some "3")) (limit_of None)
  = Some (JS.of_Z (20 * (3 - 1)), JS.of_Z (20 * (3 - 1) + 19)).
Proof.
  apply default_limit_windows.
  - reflexivity.
  - lia.
  - change (2 ^ 53) with 9007199254740992. lia.
Defined.

(** X17. With a [limit] parameter in the URL, [from + limit] concatenates
    the digits of [from] with the parameter, so the window is not
    [limit] rows wide beyond the first page. For page [P >= 1] and a
    limit parameter of [n] digits that denotes [l >= 1], [.range] is
    called with [from = (P - 1) * l] and [to = from * 10^n + l - 1]: the
    first page asks for exactly [l] rows, every later page for more. *)
Theorem limit_parameter_window page P L l :
  denotes page P -> 1 <= P ->
  digits_value 0 (list_ascii_of_string L) = Some l -> 1 <= l ->
  let from := (P - 1) * l in
  let to := from * 10 ^ Z.of_nat (String.length L) + l - 1 in
  to + 1 < 2 ^ 53 ->
  range_bounds page (limit_of (Some L)) = Some (JS.of_Z from, JS.of_Z to) /\
  (P = 1 -> to - from + 1 = l) /\
  (2 <= P -> l < to - from + 1).
Proof.
  intros Hpage HP HL Hl from to Hbound.
  assert (1 <= 10 ^ Z.of_nat (String.length L)) as Hpow
    by (apply Z.lt_pred_le, Z.pow_pos_nonneg; lia).
  assert (10 <= 10 ^ Z.of_nat (String.length L)) as Hpow10.
  { destruct L as [|c L]; [simpl in HL; injection HL as <-; lia|].
    cbn [String.length]. rewrite Nat2Z.inj_succ, Z.pow_succ_r by lia.
    assert (1 <= 10 ^ Z.of_nat (String.length L))
      by (apply Z.lt_pred_le, Z.pow_pos_nonneg; lia).
    lia. }
  assert (0 <= from) as Hfrom by (unfold from; nia).
  assert (from <= from * 10 ^ Z.of_nat (String.length L)) as Hscaled by nia.
  assert (P - 1 <= from) as HPfrom by (unfold from; nia).
  split; [|split].
  - unfold range_bounds, js_sub, js_mul, js_add.
    rewrite (ToNumber_denotes page P Hpage) by lia.
    cbn [limit_of ToNumber mbind option_bind].
    change 1%float with (JS.of_Z 1).
    rewrite sub_of_Z by lia. cbn [mbind option_bind].
    rewrite HL. cbn [mbind option_bind].
    destruct (Z.ltb_spec l (2 ^ 53)); [|lia]. cbn [mbind option_bind].
    rewrite mul_of_Z_nonneg by (fold from; lia). fold from.
    cbn [mbind option_bind ToString].
    rewrite integer_value_of_Z by lia. cbn [mbind option_bind].
    destruct (Z.leb_spec 0 from); [|lia].
    destruct (Z.ltb_spec from (2 ^ 53)); [|lia].
    cbn [andb mbind option_bind ToNumber].
    rewrite list_ascii_of_string_app, digits_value_app.
    destruct (digits_value_decimal from 0) as (k & _ & ->);
      [change (10 ^ 21) with 1000000000000000000000;
       change (2 ^ 53) with 9007199254740992 in *; lia|].
    cbn [mbind option_bind]. rewrite Z.mul_0_l, Z.add_0_l.
    rewrite digits_value_acc, HL, length_list_ascii_of_string.
    cbn [fmap option_fmap option_map mbind option_bind].
    destruct (Z.ltb_spec (from * 10 ^ Z.of_nat (String.length L) + l) (2 ^ 53));
      [|unfold to in Hbound; lia].
    cbn [mbind option_bind]. rewrite sub_of_Z by lia. done.
  - intros ->. unfold to, from. lia.
  - intros HP2. unfold to. assert (1 <= from) by (unfold from; nia). nia.
Qed.

Lemma limit_parameter_window_witness :
  range_bounds (page_of (Some "2")) (limit_of (Some "10"))
    = Some (JS.of_Z ((2 - 1) * 10),
            JS.of_Z ((2 - 1) * 10 * 10 ^ Z.of_nat (String.length "10") + 10 - 1)) /\
  (2 = 1 ->
   (2 - 1) * 10 * 10 ^ Z.of_nat (String.length "10") + 10 - 1 - (2 - 1) * 10 + 1
   = 10) /\
  (2 <= 2 ->
   10 < (2 - 1) * 10 * 10 ^ Z.of_nat (String.length "10") + 10 - 1
        - (2 - 1) * 10 + 1).
Proof.
  apply (limit_parameter_window (page_of (Some "2")) 2 "10" 10).
  - reflexivity.
  - lia.
  - reflexivity.
  - lia.
  - vm_compute. reflexivity.
Defined.

(** X18. The page fields of a list response: for a page that denotes
    [P >= 1], a limit that denotes [l >= 1] (each given in the URL or left
    to its default) and a count of [count >= 0] rows, the response echoes
    [P] and [l], and [total_pages] is the least number [T] of pages of [l]
    rows that hold [count] rows. *)
Theorem page_info_total_pages page limit P l count :
  denotes page P -> 1 <= P < 2 ^ 53 ->
  denotes limit l -> 1 <= l < 2 ^ 53 ->
  0 <= count < 2 ^ 53 ->
  exists T,
    page_info page limit (JS.of_Z count)
      = Some {| info_page := JS.of_Z P; info_limit := JS.of_Z l;
                total_pages := JS.of_Z T |} /\
    (T - 1) * l < count <= T * l.
Proof.
  intros Hpage HP Hlimit Hl Hcount.
  exists ((count + l - 1) / l).
  pose proof (Z.div_mod (count + l - 1) l ltac:(lia)) as Hdm.
  pose proof (Z.mod_pos_bound (count + l - 1) l ltac:(lia)) as Hm.
  split; [|nia].
  unfold page_info, js_div.
  rewrite (parseInt_denotes page P Hpage), (parseInt_denotes limit l Hlimit)
    by lia.
  rewrite (ToNumber_denotes limit l Hlimit) by lia.
  cbn [mbind option_bind ToNumber]. do 2 f_equal.
  destruct (Z.eq_dec count 0) as [->|Hne].
  - rewrite Z.add_0_l, Z.div_small by lia.
    assert (Prim2SF (JS.of_Z 0 / JS.of_Z l) = S754_zero false) as Hq.
    { rewrite FloatAxioms.div_spec, (of_Z_spec l) by lia. reflexivity. }
    unfold JS.Math_ceil. rewrite Hq. apply Prim2SF_inj. by rewrite Hq.
  - apply Math_ceil_div_of_Z_pos; lia.
Qed.

Lemma page_info_total_pages_witness :
  exists T,
    page_info (page_of (Some "2")) (limit_of None) (JS.of_Z 45)
      = Some {| info_page := JS.of_Z 2; info_limit := JS.of_Z 20;
                total_pages := JS.of_Z T |} /\
    (T - 1) * 20 < 45 <= T * 20.
Proof.
  apply (page_info_total_pages (page_of (Some "2")) (limit_of None) 2 20 45).
  - reflexivity.
  - change (2 ^ 53) with 9007199254740992. lia.
  - reflexivity.
  - change (2 ^ 53) with 9007199254740992. lia.
  - change (2 ^ 53) with 9007199254740992. lia.
Defined.

(** ** The order of numbers *)

Section FloatOrder.

Lemma lex_le_spec e1 m1 e2 m2 :
  match
    match e1 ?= e2 with
    | Eq => Pos.compare_cont Eq m1 m2
    | Lt => Lt
    | Gt => Gt
    end
  with
  | Gt => false
  | _ => true
  end = true <-> e1 < e2 \/ e1 = e2 /\ (m1 <= m2)%positive.
Proof.
  change (Pos.compare_cont Eq m1 m2) with (m1 ?= m2)%positive.
  destruct (Z.compare_spec e1 e2); destruct (Pos.compare_spec m1 m2);
    split; intros; try done; lia.
Qed.

Lemma lex_ge_spec e1 m1 e2 m2 :
  match
    match e1 ?= e2 with
    | Eq => CompOpp (Pos.compare_cont Eq m1 m2)
    | Lt => Gt
    | Gt => Lt
    end
  with
  | Gt => false
  | _ => true
  end = true <-> e2 < e1 \/ e1 = e2 /\ (m2 <= m1)%positive.
Proof.
  change (Pos.compare_cont Eq m1 m2) with (m1 ?= m2)%positive.
  destruct (Z.compare_spec e1 e2); destruct (Pos.compare_spec m1 m2);
    split; intros; try done; lia.
Qed.

Lemma lex_lt_spec e1 m1 e2 m2 :
  match
    match e1 ?= e2 with
    | Eq => Pos.compare_cont Eq m1 m2
    | Lt => Lt
    | Gt => Gt
    end
  with
  | Lt => true
  | _ => false
  end = true <-> e1 < e2 \/ e1 = e2 /\ (m1 < m2)%positive.
Proof.
  change (Pos.compare_cont Eq m1 m2) with (m1 ?= m2)%positive.
  destruct (Z.compare_spec e1 e2); destruct (Pos.compare_spec m1 m2);
    split; intros; try done; lia.
Qed.

Lemma lex_gt_spec e1 m1 e2 m2 :
  match
    match e1 ?= e2 with
    | Eq => CompOpp (Pos.compare_cont Eq m1 m2)
    | Lt => Gt
    | Gt => Lt
    end
  with
  | Lt => true
  | _ => false
  end = true <-> e2 < e1 \/ e1 = e2 /\ (m2 < m1)%positive.
Proof.
  change (Pos.compare_cont Eq m1 m2) with (m1 ?= m2)%positive.
  destruct (Z.compare_spec e1 e2); destruct (Pos.compare_spec m1 m2);
    split; intros; try done; lia.
Qed.

Lemma SFleb_trans x y z :
  SFleb x y = true -> SFleb y z = true -> SFleb x z = true.
Proof.
  unfold SFleb, SFcompare.
  destruct x as [[]|[]| |[] mx ex], y as [[]|[]| |[] my ey],
    z as [[]|[]| |[] mz ez]; try done.
  - rewrite !lex_ge_spec. lia.
  - rewrite !lex_le_spec. lia.
Qed.

(** Two numbers that are not [NaN] are comparable. *)
Lemma SFltb_false_leb x y :
  x <> S754_nan -> y <> S754_nan -> SFltb x y = false -> SFleb y x = true.
Proof.
  unfold SFltb, SFleb, SFcompare. intros Hx Hy.
  destruct x as [[]|[]| |[] mx ex], y as [[]|[]| |[] my ey]; try done.
  - intros H. apply not_true_iff_false in H. rewrite lex_gt_spec in H.
    rewrite lex_ge_spec. lia.
  - intros H. apply not_true_iff_false in H. rewrite lex_lt_spec in H.
    rewrite lex_le_spec. lia.
Qed.

Lemma SFltb_leb x y : SFltb x y = true -> SFleb x y = true.
Proof.
  unfold SFltb, SFleb.
  by destruct (SFcompare x y) as [[]|].
Qed.

Lemma SFleb_refl x : x <> S754_nan -> SFleb x x = true.
Proof.
  unfold SFleb, SFcompare. intros Hx.
  destruct x as [[]|[]| |[] mx ex]; try done.
  - rewrite lex_ge_spec. lia.
  - rewrite lex_le_spec. lia.
Qed.

Lemma isNaN_spec x : JS.isNaN x = false <-> Prim2SF x <> S754_nan.
Proof.
  unfold JS.isNaN. rewrite FloatAxioms.eqb_spec, negb_false_iff.
  destruct (Prim2SF x) as [[]|[]| |s m e]; split; try done.
  intros _. apply SFeqb_finite_refl.
Qed.

Lemma leb_trans a b c :
  PrimFloat.leb a b = true -> PrimFloat.leb b c = true ->
  PrimFloat.leb a c = true.
Proof. rewrite !FloatAxioms.leb_spec. apply SFleb_trans. Qed.

Lemma ltb_false_leb a b :
  JS.isNaN a = false -> JS.isNaN b = false ->
  PrimFloat.ltb a b = false -> PrimFloat.leb b a = true.
Proof.
  rewrite !isNaN_spec, FloatAxioms.ltb_spec, FloatAxioms.leb_spec.
  apply SFltb_false_leb.
Qed.

Lemma ltb_leb a b : PrimFloat.ltb a b = true -> PrimFloat.leb a b = true.
Proof. rewrite FloatAxioms.ltb_spec, FloatAxioms.leb_spec. apply SFltb_leb. Qed.

Lemma leb_refl a : JS.isNaN a = false -> PrimFloat.leb a a = true.
Proof. rewrite isNaN_spec, FloatAxioms.leb_spec. apply SFleb_refl. Qed.

Lemma is_finite_spec x :
  is_finite x = true ->
  JS.isNaN x = false /\
  PrimFloat.ltb x infinity = true /\ PrimFloat.ltb neg_infinity x = true.
Proof.
  unfold is_finite. rewrite andb_true_iff. intros [Hlo Hhi].
  split; [|done]. apply isNaN_spec. intros Hnan.
  rewrite FloatAxioms.ltb_spec, Hnan in Hhi. done.
Qed.

End FloatOrder.

(** ** Category statistics *)

Section CategoryStatistics.

Implicit Types (products : list stat_row) (m : float).

(** The running minimum and maximum of [GET /:id/stats]. *)
Lemma stats_fold_min products acc :
  CategoryStats.min_price (fold_left CategoryStats.step products acc)
  = fold_left (fun m p => if PrimFloat.ltb (p_price p) m then p_price p else m)
      products (CategoryStats.min_price acc).
Proof.
  revert acc. induction products as [|p ps IH]; intros acc; [done|].
  simpl. by rewrite IH.
Qed.

Lemma stats_fold_max products acc :
  CategoryStats.max_price (fold_left CategoryStats.step products acc)
  = fold_left (fun m p => if PrimFloat.ltb m (p_price p) then p_price p else m)
      products (CategoryStats.max_price acc).
Proof.
  revert acc. induction products as [|p ps IH]; intros acc; [done|].
  simpl. by rewrite IH.
Qed.

Lemma running_min_spec products m0 :
  (forall p, p ∈ products -> JS.isNaN (p_price p) = false) ->
  JS.isNaN m0 = false ->
  let m :=
    fold_left (fun m p => if PrimFloat.ltb (p_price p) m then p_price p else m)
      products m0 in
  PrimFloat.leb m m0 = true /\
  (forall p, p ∈ products -> PrimFloat.leb m (p_price p) = true) /\
  (m = m0 \/ exists p, p ∈ products /\ m = p_price p).
Proof.
  revert m0. induction products as [|p ps IH]; intros m0 Hps Hm0; cbv zeta.
  - simpl. split; [by apply leb_refl|]. split; [|by left].
    intros p Hp. by apply elem_of_nil in Hp.
  - cbn [fold_left].
    assert (JS.isNaN (p_price p) = false) as Hp by (apply Hps; left).
    set (m1 := if PrimFloat.ltb (p_price p) m0 then p_price p else m0).
    assert (JS.isNaN m1 = false /\ PrimFloat.leb m1 m0 = true
            /\ PrimFloat.leb m1 (p_price p) = true
            /\ (m1 = m0 \/ m1 = p_price p)) as (Hn1 & Hle0 & Hlep & Hm1).
    { unfold m1. destruct (PrimFloat.ltb (p_price p) m0) eqn:Hlt.
      - split; [done|]. split; [by apply ltb_leb|].
        split; [by apply leb_refl|by right].
      - split; [done|]. split; [by apply leb_refl|].
        split; [by apply ltb_false_leb|by left]. }
    destruct (IH m1) as (Hle & Hall & Hin);
      [by intros q Hq; apply Hps; right|done|].
    split; [by eapply leb_trans|]. split.
    + intros q Hq. apply elem_of_cons in Hq as [->|Hq]; [|by apply Hall].
      by eapply leb_trans.
    + destruct Hin as [->|(q & Hq & ->)].
      * destruct Hm1 as [->| ->]; [by left|].
        right. exists p. split; [left|done].
      * right. exists q. split; [by right|done].
Qed.

Lemma running_max_spec products m0 :
  (forall p, p ∈ products -> JS.isNaN (p_price p) = false) ->
  JS.isNaN m0 = false ->
  let m :=
    fold_left (fun m p => if PrimFloat.ltb m (p_price p) then p_price p else m)
      products m0 in
  PrimFloat.leb m0 m = true /\
  (forall p, p ∈ products -> PrimFloat.leb (p_price p) m = true) /\
  (m = m0 \/ exists p, p ∈ products /\ m = p_price p).
Proof.
  revert m0. induction products as [|p ps IH]; intros m0 Hps Hm0; cbv zeta.
  - simpl. split; [by apply leb_refl|]. split; [|by left].
    intros p Hp. by apply elem_of_nil in Hp.
  - cbn [fold_left].
    assert (JS.isNaN (p_price p) = false) as Hp by (apply Hps; left).
    set (m1 := if PrimFloat.ltb m0 (p_price p) then p_price p else m0).
    assert (JS.isNaN m1 = false /\ PrimFloat.leb m0 m1 = true
            /\ PrimFloat.leb (p_price p) m1 = true
            /\ (m1 = m0 \/ m1 = p_price p)) as (Hn1 & Hle0 & Hlep & Hm1).
    { unfold m1. destruct (PrimFloat.ltb m0 (p_price p)) eqn:Hlt.
      - split; [done|]. split; [by apply ltb_leb|].
        split; [by apply leb_refl|by right].
      - split; [done|]. split; [by apply leb_refl|].
        split; [by apply ltb_false_leb|by left]. }
    destruct (IH m1) as (Hle & Hall & Hin);
      [by intros q Hq; apply Hps; right|done|].
    split; [by eapply leb_trans|]. split.
    + intros q Hq. apply elem_of_cons in Hq as [->|Hq]; [|by apply Hall].
      by eapply leb_trans.
    + destruct Hin as [->|(q & Hq & ->)].
      * destruct Hm1 as [->| ->]; [by left|].
        right. exists p. split; [left|done].
      * right. exists q. split; [by right|done].
Qed.

Lemma SFltb_not_leb x y : SFltb x y = true -> SFleb y x = false.
Proof.
  unfold SFltb, SFleb, SFcompare.
  destruct x as [[]|[]| |[] mx ex], y as [[]|[]| |[] my ey]; try done.
  - rewrite lex_gt_spec. intros H. apply not_true_iff_false.
    rewrite lex_ge_spec. lia.
  - rewrite lex_lt_spec. intros H. apply not_true_iff_false.
    rewrite lex_le_spec. lia.
Qed.

Lemma SFltb_not_eqb x y : SFltb x y = true -> SFeqb x y = false.
Proof.
  unfold SFltb, SFeqb. by destruct (SFcompare x y) as [[]|].
Qed.

Lemma ltb_not_leb a b : PrimFloat.ltb a b = true -> PrimFloat.leb b a = false.
Proof.
  rewrite FloatAxioms.ltb_spec, FloatAxioms.leb_spec. apply SFltb_not_leb.
Qed.

Lemma ltb_not_eqb a b : PrimFloat.ltb a b = true -> PrimFloat.eqb a b = false.
Proof.
  rewrite FloatAxioms.ltb_spec, FloatAxioms.eqb_spec. apply SFltb_not_eqb.
Qed.

Lemma SFeqb_sym x y : SFeqb x y = SFeqb y x.
Proof.
  unfold SFeqb, SFcompare.
  destruct x as [[]|[]| |[] mx ex], y as [[]|[]| |[] my ey]; try done;
    rewrite (Z.compare_antisym ex ey);
    change (Pos.compare_cont Eq ?a ?b) with (a ?= b)%positive;
    rewrite (Pos.compare_antisym mx my);
    by destruct (ex ?= ey), (mx ?= my)%positive.
Qed.

End CategoryStatistics.

(** X19. The price range [GET /:id/stats] reports. For a category with at
    least one product, all prices being finite numbers, [min_price] and
    [max_price] are prices of products of the category and every
    product's price lies between them; for a category without products
    both are reset to 0. *)
Theorem category_stats_price_range (products : list stat_row) :
  (forall p, p ∈ products -> is_finite (p_price p) = true) ->
  let stats := CategoryStats.category_stats products in
  match products with
  | [] =>
      CategoryStats.min_price stats = 0%float /\
      CategoryStats.max_price stats = 0%float
  | _ :: _ =>
      (exists p, p ∈ products /\ CategoryStats.min_price stats = p_price p) /\
      (exists p, p ∈ products /\ CategoryStats.max_price stats = p_price p) /\
      forall p, p ∈ products ->
        PrimFloat.leb (CategoryStats.min_price stats) (p_price p) = true /\
        PrimFloat.leb (p_price p) (CategoryStats.max_price stats) = true
  end.
Proof.
  intros Hfin. cbv zeta. destruct products as [|p0 ps]; [done|].
  set (products := p0 :: ps) in *.
  assert (forall p, p ∈ products -> JS.isNaN (p_price p) = false) as Hnan.
  { intros p Hp. by destruct (is_finite_spec _ (Hfin p Hp)). }
  unfold CategoryStats.category_stats. cbn [CategoryStats.min_price
    CategoryStats.max_price].
  rewrite stats_fold_min, stats_fold_max.
  cbn [CategoryStats.initial CategoryStats.min_price CategoryStats.max_price].
  destruct (running_min_spec products infinity Hnan eq_refl)
    as (_ & Hmin_all & Hmin_in).
  destruct (running_max_spec products neg_infinity Hnan eq_refl)
    as (_ & Hmax_all & Hmax_in).
  cbv zeta in *.
  set (lo := fold_left _ products infinity) in *.
  set (hi := fold_left _ products neg_infinity) in *.
  destruct (is_finite_spec _ (Hfin p0 ltac:(left))) as (_ & Hp0hi & Hp0lo).
  assert (exists p, p ∈ products /\ lo = p_price p) as Hlo.
  { destruct Hmin_in as [Heq|?]; [|done]. exfalso.
    pose proof (Hmin_all p0 ltac:(left)) as Hle. rewrite Heq in Hle.
    by rewrite (ltb_not_leb _ _ Hp0hi) in Hle. }
  assert (exists p, p ∈ products /\ hi = p_price p) as Hhi.
  { destruct Hmax_in as [Heq|?]; [|done]. exfalso.
    pose proof (Hmax_all p0 ltac:(left)) as Hle. rewrite Heq in Hle.
    by rewrite (ltb_not_leb _ _ Hp0lo) in Hle. }
  assert (PrimFloat.eqb lo infinity = false) as ->.
  { destruct Hlo as (p & Hp & ->).
    destruct (is_finite_spec _ (Hfin p Hp)) as (_ & H & _).
    by apply ltb_not_eqb. }
  assert (PrimFloat.eqb hi neg_infinity = false) as ->.
  { destruct Hhi as (p & Hp & ->).
    destruct (is_finite_spec _ (Hfin p Hp)) as (_ & _ & H).
    apply ltb_not_eqb in H.
    by rewrite FloatAxioms.eqb_spec, SFeqb_sym, <- FloatAxioms.eqb_spec. }
  split; [done|]. split; [done|]. intros p Hp. split; auto.
Qed.

Lemma category_stats_price_range_witness :
  let products :=
    [ {| p_price := 12.5; p_stock := Some 3%float; p_is_featured := None |};
      {| p_price := 7.25; p_stock := None; p_is_featured := Some true |} ] in
  let stats := CategoryStats.category_stats products in
  (exists p, p ∈ products /\ CategoryStats.min_price stats = p_price p) /\
  (exists p, p ∈ products /\ CategoryStats.max_price stats = p_price p) /\
  forall p, p ∈ products ->
    PrimFloat.leb (CategoryStats.min_price stats) (p_price p) = true /\
    PrimFloat.leb (p_price p) (CategoryStats.max_price stats) = true.
Proof.
  apply (category_stats_price_range
    [ {| p_price := 12.5; p_stock := Some 3%float; p_is_featured := None |};
      {| p_price := 7.25; p_stock := None; p_is_featured := Some true |} ]).
  intros p Hp.
  repeat (apply elem_of_cons in Hp as [->|Hp]); [by vm_compute..|].
  by apply elem_of_nil in Hp.
Defined.

Section RoutesAgree.

Implicit Types (products : list stat_row).

Lemma detail_fold products acc :
  let r := fold_left CategoryDetail.step products acc in
  CategoryDetail.total_products r
    = fold_left (fun n _ => (n + 1)%float) products
        (CategoryDetail.total_products acc) /\
  CategoryDetail.total_stock r
    = fold_left (fun t p => plus_nullable t (p_stock p)) products
        (CategoryDetail.total_stock acc) /\
  CategoryDetail.min_price r
    = fold_left (fun m p => Math_min m (p_price p)) products
        (CategoryDetail.min_price acc) /\
  CategoryDetail.max_price r
    = fold_left (fun m p => Math_max m (p_price p)) products
        (CategoryDetail.max_price acc) /\
  CategoryDetail.avg_price r
    = fold_left (fun a p => (a + p_price p)%float) products
        (CategoryDetail.avg_price acc).
Proof.
  revert acc. induction products as [|p ps IH]; intros acc; [done|].
  cbn [fold_left]. apply IH.
Qed.

Lemma stats_fold products acc :
  let r := fold_left CategoryStats.step products acc in
  CategoryStats.total_products r = CategoryStats.total_products acc /\
  CategoryStats.total_stock r
    = fold_left (fun t p => plus_nullable t (p_stock p)) products
        (CategoryStats.total_stock acc) /\
  CategoryStats.avg_price r
    = fold_left (fun a p => (a + p_price p)%float) products
        (CategoryStats.avg_price acc).
Proof.
  revert acc. induction products as [|p ps IH]; intros acc; [done|].
  cbn [fold_left]. destruct (IH (CategoryStats.step acc p)) as (H1 & H2 & H3).
  cbv zeta. by rewrite H1, H2, H3.
Qed.

(** Counting up by one is exact. *)
Lemma count_fold products k :
  0 <= k -> k + Z.of_nat (length products) < 2 ^ 53 ->
  fold_left (fun n _ => (n + 1)%float) products (JS.of_Z k)
  = JS.of_Z (k + Z.of_nat (length products)).
Proof.
  revert k. induction products as [|p ps IH]; intros k Hk Hb.
  - simpl. f_equal. lia.
  - cbn [fold_left length] in *. change 1%float with (JS.of_Z 1).
    rewrite add_of_Z by lia. rewrite IH by lia. f_equal. lia.
Qed.

Lemma min_folds_agree products m0 :
  (forall p, p ∈ products ->
     JS.isNaN (p_price p) = false /\
     is_zero_of_sign true (p_price p) = false) ->
  JS.isNaN m0 = false ->
  fold_left (fun m p => Math_min m (p_price p)) products m0
  = fold_left (fun m p => if PrimFloat.ltb (p_price p) m then p_price p else m)
      products m0.
Proof.
  revert m0. induction products as [|p ps IH]; intros m0 Hps Hm0; [done|].
  cbn [fold_left]. destruct (Hps p ltac:(left)) as [Hnan Hneg].
  assert (Math_min m0 (p_price p)
          = if PrimFloat.ltb (p_price p) m0 then p_price p else m0) as ->.
  { unfold Math_min. rewrite Hm0, Hnan, Hneg. cbn [orb andb].
    by rewrite orb_false_r. }
  apply IH; [by intros q Hq; apply Hps; right|].
  by destruct (PrimFloat.ltb (p_price p) m0).
Qed.

Lemma max_folds_agree products m0 :
  (forall p, p ∈ products ->
     JS.isNaN (p_price p) = false /\
     is_zero_of_sign true (p_price p) = false) ->
  JS.isNaN m0 = false -> is_zero_of_sign true m0 = false ->
  fold_left (fun m p => Math_max m (p_price p)) products m0
  = fold_left (fun m p => if PrimFloat.ltb m (p_price p) then p_price p else m)
      products m0.
Proof.
  revert m0. induction products as [|p ps IH]; intros m0 Hps Hm0 Hz0; [done|].
  cbn [fold_left]. destruct (Hps p ltac:(left)) as [Hnan Hneg].
  assert (Math_max m0 (p_price p)
          = if PrimFloat.ltb m0 (p_price p) then p_price p else m0) as ->.
  { unfold Math_max. rewrite Hm0, Hnan, Hz0. cbn [orb].
    by rewrite andb_false_r, orb_false_r. }
  apply IH; [by intros q Hq; apply Hps; right|..];
    by destruct (PrimFloat.ltb m0 (p_price p)).
Qed.

End RoutesAgree.

(** X20. [GET /:id] and [GET /:id/stats] report the same statistics. For
    the same products, none of whose prices is [NaN] or [-0],
    the [reduce] with [Math.min] and [Math.max] of the first route and the
    [forEach] with comparisons of the second give the same
    [total_products], [total_stock], [min_price], [max_price] and
    [avg_price]. *)
Theorem category_routes_agree (products : list stat_row) :
  (forall p, p ∈ products ->
     JS.isNaN (p_price p) = false /\
     is_zero_of_sign true (p_price p) = false) ->
  Z.of_nat (length products) < 2 ^ 53 ->
  let detail := CategoryDetail.categoryStats products in
  let stats := CategoryStats.category_stats products in
  CategoryDetail.total_products detail = CategoryStats.total_products stats /\
  CategoryDetail.total_stock detail = CategoryStats.total_stock stats /\
  CategoryDetail.min_price detail = CategoryStats.min_price stats /\
  CategoryDetail.max_price detail = CategoryStats.max_price stats /\
  CategoryDetail.avg_price detail = CategoryStats.avg_price stats.
Proof.
  intros Hps Hlen. cbv zeta.
  unfold CategoryDetail.categoryStats, CategoryStats.category_stats.
  cbn [CategoryDetail.total_products CategoryDetail.total_stock
       CategoryDetail.min_price CategoryDetail.max_price
       CategoryDetail.avg_price
       CategoryStats.total_products CategoryStats.total_stock
       CategoryStats.min_price CategoryStats.max_price
       CategoryStats.avg_price].
  destruct (detail_fold products CategoryDetail.initial)
    as (-> & -> & -> & -> & ->).
  destruct (stats_fold products (CategoryStats.initial products))
    as (-> & -> & ->).
  rewrite stats_fold_min, stats_fold_max.
  cbn [CategoryDetail.initial CategoryStats.initial
       CategoryDetail.total_products CategoryDetail.total_stock
       CategoryDetail.min_price CategoryDetail.max_price
       CategoryDetail.avg_price
       CategoryStats.total_products CategoryStats.total_stock
       CategoryStats.min_price CategoryStats.max_price
       CategoryStats.avg_price].
  assert (fold_left (fun n _ => (n + 1)%float) products 0%float
          = JS.of_Z (Z.of_nat (length products))) as ->.
  { change 0%float with (JS.of_Z 0).
    by rewrite (count_fold products 0), Z.add_0_l by lia. }
  rewrite min_folds_agree, max_folds_agree by done.
  done.
Qed.

Lemma category_routes_agree_witness :
  let products :=
    [ {| p_price := 12.5; p_stock := Some 3%float; p_is_featured := None |};
      {| p_price := 7.25; p_stock := None; p_is_featured := Some true |} ] in
  let detail := CategoryDetail.categoryStats products in
  let stats := CategoryStats.category_stats products in
  CategoryDetail.total_products detail = CategoryStats.total_products stats /\
  CategoryDetail.total_stock detail = CategoryStats.total_stock stats /\
  CategoryDetail.min_price detail = CategoryStats.min_price stats /\
  CategoryDetail.max_price detail = CategoryStats.max_price stats /\
  CategoryDetail.avg_price detail = CategoryStats.avg_price stats.
Proof.
  apply (category_routes_agree
    [ {| p_price := 12.5; p_stock := Some 3%float; p_is_featured := None |};
      {| p_price := 7.25; p_stock := None; p_is_featured := Some true |} ]).
  - intros p Hp.
    repeat (apply elem_of_cons in Hp as [->|Hp]); [by vm_compute..|].
    by apply elem_of_nil in Hp.
  - vm_compute. reflexivity.
Defined.

(** ** Cart totals *)

Lemma SUM_total terms : default 0 (SUM terms) = foldr Z.add 0 terms.
Proof. by destruct terms. Qed.

Lemma foldr_add_app (xs ys : list Z) :
  foldr Z.add 0 (xs ++ ys) = foldr Z.add 0 xs + foldr Z.add 0 ys.
Proof. induction xs as [|x xs IH]; simpl; lia. Qed.

(** X21. A cart total is the user's own: adding a row to [cart_items] adds
    its price times its quantity to the total of the user it belongs to,
    when its product exists, and leaves the total of every other user as
    it was; a row without user or without product changes no total, and a
    user without rows has the total 0. *)
Theorem cart_total_of_insert
    (price : gmap string Z) (cart_items : list cart_item) ci u :
  calculate_cart_total price [] u = 0 /\
  calculate_cart_total price (cart_items ++ [ci]) u
  = calculate_cart_total price cart_items u
    + match ci_user_id ci, ci_product_id ci ≫= (price !!.) with
      | Some owner, Some p => if decide (owner = u) then p * ci_quantity ci else 0
      | _, _ => 0
      end.
Proof.
  split; [done|]. unfold calculate_cart_total.
  rewrite !SUM_total, omap_app, foldr_add_app. f_equal.
  cbn [omap list_omap]. unfold joined_amount.
  destruct (ci_user_id ci) as [owner|].
  - destruct (decide (owner = u)) as [->|Hne].
    + rewrite decide_True by done.
      destruct (ci_product_id ci) as [pid|]; [|done]. simpl.
      destruct (price !! pid); simpl; [lia|done].
    + rewrite decide_False by congruence.
      by destruct (ci_product_id ci ≫= (price !!.)).
  - rewrite decide_False by done.
    by destruct (ci_product_id ci ≫= (price !!.)).
Qed.

(** ** Box quantities that do not apply *)

Lemma gt_of_Z_at_most_1 m :
  - 2 ^ 53 < m <= 1 -> JS.gt (JS.of_Z m) 1%float = false.
Proof.
  intros Hm. destruct m as [|p|p]; [reflexivity| |].
  - assert (p = 1%positive) as -> by lia. reflexivity.
  - unfold JS.gt.
    change (JS.of_Z (Z.neg p)) with (- JS.of_Z (Z.pos p))%float.
    rewrite FloatAxioms.ltb_spec, FloatAxioms.opp_spec, of_Z_spec by lia.
    reflexivity.
Qed.

(** X22. A box quantity of 1 or less does not round: when quantity
    resolution applies to a line (coverage and both dimensions present and
    truthy) and the product's [box_moq] is [NULL], 1, 0 or negative, the
    resolved quantity is the pieces needed, [ceil(coverage / area)],
    without rounding to a multiple. *)
Theorem box_moq_at_most_one_not_applied
    (ps : gmap string product_row) (its : list Item) i it row l w c :
  its !! i = Some it ->
  ps !! product_id it = Some row ->
  length_mm row = Some l ->
  width_mm row = Some w ->
  coverage it = Some c ->
  JS.truthy c = true -> JS.truthy l = true -> JS.truthy w = true ->
  (box_moq row = None \/
   exists m, box_moq row = Some m /\ int4_min <= m <= 1) ->
  adjustedItems ps its !! i
  = Some (with_quantity it (JS.Math_ceil (c / tileArea l w)%float)).
Proof.
  intros Hi Hrow Hl Hw Hc Htc Htl Htw Hmoq.
  rewrite (adjustedItems_at _ _ _ _ Hi), Hrow. unfold resolve.
  rewrite Hc, Hl, Hw, Htc, Htl, Htw. cbn [andb]. do 2 f_equal.
  unfold calculateTileQuantity, piecesNeeded.
  destruct Hmoq as [->|(m & -> & Hm)]; [done|]. cbn [fmap option_fmap option_map].
  rewrite gt_of_Z_at_most_1; [done|].
  unfold int4_min in Hm. assert (2 ^ 31 < 2 ^ 53) by (by apply Z.pow_lt_mono_r).
  lia.
Qed.

Lemma box_moq_at_most_one_not_applied_witness :
  adjustedItems (<[pidA := tile 300 300 0 500]> ∅)
    [line pidA 1 (Some 100%float)] !! 0%nat
  = Some (with_quantity (line pidA 1 (Some 100%float))
            (JS.Math_ceil (100 / tileArea 300 300)%float)).
Proof.
  apply (box_moq_at_most_one_not_applied
           (<[pidA := tile 300 300 0 500]> ∅) _ _ _ (tile 300 300 0 500)).
  - reflexivity.
  - vm_compute. reflexivity.
  - reflexivity.
  - reflexivity.
  - reflexivity.
  - vm_compute. reflexivity.
  - vm_compute. reflexivity.
  - vm_compute. reflexivity.
  - right. exists 0. split; [reflexivity|]. unfold int4_min. lia.
Defined.

(** ** The caller's orders *)

Lemma imap_pair_app {A} (l1 l2 : list A) :
  imap pair (l1 ++ l2) = imap pair l1 ++ imap (fun i => pair (length l1 + i)%nat) l2.
Proof. apply imap_app. Qed.

Lemma elem_of_take_drop {A} (x : A) n k l :
  x ∈ take n (drop k l) -> x ∈ l.
Proof.
  intros H. apply elem_of_take in H as (i & H & _).
  rewrite lookup_drop in H. by eapply list_elem_of_lookup_2.
Qed.

Lemma select_range_sub {A} (rows data : list A) from to x :
  select_range rows from to = Some data -> x ∈ data -> x ∈ rows.
Proof.
  unfold select_range.
  destruct ((from <? 0) || (to <? from)); [done|].
  destruct ((from =? 0) || (from <? Z.of_nat (length rows))); [|done].
  intros [= <-]. apply elem_of_take_drop.
Qed.

(** X23. Placing an order and listing: after [POST /] has stored an order
    for the caller (pending, or cancelled by a failed stock decrement),
    the first page of [GET /my-orders], with the default page and limit,
    starts with that order; and whatever the page, every order the route
    returns belongs to the caller. *)
Theorem placed_order_heads_my_orders db userId body o :
  orders (post_order db userId body).1 !! length (orders db) = Some o ->
  let db' := (post_order db userId body).1 in
  (exists list,
     my_orders db' userId None None = Some list /\
     head (data list) = Some (length (orders db), o)) /\
  (forall query_page query_limit list row,
     my_orders db' userId query_page query_limit = Some list ->
     row ∈ data list -> user_id row.2 = userId).
Proof.
  intros Ho db'. split.
  - assert (orders db' = orders db ++ [o] /\ user_id o = userId) as [Heq Hu].
    { unfold db' in *.
      destruct (post_order_cases db userId body)
        as [[_ H]|(_ & total & addr & _ & _ & [[_ H]|[_ H]])];
        rewrite H in Ho |- *; cbn [fst orders] in *.
      - apply lookup_lt_Some in Ho. lia.
      - rewrite lookup_app_r, Nat.sub_diag in Ho by lia.
        by injection Ho as <-.
      - rewrite lookup_app_r, Nat.sub_diag in Ho by lia.
        by injection Ho as <-. }
    unfold my_orders.
    assert (range_bounds (page_of None) (limit_of None)
            = Some (0%float, 19%float)) as -> by (vm_compute; reflexivity).
    cbn [mbind option_bind fst snd].
    change (JS.integer_value 0) with (Some 0).
    change (JS.integer_value 19) with (Some 19).
    cbn [mbind option_bind].
    rewrite Heq, imap_pair_app, filter_app, reverse_app.
    cbn [imap]. rewrite filter_cons, filter_nil. cbn [snd].
    rewrite decide_True by done. cbn [reverse rev_append app].
    rewrite Nat.add_0_r.
    set (older := reverse (filter _ (imap pair (orders db)))).
    unfold select_range. cbn [Z.ltb Z.compare orb Z.eqb].
    cbn [mbind option_bind].
    change (Z.to_nat (19 - 0 + 1)) with 20%nat. change (Z.to_nat 0) with 0%nat.
    cbn [drop take].
    unfold page_info, js_div.
    assert (parseInt (page_of None) = Some 1%float) as ->
      by (vm_compute; reflexivity).
    assert (parseInt (limit_of None) = Some 20%float) as ->
      by (vm_compute; reflexivity).
    cbn [mbind option_bind ToNumber limit_of].
    eexists. split; [reflexivity|]. reflexivity.
  - intros query_page query_limit list row Hlist Hrow.
    unfold my_orders in Hlist.
    destruct (range_bounds _ _) as [bounds|]; [|done].
    cbn [mbind option_bind] in Hlist.
    destruct (JS.integer_value bounds.1) as [from|]; [|done].
    destruct (JS.integer_value bounds.2) as [to|]; [|done].
    cbn [mbind option_bind] in Hlist.
    destruct (select_range _ from to) as [rows|] eqn:Hsel; [|done].
    cbn [mbind option_bind] in Hlist.
    destruct (page_info _ _ _); [|done]. injection Hlist as <-.
    cbn [data] in Hrow.
    apply (select_range_sub _ _ _ _ _ Hsel) in Hrow.
    apply elem_of_reverse, list_elem_of_filter in Hrow as [Hrow _]. done.
Qed.

Lemma placed_order_heads_my_orders_witness :
  let db' := (post_order (store twoTiles) "user" twoLineCart).1 in
  let o := cancel (new_order "user" [line pidA 5 None; line pidB 1 None]
                     1499.95%float someAddress) in
  (exists list,
     my_orders db' "user" None None = Some list /\
     head (data list) = Some (length (orders (store twoTiles)), o)) /\
  (forall query_page query_limit list row,
     my_orders db' "user" query_page query_limit = Some list ->
     row ∈ data list -> user_id row.2 = "user").
Proof.
  apply (placed_order_heads_my_orders (store twoTiles) "user" twoLineCart).
  vm_compute. reflexivity.
Defined.

(** ** When the stock loop goes through *)

Section Covers.

Implicit Types (ps : gmap string product_row) (its : list Item).






End Covers.



(** ** Where a failed loop stopped *)



